(** * emailapi: structured errors and the event streamer

    A shallow embedding of [errors.go] and [events.go] of the SimpleEmailAPI
    Go SDK, with the properties its design document states about them.

    - [Errors]  : [ErrorCode], [Error], [IsCategory], [ParseError];
    - [Effects] : the monad the streamer runs in (state, trace, panics);
    - [Events]  : [OnReceive], [run], [stream], [dispatchEvent], [queueAck],
                  [flushAcks], [flushAcksLocked];
    - [Spec]    : the words the properties are stated in;
    - [Samples] : handlers, events and scripts to try them on.

    The streamer is sequential code run by one goroutine, plus the timer
    function and the acknowledgment calls it starts. A run is driven by a
    script of what the outside does: what the transport delivers, when the
    timer function gets to run, and when the caller cancels the scope.
    What the streamer does to the outside is collected in a trace. *)

From Stdlib Require Import ZArith Bool Lia.
From Stdlib Require Import Floats.SpecFloat.
From stdpp Require Import base option list strings gmap.

Local Open Scope string_scope.
Local Open Scope list_scope.
Local Open Scope Z_scope.

(* ===================================================================== *)
(** * errors.go *)
(* ===================================================================== *)

Module Errors.

(** [type ErrorCode int32] *)
Definition ErrorCode := Z.

Definition ErrCodeUnspecified : ErrorCode := 0.
Definition ErrCodeUnauthenticated : ErrorCode := 100.
Definition ErrCodePermissionDenied : ErrorCode := 200.
Definition ErrCodeInvalidArgument : ErrorCode := 300.
Definition ErrCodeNotFound : ErrorCode := 400.
Definition ErrCodeAlreadyExists : ErrorCode := 410.
Definition ErrCodeDomainNotOwned : ErrorCode := 500.
Definition ErrCodeDomainNotVerified : ErrorCode := 501.
Definition ErrCodeRateLimited : ErrorCode := 600.
Definition ErrCodeAttachmentTooLarge : ErrorCode := 700.
Definition ErrCodeInvalidToken : ErrorCode := 800.
Definition ErrCodeInternal : ErrorCode := 900.

Definition CategoryAuth := "auth".
Definition CategoryAuthz := "authz".
Definition CategoryValidation := "validation".
Definition CategoryNotFound := "notfound".
Definition CategoryDomain := "domain".
Definition CategoryRateLimit := "ratelimit".
Definition CategoryInternal := "internal".

(** [connect.Code] is a [uint32]; [connect.CodeUnknown] is 2 and
    [connect.CodeUnavailable] is 14 in connectrpc.com/connect. *)
Definition connect_Code := Z.
Definition CodeUnknown : connect_Code := 2.
Definition CodeUnavailable : connect_Code := 14.

(** A Go [map[string]string]: [None] is the nil map. *)
Definition go_map := option (gmap string string).

(** [type Error struct] *)
Record Error := mkError {
  Code : ErrorCode;
  Message : string;
  Field : string;
  Metadata : go_map;
  ConnectCode : connect_Code
}.

(** [func (e *Error) Error() string] *)
Definition Error_Error (e : Error) : string := Message e.

(** [func (e *Error) Is(code ErrorCode) bool] *)
Definition Is (e : Error) (code : ErrorCode) : bool := Code e =? code.

(** [func (e *Error) IsCategory(category string) bool]; the [switch] on the
    category string is a chain of string comparisons. *)
Definition IsCategory (e : Error) (category : string) : bool :=
  let c := Code e in
  if String.eqb category CategoryAuth then (100 <=? c) && (c <? 200)
  else if String.eqb category CategoryAuthz then (200 <=? c) && (c <? 300)
  else if String.eqb category CategoryValidation then (300 <=? c) && (c <? 400)
  else if String.eqb category CategoryNotFound then (400 <=? c) && (c <? 410)
  else if String.eqb category CategoryDomain then (500 <=? c) && (c <? 600)
  else if String.eqb category CategoryRateLimit then (600 <=? c) && (c <? 700)
  else if String.eqb category CategoryInternal then 900 <=? c
  else false.

(** ** What [ParseError] sees of the transport library

    A [proto.Message] taken out of an error detail either has the four
    getters [GetCode], [GetMessage], [GetField], [GetMetadata] that the type
    assertion in [ParseError] asks for, or it does not. *)
Inductive proto_Message :=
| msg_getters (GetCode : Z) (GetMessage GetField : string) (GetMetadata : go_map)
| msg_other.

(** [*connect.ErrorDetail]: [Type()] and [Value()]; [Value] is [None] when
    [detail.Value()] returns an error. *)
Record connect_ErrorDetail := mkDetail {
  detail_Type : string;
  detail_Value : option proto_Message
}.

(** [*connect.Error]: [Code()], [Message()], [Details()]. *)
Record connect_Error := mkConnectError {
  ce_Code : connect_Code;
  ce_Message : string;
  ce_Details : list connect_ErrorDetail
}.

(** A non-nil Go [error] value, as far as [Error()], [Unwrap()] and
    [errors.As] to [*connect.Error] can tell. *)
Inductive error :=
| err_plain (text : string)
| err_wrap (text : string) (inner : error)
| err_connect (text : string) (ce : connect_Error)
| err_api (e : Error).

(** [err.Error()] *)
Definition error_Error (err : error) : string :=
  match err with
  | err_plain text => text
  | err_wrap text _ => text
  | err_connect text _ => text
  | err_api e => Error_Error e
  end.

(** [errors.As(err, &connectErr)] with [connectErr : *connect.Error]: the
    first [*connect.Error] of the [Unwrap] chain. *)
Fixpoint errors_As_connect (err : error) : option connect_Error :=
  match err with
  | err_plain _ => None
  | err_wrap _ inner => errors_As_connect inner
  | err_connect _ ce => Some ce
  | err_api _ => None
  end.

(** The body of the [if protoMsg, ok := msg.(interface{...}); ok] block. *)
Definition apply_detail (msg : proto_Message) (e : Error) : Error :=
  match msg with
  | msg_getters code m field meta =>
      {| Code := code;
         Message := if String.eqb m "" then Message e else m;
         Field := field;
         Metadata := match meta with Some _ => meta | None => Metadata e end;
         ConnectCode := ConnectCode e |}
  | msg_other => e
  end.

(** The [for _, detail := range connectErr.Details()] loop: [continue] when
    the type differs or the value cannot be extracted, [break] after the
    first detail of type [v1.ErrorDetail] whose value was extracted. *)
Fixpoint scan_details (details : list connect_ErrorDetail) (e : Error) : Error :=
  match details with
  | [] => e
  | detail :: rest =>
      if String.eqb (detail_Type detail) "v1.ErrorDetail" then
        match detail_Value detail with
        | None => scan_details rest e
        | Some msg => apply_detail msg e
        end
      else scan_details rest e
  end.

(** [func ParseError(err error) *Error] *)
Definition ParseError (err : option error) : option Error :=
  match err with
  | None => None
  | Some err =>
      match errors_As_connect err with
      | None =>
          Some {| Code := ErrCodeUnspecified;
                  Message := error_Error err;
                  Field := "";
                  Metadata := None;
                  ConnectCode := CodeUnknown |}
      | Some connectErr =>
          let e := {| Code := ErrCodeUnspecified;
                      Message := ce_Message connectErr;
                      Field := "";
                      Metadata := Some ∅;
                      ConnectCode := ce_Code connectErr |} in
          Some (scan_details (ce_Details connectErr) e)
      end
  end.

(** ** The design document's vocabulary *)

(** The category table of the design document: a lower bound and, except
    for [internal], an exclusive upper bound. *)
Definition category_table : list (string * (Z * option Z)) :=
  [ ("auth", (100, Some 200));
    ("authz", (200, Some 300));
    ("validation", (300, Some 400));
    ("notfound", (400, Some 410));
    ("domain", (500, Some 600));
    ("ratelimit", (600, Some 700));
    ("internal", (900, None)) ].

Definition declared_categories : list string := category_table.*1.

Definition in_range (c : Z) (r : Z * option Z) : Prop :=
  r.1 <= c /\ match r.2 with Some hi => c < hi | None => True end.

(** The service's structured envelope carried by an error: the message of
    the first detail of type [v1.ErrorDetail] whose value can be extracted
    and has the four getters. *)
Fixpoint first_envelope (details : list connect_ErrorDetail) : option proto_Message :=
  match details with
  | [] => None
  | d :: rest =>
      if String.eqb (detail_Type d) "v1.ErrorDetail" then
        match detail_Value d with
        | None => first_envelope rest
        | Some (msg_getters c m f md) => Some (msg_getters c m f md)
        | Some msg_other => None
        end
      else first_envelope rest
  end.

Definition envelope (err : error) : option proto_Message :=
  match errors_As_connect err with
  | None => None
  | Some ce => first_envelope (ce_Details ce)
  end.

End Errors.

(* ===================================================================== *)
(** * The monad of the streamer: state, a trace of effects, panics *)
(* ===================================================================== *)

Module Effects.

(** A call returns normally or is unwinding with a panic value. *)
Inductive result (A : Type) :=
| Normal (a : A)
| Panicking (r : string).
Arguments Normal {A} a.
Arguments Panicking {A} r.

Section Monad.
Context {W E : Type}.

Definition M (A : Type) : Type := W -> result A * W * list E.

Definition ret {A} (a : A) : M A := fun w => (Normal a, w, []).

Definition bind {A B} (m : M A) (k : A -> M B) : M B := fun w =>
  let '(r, w1, t1) := m w in
  match r with
  | Normal a => let '(r2, w2, t2) := k a w1 in (r2, w2, t1 ++ t2)
  | Panicking v => (Panicking v, w1, t1)
  end.

Definition emit (e : E) : M unit := fun w => (Normal tt, w, [e]).

Definition gets {A} (f : W -> A) : M A := fun w => (Normal (f w), w, []).

Definition modify (f : W -> W) : M unit := fun w => (Normal tt, f w, []).

(** [defer d()] before [body]: [d] runs when [body] returns or panics; a
    panic of [d] itself replaces the outcome. *)
Definition defer {A} (d : M unit) (body : M A) : M A := fun w =>
  let '(r, w1, t1) := body w in
  let '(rd, w2, t2) := d w1 in
  (match rd with Normal _ => r | Panicking v => Panicking v end, w2, t1 ++ t2).

(** [defer func() { if r := recover(); r != nil { h r } }()] before [body]:
    without a panic [recover] returns nil; with one, the panic stops, [h]
    runs and the function returns normally, unless [h] panics in turn. *)
Definition defer_recover (h : string -> M unit) (body : M unit) : M unit := fun w =>
  let '(r, w1, t1) := body w in
  match r with
  | Normal a => (Normal a, w1, t1)
  | Panicking v => let '(rh, w2, t2) := h v w1 in (rh, w2, t1 ++ t2)
  end.

End Monad.

Arguments M : clear implicits.

Module Notations.
Notation "'let*' x ':=' m 'in' k" := (bind m (fun x => k))
  (at level 10, x name, m at level 100, k at level 200).
Notation "m >> k" := (bind m (fun _ => k))
  (at level 80, right associativity).
End Notations.

End Effects.

(* ===================================================================== *)
(** * events.go *)
(* ===================================================================== *)

Module Events.
Import Errors Effects Effects.Notations.

(** ** The generated package [gen/v1]

    [events.go] only passes the payload records on to the callbacks and
    compares the event type with the heartbeat marker, so the payload types
    and the number of the marker are parameters. [v1.EventType] is an
    [int32] enumeration. *)
Class GenV1 := {
  EmailSentEvent : Type;
  EmailDeliveredEvent : Type;
  EmailBouncedEvent : Type;
  EmailComplainedEvent : Type;
  EmailRejectedEvent : Type;
  EmailDelayedEvent : Type;
  EmailRepliedEvent : Type;
  EmailFailedEvent : Type;
  EventType_EVENT_TYPE_HEARTBEAT : Z
}.

(** [type AckMode string] *)
Definition AckModeAuto := "auto".
Definition AckModeManual := "manual".

(** [time.Duration] is an [int64] count of nanoseconds. *)
Definition Duration := Z.
Definition Millisecond : Duration := 1000000.
Definition Second : Duration := 1000000000.

Definition initialDelay : Duration := 1 * Second.
Definition maxDelay : Duration := 30 * Second.
Definition backoffMultipler : Z := 2.
Definition ackBatchSize : nat := 10.
Definition ackFlushIntervalMs : Duration := 1000 * Millisecond.

(** ** [float64] as used by the backoff computation

    [time.Duration(float64(currentDelay) * backoffMultipler)]: the conversion
    to binary64 rounds to nearest even, the product is the IEEE product and
    the conversion back truncates toward zero; outside [int64] the
    conversion yields the smallest [int64], as on amd64. *)
Definition float64 := spec_float.
Definition float64_of_int (n : Z) : float64 := binary_normalize 53 1024 n 0 false.
Definition float64_mul (x y : float64) : float64 := SFmul 53 1024 x y.
Definition min_int64 : Z := - 2 ^ 63.
Definition max_int64 : Z := 2 ^ 63 - 1.
Definition int64_of_float64 (f : float64) : Z :=
  match f with
  | S754_zero _ => 0
  | S754_finite s m e =>
      let a := if 0 <=? e then Z.shiftl (Z.pos m) e else Z.shiftr (Z.pos m) (- e) in
      let v := if s then - a else a in
      if (min_int64 <=? v) && (v <=? max_int64) then v else min_int64
  | S754_infinity _ | S754_nan => min_int64
  end.

(** The two assignments that end an iteration of [run]. *)
Definition nextDelay (currentDelay : Duration) : Duration :=
  let currentDelay :=
    int64_of_float64
      (float64_mul (float64_of_int currentDelay) (float64_of_int backoffMultipler)) in
  if currentDelay >? maxDelay then maxDelay else currentDelay.

Section Streamer.
Context `{GenV1}.

(** The state user callbacks act on: whatever the closures capture. *)
Context {U : Type}.

(** [isEvent_Payload]: the [oneof] of an event. [Payload_other] is a nil
    payload or a variant the [switch] of [dispatchEvent] has no case for. *)
Inductive isEvent_Payload :=
| Event_EmailSent (EmailSent : EmailSentEvent)
| Event_EmailDelivered (EmailDelivered : EmailDeliveredEvent)
| Event_EmailBounced (EmailBounced : EmailBouncedEvent)
| Event_EmailComplained (EmailComplained : EmailComplainedEvent)
| Event_EmailRejected (EmailRejected : EmailRejectedEvent)
| Event_EmailDelayed (EmailDelayed : EmailDelayedEvent)
| Event_EmailReplied (EmailReplied : EmailRepliedEvent)
| Event_EmailFailed (EmailFailed : EmailFailedEvent)
| Payload_other.

(** [v1.Event], the fields [events.go] reads. *)
Record Event := mkEvent {
  Id : string;
  Type_ : Z;
  Payload : isEvent_Payload
}.

(** A call of user code either returns or panics with a value, of which
    [log.Printf] prints the [%v] rendering [r]. From Go 1.21 on, which the
    SDK requires, [recover] returns a non-nil value for every panic. *)
Inductive returns := Returns | Panics (r : string).
Definition callback := U -> returns * U.

(** [type EventHandlers struct]; a nil func is [None]. *)
Record EventHandlers := mkHandlers {
  OnSent : option (EmailSentEvent -> callback);
  OnDelivered : option (EmailDeliveredEvent -> callback);
  OnBounced : option (EmailBouncedEvent -> callback);
  OnComplained : option (EmailComplainedEvent -> callback);
  OnRejected : option (EmailRejectedEvent -> callback);
  OnDelayed : option (EmailDelayedEvent -> callback);
  OnReplied : option (EmailRepliedEvent -> callback);
  OnFailed : option (EmailFailedEvent -> callback);
  OnError : option (error -> callback);
  AckMode : string;
  BatchSize : Z
}.

(** [type eventStreamer struct]. [ctx] is whether [s.ctx.Done()] is closed;
    [ackTimer] is nil or the timer armed with the given interval. The
    calls on [pendingAcksMu] and on [client] are recorded as effects. *)
Record eventStreamer := mkStreamer {
  handlers : EventHandlers;
  ctx : bool;
  pendingAcks : list string;
  ackTimer : option Duration
}.

Definition set_ctx (b : bool) (s : eventStreamer) : eventStreamer :=
  {| handlers := handlers s; ctx := b;
     pendingAcks := pendingAcks s; ackTimer := ackTimer s |}.
Definition set_pendingAcks (l : list string) (s : eventStreamer) : eventStreamer :=
  {| handlers := handlers s; ctx := ctx s;
     pendingAcks := l; ackTimer := ackTimer s |}.
Definition set_ackTimer (t : option Duration) (s : eventStreamer) : eventStreamer :=
  {| handlers := handlers s; ctx := ctx s;
     pendingAcks := pendingAcks s; ackTimer := t |}.

(** ** Effects *)

(** The places where [run] and [stream] look at [s.ctx.Done()]. *)
Inductive checkpoint := LoopTop | InReceive | PostSession | BackoffSleep.

(** What the streamer does to the outside, in program order. *)
Inductive effect :=
| EvCallback (payload : isEvent_Payload)
| EvOnError (err : error)
| EvLogPrintf (msg : string)
| EvLock
| EvUnlock
| EvTimerStop
| EvAfterFunc (d : Duration)
| EvGoAckEvents (EventIds : list string)
| EvStreamEvents (batchSize : Z)
| EvStreamClose
| EvCtxDone (cp : checkpoint)
| EvTimeAfter (d : Duration).

Record world := mkWorld {
  self : eventStreamer;
  user : U
}.

Definition M (A : Type) : Type := Effects.M world effect A.

Definition get_self : M eventStreamer := gets self.

Definition modify_self (f : eventStreamer -> eventStreamer) : M unit :=
  modify (fun w => {| self := f (self w); user := user w |}).

(** Calling a user callback. *)
Definition call (f : callback) : M unit := fun w =>
  let '(r, u) := f (user w) in
  (match r with Returns => Normal tt | Panics v => Panicking v end,
   {| self := self w; user := u |}, []).

(** [s.pendingAcksMu.Lock(); defer s.pendingAcksMu.Unlock()] *)
Definition locked {A} (body : M A) : M A :=
  emit EvLock >> defer (emit EvUnlock) body.

(** ** The acknowledgment batcher *)

(** [func (s *eventStreamer) flushAcksLocked()]. The goroutine started at
    the end is recorded by its request; the outcome of the call it makes
    only reaches the log. *)
Definition flushAcksLocked : M unit :=
  let* s := get_self in
  if (length (pendingAcks s) =? 0)%nat then ret tt
  else
    (match ackTimer s with
     | Some _ => emit EvTimerStop >> modify_self (set_ackTimer None)
     | None => ret tt
     end) >>
    let idsToAck := pendingAcks s in
    modify_self (set_pendingAcks []) >>
    emit (EvGoAckEvents idsToAck).

(** [func (s *eventStreamer) flushAcks()] *)
Definition flushAcks : M unit := locked flushAcksLocked.

(** The function given to [time.AfterFunc] in [queueAck]. *)
Definition ackTimer_func : M unit := locked flushAcksLocked.

(** [func (s *eventStreamer) queueAck(eventID string)] *)
Definition queueAck (eventID : string) : M unit :=
  locked
    (modify_self (fun s => set_pendingAcks (pendingAcks s ++ [eventID]) s) >>
     let* s := get_self in
     if (ackBatchSize <=? length (pendingAcks s))%nat then flushAcksLocked
     else
       match ackTimer s with
       | None =>
           emit (EvAfterFunc ackFlushIntervalMs) >>
           modify_self (set_ackTimer (Some ackFlushIntervalMs))
       | Some _ => ret tt
       end).

(** ** The dispatcher *)

(** [if f != nil { f(p) }] for one of the typed callbacks. *)
Definition invoke {P : Type} (wrap : P -> isEvent_Payload)
    (f : option (P -> callback)) (p : P) : M unit :=
  match f with
  | Some f => emit (EvCallback (wrap p)) >> call (f p)
  | None => ret tt
  end.

(** [if s.handlers.OnError != nil { s.handlers.OnError(err) }] *)
Definition report (err : error) : M unit :=
  let* s := get_self in
  match OnError (handlers s) with
  | Some f => emit (EvOnError err) >> call (f err)
  | None => ret tt
  end.

(** [&Error{Code: ErrCodeInternal, Message: "panic in event handler"}] *)
Definition panic_error : error :=
  err_api {| Code := ErrCodeInternal; Message := "panic in event handler";
             Field := ""; Metadata := None; ConnectCode := 0 |}.

(** [func (s *eventStreamer) dispatchEvent(event *v1.Event)] *)
Definition dispatchEvent (event : Event) : M unit :=
  defer_recover
    (fun r =>
       report panic_error >>
       emit (EvLogPrintf ("emailapi: panic in event handler: " ++ r)%string))
    (let* s := get_self in
     match Payload event with
     | Event_EmailSent p => invoke Event_EmailSent (OnSent (handlers s)) p
     | Event_EmailDelivered p => invoke Event_EmailDelivered (OnDelivered (handlers s)) p
     | Event_EmailBounced p => invoke Event_EmailBounced (OnBounced (handlers s)) p
     | Event_EmailComplained p => invoke Event_EmailComplained (OnComplained (handlers s)) p
     | Event_EmailRejected p => invoke Event_EmailRejected (OnRejected (handlers s)) p
     | Event_EmailDelayed p => invoke Event_EmailDelayed (OnDelayed (handlers s)) p
     | Event_EmailReplied p => invoke Event_EmailReplied (OnReplied (handlers s)) p
     | Event_EmailFailed p => invoke Event_EmailFailed (OnFailed (handlers s)) p
     | Payload_other => ret tt
     end).

(** ** One streaming session *)

(** [select { case <-s.ctx.Done(): ...; default: }] at checkpoint [cp].
    [cancel] tells whether the caller cancelled the scope since the streamer
    last looked; a cancelled scope stays cancelled. *)
Definition ctx_Done (cp : checkpoint) (cancel : bool) : M bool :=
  let* s := get_self in
  if ctx s || cancel then
    modify_self (set_ctx true) >> emit (EvCtxDone cp) >> ret true
  else ret false.

(** [s.ctx.Err()] of a cancelled scope. *)
Definition ctx_Err : error := err_plain "context canceled".

(** What happens while a session is open: [stream.Receive()] returns true
    with a message, or the goroutine of [ackTimer] gets to run. *)
Inductive arrival :=
| Receive (cancel : bool) (event : Event)
| TimerFires.

(** What the transport does during one call of [stream]: [StreamEvents]
    fails with [open_err], or the arrivals happen and [stream.Receive()]
    then returns false with [stream.Err()] being [stream_Err]. *)
Record session := mkSession {
  open_err : option error;
  arrivals : list arrival;
  stream_Err : option error
}.

(** The body of [for stream.Receive() { ... }]: [Some err] is
    [return err], [None] goes on to the next [Receive]. *)
Definition stream_body (cancel : bool) (event : Event) : M (option (option error)) :=
  let* done := ctx_Done InReceive cancel in
  if done then ret (Some (Some ctx_Err))
  else if Type_ event =? EventType_EVENT_TYPE_HEARTBEAT then ret None
  else
    dispatchEvent event >>
    let* s := get_self in
    (if String.eqb (AckMode (handlers s)) AckModeAuto && negb (String.eqb (Id event) "")
     then queueAck (Id event)
     else ret tt) >>
    ret None.

Fixpoint stream_loop (l : list arrival) (final : option error) : M (option error) :=
  match l with
  | [] => ret final
  | Receive cancel event :: rest =>
      let* brk := stream_body cancel event in
      match brk with
      | Some err => ret err
      | None => stream_loop rest final
      end
  | TimerFires :: rest => ackTimer_func >> stream_loop rest final
  end.

(** [func (s *eventStreamer) stream() error] *)
Definition stream (ses : session) : M (option error) :=
  let* s := get_self in
  emit (EvStreamEvents (BatchSize (handlers s))) >>
  match open_err ses with
  | Some err => ret (Some err)
  | None => defer (emit EvStreamClose) (stream_loop (arrivals ses) (stream_Err ses))
  end.

(** ** The orchestration loop *)

(** One iteration of [for { ... }] in [run], as the outside drives it:
    whether the scope is cancelled before each of the three [select]s, and
    the session in between. *)
Record round := mkRound {
  cancel_top : bool;
  ses : session;
  cancel_post : bool;
  cancel_sleep : bool
}.

(** How far [run] got: it returned, or it is about to start an iteration
    the script says nothing about. *)
Inductive status := Returned | Looping.

Fixpoint run_loop (script : list round) (currentDelay : Duration) : M status :=
  match script with
  | [] => ret Looping
  | r :: rest =>
      let* done := ctx_Done LoopTop (cancel_top r) in
      if done then flushAcks >> ret Returned
      else
        let* err := stream (ses r) in
        let* done := ctx_Done PostSession (cancel_post r) in
        if done then flushAcks >> ret Returned
        else
          (match err with
           | Some err => report err
           | None => ret tt
           end) >>
          flushAcks >>
          emit (EvTimeAfter currentDelay) >>
          let* done := ctx_Done BackoffSleep (cancel_sleep r) in
          if done then ret Returned
          else run_loop rest (nextDelay currentDelay)
  end.

(** [func (s *eventStreamer) run()] *)
Definition run (script : list round) : M status := run_loop script initialDelay.

(** [func (c *Client) OnReceive(ctx context.Context, handlers EventHandlers)]:
    the streamer on which [go streamer.run()] is started. *)
Definition OnReceive (ctx : bool) (handlers : EventHandlers) : eventStreamer :=
  let handlers :=
    if String.eqb (AckMode handlers) "" then
      {| OnSent := OnSent handlers; OnDelivered := OnDelivered handlers;
         OnBounced := OnBounced handlers; OnComplained := OnComplained handlers;
         OnRejected := OnRejected handlers; OnDelayed := OnDelayed handlers;
         OnReplied := OnReplied handlers; OnFailed := OnFailed handlers;
         OnError := OnError handlers;
         AckMode := AckModeAuto; BatchSize := BatchSize handlers |}
    else handlers in
  let handlers :=
    if BatchSize handlers <=? 0 then
      {| OnSent := OnSent handlers; OnDelivered := OnDelivered handlers;
         OnBounced := OnBounced handlers; OnComplained := OnComplained handlers;
         OnRejected := OnRejected handlers; OnDelayed := OnDelayed handlers;
         OnReplied := OnReplied handlers; OnFailed := OnFailed handlers;
         OnError := OnError handlers;
         AckMode := AckMode handlers; BatchSize := 10 |}
    else handlers in
  {| handlers := handlers; ctx := ctx; pendingAcks := []; ackTimer := None |}.

End Streamer.
End Events.

(* ===================================================================== *)
(** * Vocabulary for the properties of events.go *)
(* ===================================================================== *)

Module Spec.
Import Errors Effects Effects.Notations Events.

Section Vocabulary.
Context `{GenV1} {U : Type}.

Local Abbreviation EventHandlers := (@EventHandlers _ U).
Local Abbreviation eventStreamer := (@eventStreamer _ U).
Local Abbreviation callback := (@callback U).
Local Abbreviation M := (@M _ U).
Local Abbreviation world := (@world _ U).

(** The callback the type switch of [dispatchEvent] ends up calling, if
    the payload has a case and the field is not nil. *)
Definition selected (h : EventHandlers) (p : isEvent_Payload) : option callback :=
  match p with
  | Event_EmailSent x => (fun f => f x) <$> OnSent h
  | Event_EmailDelivered x => (fun f => f x) <$> OnDelivered h
  | Event_EmailBounced x => (fun f => f x) <$> OnBounced h
  | Event_EmailComplained x => (fun f => f x) <$> OnComplained h
  | Event_EmailRejected x => (fun f => f x) <$> OnRejected h
  | Event_EmailDelayed x => (fun f => f x) <$> OnDelayed h
  | Event_EmailReplied x => (fun f => f x) <$> OnReplied h
  | Event_EmailFailed x => (fun f => f x) <$> OnFailed h
  | Payload_other => None
  end.

(** An [OnError] that is nil or returns normally on [err] in state [u]. *)
Definition OnError_returns (h : EventHandlers) (err : error) (u : U) : Prop :=
  match OnError h with
  | Some g => (g err u).1 = Returns
  | None => True
  end.

(** The line [dispatchEvent] logs for the panic value [r]. *)
Definition panic_line (r : string) : effect :=
  EvLogPrintf ("emailapi: panic in event handler: " ++ r)%string.

(** *** The batcher *)

Definition drained (s : eventStreamer) : eventStreamer :=
  {| handlers := handlers s; ctx := ctx s; pendingAcks := []; ackTimer := None |}.

(** State and trace of a flush. *)
Definition flushed (s : eventStreamer) : eventStreamer :=
  match pendingAcks s with
  | [] => s
  | _ :: _ => drained s
  end.

Definition stop_trace (s : eventStreamer) : list effect :=
  match ackTimer s with
  | Some _ => [EvTimerStop]
  | None => []
  end.

Definition flush_trace (s : eventStreamer) : list effect :=
  match pendingAcks s with
  | [] => []
  | _ :: _ => stop_trace s ++ [EvGoAckEvents (pendingAcks s)]
  end.

(** State and trace of the critical section of [queueAck]. *)
Definition queued (eventID : string) (s : eventStreamer) : eventStreamer :=
  if (ackBatchSize <=? length (pendingAcks s ++ [eventID]))%nat then drained s
  else {| handlers := handlers s; ctx := ctx s;
          pendingAcks := pendingAcks s ++ [eventID];
          ackTimer := match ackTimer s with
                      | None => Some ackFlushIntervalMs
                      | Some d => Some d
                      end |}.

Definition queue_trace (eventID : string) (s : eventStreamer) : list effect :=
  if (ackBatchSize <=? length (pendingAcks s ++ [eventID]))%nat
  then stop_trace s ++ [EvGoAckEvents (pendingAcks s ++ [eventID])]
  else match ackTimer s with
       | None => [EvAfterFunc ackFlushIntervalMs]
       | Some _ => []
       end.

(** [queueAck] called for each identifier in turn, nothing in between. *)
Fixpoint queueAcks (ids : list string) : M unit :=
  match ids with
  | [] => ret tt
  | id :: rest => queueAck id >> queueAcks rest
  end.

(** An outcome with [t] put in front of its trace. *)
Definition prefixed {A} (t : list effect) (x : result A * world * list effect) :
    result A * world * list effect :=
  let '(r, w, t') := x in (r, w, t ++ t').

(** The lock discipline on a trace: [Lock] only when the lock is free,
    [Unlock] only when it is held, the timer and the requests only touched
    while it is held, and free at the end. [held] is the state of the lock
    at the start. *)
Fixpoint guarded (held : bool) (tr : list effect) : bool :=
  match tr with
  | [] => negb held
  | EvLock :: rest => negb held && guarded true rest
  | EvUnlock :: rest => held && guarded false rest
  | EvTimerStop :: rest => held && guarded held rest
  | EvAfterFunc _ :: rest => held && guarded held rest
  | EvGoAckEvents _ :: rest => held && guarded held rest
  | _ :: rest => guarded held rest
  end.

(** *** The session *)

(** The test guarding [s.queueAck(event.Id)] in [stream]. *)
Definition auto_ack (s : eventStreamer) (event : Event) : bool :=
  String.eqb (AckMode (handlers s)) AckModeAuto && negb (String.eqb (Id event) "").

Definition is_heartbeat (event : Event) : bool :=
  Type_ event =? EventType_EVENT_TYPE_HEARTBEAT.

(** *** Reading a trace *)

(** The acknowledgment requests issued, oldest first. *)
Fixpoint acked (tr : list effect) : list (list string) :=
  match tr with
  | [] => []
  | EvGoAckEvents ids :: rest => ids :: acked rest
  | _ :: rest => acked rest
  end.

(** The payloads handed to typed callbacks. *)
Fixpoint callbacks (tr : list effect) : list isEvent_Payload :=
  match tr with
  | [] => []
  | EvCallback p :: rest => p :: callbacks rest
  | _ :: rest => callbacks rest
  end.

(** The errors handed to [OnError]. *)
Fixpoint reported (tr : list effect) : list error :=
  match tr with
  | [] => []
  | EvOnError e :: rest => e :: reported rest
  | _ :: rest => reported rest
  end.

(** The payloads a session hands to callbacks, read off the arrivals
    alone: [done] is whether the scope is cancelled when the session gets
    to them. How the callbacks end does not enter. *)
Fixpoint expected_callbacks (h : EventHandlers) (done : bool) (l : list arrival) :
    list isEvent_Payload :=
  match l with
  | [] => []
  | TimerFires :: rest => expected_callbacks h done rest
  | Receive cancel event :: rest =>
      if done || cancel then []
      else if is_heartbeat event then expected_callbacks h false rest
      else
        match selected h (Payload event) with
        | Some _ => [Payload event]
        | None => []
        end ++ expected_callbacks h false rest
  end.

(** Effects that can occur between [StreamEvents] and [Close]. *)
Definition in_session (e : effect) : bool :=
  match e with
  | EvStreamEvents _ | EvStreamClose | EvTimeAfter _ => false
  | EvCtxDone cp => match cp with InReceive => true | _ => false end
  | _ => true
  end.

(** Session attempts and backoff waits, in program order: [None] is a call
    of [StreamEvents], [Some d] a wait of [d]. *)
Fixpoint schedule (tr : list effect) : list (option Duration) :=
  match tr with
  | [] => []
  | EvStreamEvents _ :: rest => None :: schedule rest
  | EvTimeAfter d :: rest => Some d :: schedule rest
  | _ :: rest => schedule rest
  end.

(** *** The design document's backoff formula

    [min(initial * multiplier^(n-1), max)] for retry attempt [n >= 1]. *)
Definition backoff (n : nat) : Duration :=
  Z.min (initialDelay * backoffMultipler ^ (Z.of_nat n - 1)) maxDelay.

(** What the schedule of [n] uninterrupted iterations is to be: attempt,
    wait [backoff 1], attempt, wait [backoff 2], ... *)
Definition plan_from (first n : nat) : list (option Duration) :=
  concat (map (fun i => [None; Some (backoff i)]) (seq first n)).

Definition plan (n : nat) : list (option Duration) := plan_from 1 n.

(** *** Scripts in which the scope is never cancelled *)
Definition quiet_arrival (a : arrival) : bool :=
  match a with
  | Receive cancel _ => negb cancel
  | TimerFires => true
  end.

Definition quiet_round (r : round) : bool :=
  negb (cancel_top r) && forallb quiet_arrival (arrivals (ses r)) &&
  negb (cancel_post r) && negb (cancel_sleep r).

(** *** Cancellation *)

(** The scope is cancelled at one of the three [select]s of the round. *)
Definition cancels (r : round) : bool :=
  cancel_top r || cancel_post r || cancel_sleep r.

(** After cancellation is seen at [cp] the streamer takes the lock, as a
    flush does. *)
Definition flushes_after (cp : checkpoint) (tr : list effect) : Prop :=
  exists pre post, tr = pre ++ EvCtxDone cp :: post /\ In EvLock post.

(** How the trace of a [run] that returned ends: with a flush right after
    cancellation was seen at the top of the loop or after the session, or
    with cancellation seen during the wait that follows a flush. *)
Definition ends_cancelled (tr : list effect) : Prop :=
  (exists pre cp s,
     (cp = LoopTop \/ cp = PostSession) /\
     tr = pre ++ EvCtxDone cp :: EvLock :: flush_trace s ++ [EvUnlock]) \/
  (exists pre s d,
     tr = pre ++ EvLock :: flush_trace s ++
            [EvUnlock; EvTimeAfter d; EvCtxDone BackoffSleep]).

(** *** Handlers that differ in [AckMode] only *)
Definition with_AckMode (m : string) (h : EventHandlers) : EventHandlers :=
  {| OnSent := OnSent h; OnDelivered := OnDelivered h; OnBounced := OnBounced h;
     OnComplained := OnComplained h; OnRejected := OnRejected h;
     OnDelayed := OnDelayed h; OnReplied := OnReplied h; OnFailed := OnFailed h;
     OnError := OnError h; AckMode := m; BatchSize := BatchSize h |}.

(** The same streamer, world and outcome with [AckMode] set to [m]. *)
Definition retag (m : string) (s : eventStreamer) : eventStreamer :=
  {| handlers := with_AckMode m (handlers s); ctx := ctx s;
     pendingAcks := pendingAcks s; ackTimer := ackTimer s |}.

Definition retag_world (m : string) (w : world) : world :=
  {| self := retag m (self w); user := user w |}.

Definition retag_outcome {A} (m : string) (x : result A * world * list effect) :
    result A * world * list effect :=
  let '(r, w, t) := x in (r, retag_world m w, t).

(** [m] switches automatic acknowledgment on exactly when the mode of the
    streamer does. *)
Definition same_auto (m : string) (w : world) : Prop :=
  String.eqb m AckModeAuto = String.eqb (AckMode (handlers (self w))) AckModeAuto.

End Vocabulary.
End Spec.

(* ===================================================================== *)
(** * Sample handlers, events and scripts *)
(* ===================================================================== *)

Module Samples.
Import Errors Effects Effects.Notations Events Spec.

(** Payloads reduced to the recipient; the callbacks count their calls. *)
Definition sampleGen : GenV1 :=
  {| EmailSentEvent := string; EmailDeliveredEvent := string;
     EmailBouncedEvent := string; EmailComplainedEvent := string;
     EmailRejectedEvent := string; EmailDelayedEvent := string;
     EmailRepliedEvent := string; EmailFailedEvent := string;
     EventType_EVENT_TYPE_HEARTBEAT := 9 |}.

#[local] Existing Instance sampleGen.

Definition Handlers := @EventHandlers sampleGen nat.
Definition World := @world sampleGen nat.
Definition SampleEvent := @Event sampleGen.

Definition count : @callback nat := fun u => (Returns, S u).
Definition explode (r : string) : @callback nat := fun u => (Panics r, S u).

(** [OnSent] panics, [OnDelivered] and [OnError] return. *)
Definition faulty : Handlers :=
  {| OnSent := Some (fun _ => explode "nil map");
     OnDelivered := Some (fun _ => count);
     OnBounced := None; OnComplained := None; OnRejected := None;
     OnDelayed := None; OnReplied := None; OnFailed := None;
     OnError := Some (fun _ => count);
     AckMode := ""; BatchSize := 0 |}.

(** [OnSent] panics and so does [OnError]. *)
Definition hopeless : Handlers :=
  {| OnSent := Some (fun _ => explode "nil map");
     OnDelivered := None;
     OnBounced := None; OnComplained := None; OnRejected := None;
     OnDelayed := None; OnReplied := None; OnFailed := None;
     OnError := Some (fun _ => explode "index out of range");
     AckMode := AckModeAuto; BatchSize := 10 |}.

(** Only [OnDelivered], no [OnError]. *)
Definition modest : Handlers :=
  {| OnSent := None;
     OnDelivered := Some (fun _ => count);
     OnBounced := None; OnComplained := None; OnRejected := None;
     OnDelayed := None; OnReplied := None; OnFailed := None;
     OnError := None;
     AckMode := AckModeAuto; BatchSize := -3 |}.

Definition start (h : Handlers) : World :=
  {| self := OnReceive false h; user := 0%nat |}.

Definition sent (id : string) : SampleEvent :=
  {| Id := id; Type_ := 1; Payload := Event_EmailSent "a@example.com" |}.
Definition delivered (id : string) : SampleEvent :=
  {| Id := id; Type_ := 2; Payload := Event_EmailDelivered "a@example.com" |}.
Definition beat : SampleEvent :=
  {| Id := "hb-1"; Type_ := 9; Payload := Payload_other |}.

Definition clean : session :=
  {| open_err := None;
     arrivals := [Receive false (delivered "e1"); Receive false beat; TimerFires;
                  Receive false (delivered "")];
     stream_Err := None |}.
Definition refused : session :=
  {| open_err := Some (err_plain "connection refused");
     arrivals := []; stream_Err := None |}.
Definition dropped : session :=
  {| open_err := None;
     arrivals := [Receive false (delivered "e2")];
     stream_Err := Some (err_plain "unexpected EOF") |}.

Definition going (s : session) : round :=
  {| cancel_top := false; ses := s; cancel_post := false; cancel_sleep := false |}.

(** Eight iterations, sessions ending cleanly or not. *)
Definition eight : list round :=
  map going [refused; clean; dropped; clean; clean; refused; clean; dropped].

(** Cancelled after the second session. *)
Definition stop_post : list round :=
  [ going dropped;
    {| cancel_top := false; ses := clean; cancel_post := true; cancel_sleep := false |};
    going clean ].

(** Cancelled during the first backoff wait. *)
Definition stop_sleep : list round :=
  [ {| cancel_top := false; ses := dropped; cancel_post := false; cancel_sleep := true |};
    going clean ].

Definition ten : list string :=
  ["e1"; "e2"; "e3"; "e4"; "e5"; "e6"; "e7"; "e8"; "e9"; "e10"].

Definition precondition_501 : connect_Error :=
  {| ce_Code := 9; ce_Message := "verify the domain";
     ce_Details :=
       [ {| detail_Type := "google.rpc.RetryInfo"; detail_Value := Some msg_other |};
         {| detail_Type := "v1.ErrorDetail"; detail_Value := None |};
         {| detail_Type := "v1.ErrorDetail";
            detail_Value :=
              Some (msg_getters 501 "" "from" (Some {[ "domain" := "example.com" ]})) |} ] |}.

Definition enveloped_501 : error :=
  err_wrap "send: failed_precondition: verify the domain"
    (err_connect "failed_precondition: verify the domain" precondition_501).

Definition unavailable : connect_Error :=
  {| ce_Code := CodeUnavailable; ce_Message := "down"; ce_Details := [] |}.

Definition denied : Error :=
  {| Code := ErrCodePermissionDenied; Message := "no access"; Field := "";
     Metadata := None; ConnectCode := 7 |}.

Definition parsed_501 : Error :=
  {| Code := 501; Message := "verify the domain"; Field := "from";
     Metadata := Some {[ "domain" := "example.com" ]}; ConnectCode := 9 |}.

(** [modest] in manual mode. *)
Definition manual : Handlers := with_AckMode AckModeManual modest.

(** One session: an event without callback, then one whose callback
    panics with [hopeless] handlers. *)
Definition panicky : list round :=
  [ going {| open_err := None;
             arrivals := [Receive false (delivered "e0"); Receive false (sent "e1");
                          Receive false (sent "e2")];
             stream_Err := None |} ].

End Samples.

(* ===================================================================== *)
(** * client.go *)
(* ===================================================================== *)

Module ClientGo.

Definition DefaultBaseURL := "https://api.simpleemailapi.dev".

(** [http.Header], keys in canonical form; [Set] replaces the values of
    the key by the one given. ["Authorization"] is its own canonical form. *)
Definition Header := gmap string (list string).
Definition Header_Set (key value : string) (h : Header) : Header := <[key := [value]]> h.

Section Client.

(** [connect.HTTPClient], [context.Context], the message of a request, the
    results of a call and the two generated service clients with their
    constructors [v1connect.NewEmailServiceClient] and
    [v1connect.NewDomainServiceClient] are not in the package. *)
Context {HTTPClient Context_ Body Response EmailServiceClient DomainServiceClient : Type}.

(** A [connect.AnyRequest], as far as the interceptor goes: its header and
    the rest of it. *)
Record AnyRequest := mkRequest {
  req_Header : Header;
  req_rest : Body
}.

(** [connect.UnaryFunc] and [connect.UnaryInterceptorFunc]; [Response]
    stands for the two results of a call. *)
Definition UnaryFunc := Context_ -> AnyRequest -> Response.
Definition UnaryInterceptorFunc := UnaryFunc -> UnaryFunc.

(** The one [connect.ClientOption] the package builds. *)
Inductive connect_ClientOption :=
| WithInterceptors (interceptors : list UnaryInterceptorFunc).

Variable http_DefaultClient : HTTPClient.
Variable NewEmailServiceClient :
  HTTPClient -> string -> list connect_ClientOption -> EmailServiceClient.
Variable NewDomainServiceClient :
  HTTPClient -> string -> list connect_ClientOption -> DomainServiceClient.

(** [type Client struct]; an interface field not yet set is [None]. *)
Record Client := mkClient {
  Emails : option EmailServiceClient;
  Domains : option DomainServiceClient;
  apiKey : string;
  baseURL : string;
  http : HTTPClient
}.

(** [type ClientOption]: a function on a pointer to [Client]. *)
Definition ClientOption := Client -> Client.

(** [func WithBaseURL(url string) ClientOption] *)
Definition WithBaseURL (url : string) : ClientOption := fun c =>
  {| Emails := Emails c; Domains := Domains c; apiKey := apiKey c;
     baseURL := url; http := http c |}.

(** [func WithHTTPClient(client connect.HTTPClient) ClientOption] *)
Definition WithHTTPClient (client : HTTPClient) : ClientOption := fun c =>
  {| Emails := Emails c; Domains := Domains c; apiKey := apiKey c;
     baseURL := baseURL c; http := client |}.

(** [for _, opt := range opts { opt(c) }] *)
Definition apply_opts (opts : list ClientOption) (c : Client) : Client :=
  fold_left (fun c opt => opt c) opts c.

(** The interceptor of [NewClient]: for [next], the function
    [req.Header().Set("Authorization", "Bearer "+c.apiKey); return next(ctx, req)].
    It reads the key of the client [c] it closes over, which nothing in
    the package assigns after the options have run. *)
Definition authInterceptor (c : Client) : UnaryInterceptorFunc :=
  fun next ctx req =>
    next ctx
      {| req_Header := Header_Set "Authorization" ("Bearer " ++ apiKey c)%string
                         (req_Header req);
         req_rest := req_rest req |}.

(** [func NewClient(apiKey string, opts ...ClientOption) *Client] *)
Definition NewClient (key : string) (opts : list ClientOption) : Client :=
  let c := {| Emails := None; Domains := None; apiKey := key;
              baseURL := DefaultBaseURL; http := http_DefaultClient |} in
  let c := apply_opts opts c in
  let clientOpts := [WithInterceptors [authInterceptor c]] in
  {| Emails := Some (NewEmailServiceClient (http c) (baseURL c) clientOpts);
     Domains := Some (NewDomainServiceClient (http c) (baseURL c) clientOpts);
     apiKey := apiKey c; baseURL := baseURL c; http := http c |}.

(** The exported options, as data. *)
Inductive exported :=
| BaseURL (url : string)
| HTTP (client : HTTPClient).

Definition option_of (o : exported) : ClientOption :=
  match o with
  | BaseURL url => WithBaseURL url
  | HTTP client => WithHTTPClient client
  end.

(** The last base URL and the last HTTP client among options, if any. *)
Fixpoint last_url (os : list exported) (default : string) : string :=
  match os with
  | [] => default
  | BaseURL url :: rest => last_url rest url
  | HTTP _ :: rest => last_url rest default
  end.

Fixpoint last_http (os : list exported) (default : HTTPClient) : HTTPClient :=
  match os with
  | [] => default
  | BaseURL _ :: rest => last_http rest default
  | HTTP client :: rest => last_http rest client
  end.

End Client.

End ClientGo.

(* ===================================================================== *)
(** * More vocabulary for events.go *)
(* ===================================================================== *)

Module More.
Import Errors Effects Effects.Notations Events Spec.

Section Vocabulary.
Context `{GenV1} {U : Type}.

Local Abbreviation EventHandlers := (@EventHandlers _ U).
Local Abbreviation eventStreamer := (@eventStreamer _ U).

(** The state the batcher keeps between calls: fewer than [ackBatchSize]
    identifiers pending, and a timer armed, for [ackFlushIntervalMs],
    exactly when some are. *)
Definition batcher_ok (s : eventStreamer) : Prop :=
  (length (pendingAcks s) < ackBatchSize)%nat /\
  match ackTimer s with
  | None => pendingAcks s = []
  | Some d => d = ackFlushIntervalMs /\ pendingAcks s <> []
  end.

(** A request with at least one and at most [ackBatchSize] identifiers. *)
Definition sized_request (e : effect) : Prop :=
  match e with
  | EvGoAckEvents ids => (1 <= length ids <= ackBatchSize)%nat
  | _ => True
  end.

(** Effects that involve neither the batcher's timer and requests, nor
    the transport's stream, nor [OnError]. *)
Definition plain (e : effect) : bool :=
  match e with
  | EvCallback _ | EvLogPrintf _ | EvLock | EvUnlock | EvStreamClose
  | EvCtxDone _ | EvTimeAfter _ => true
  | _ => false
  end.

(** The errors the transport returns in a script: from [StreamEvents] or
    from [stream.Err()]. *)
Definition session_errors (s : session) : list error :=
  match open_err s with
  | Some e => [e]
  | None => match stream_Err s with Some e => [e] | None => [] end
  end.

Definition script_errors (script : list round) : list error :=
  concat (map (fun r => session_errors (ses r)) script).

(** The identifiers a session hands to [queueAck], read off the arrivals
    alone, as [expected_callbacks] does for payloads. *)
Fixpoint expected_ids (h : EventHandlers) (done : bool) (l : list arrival) : list string :=
  match l with
  | [] => []
  | TimerFires :: rest => expected_ids h done rest
  | Receive cancel event :: rest =>
      if done || cancel then []
      else if is_heartbeat event then expected_ids h false rest
      else
        (if String.eqb (AckMode h) AckModeAuto && negb (String.eqb (Id event) "")
         then [Id event] else []) ++ expected_ids h false rest
  end.

(** [OnError] is nil or returns normally whatever it is given. *)
Definition OnError_calm (h : EventHandlers) : Prop :=
  forall (err : error) (u : U), OnError_returns h err u.

(** Effects that are none of the batcher's: not the lock, not the timer,
    not a request. *)
Definition outside (e : effect) : bool :=
  match e with
  | EvLock | EvUnlock | EvTimerStop | EvAfterFunc _ | EvGoAckEvents _ => false
  | _ => true
  end.

(** The lock as a scope: as [guarded], and while the lock is held nothing
    happens but the batcher's own steps; callbacks, [OnError], the log,
    the transport's stream and the waits all happen with the lock free. *)
Fixpoint lock_scoped (held : bool) (tr : list effect) : bool :=
  match tr with
  | [] => negb held
  | EvLock :: rest => negb held && lock_scoped true rest
  | EvUnlock :: rest => held && lock_scoped false rest
  | EvTimerStop :: rest => held && lock_scoped held rest
  | EvAfterFunc _ :: rest => held && lock_scoped held rest
  | EvGoAckEvents _ :: rest => held && lock_scoped held rest
  | _ :: rest => negb held && lock_scoped held rest
  end.

(** Whether the timer field is set. *)
Definition armed (s : eventStreamer) : bool :=
  match ackTimer s with Some _ => true | None => false end.

(** Following the timer through a trace: [armed] is whether one is armed
    at the start; the result is whether one is at the end, or [None] if
    the trace arms a timer while one is armed or stops one while none is. *)
Fixpoint timer_run (armed : bool) (tr : list effect) : option bool :=
  match tr with
  | [] => Some armed
  | EvAfterFunc _ :: rest => if armed then None else timer_run true rest
  | EvTimerStop :: rest => if armed then timer_run false rest else None
  | _ :: rest => timer_run armed rest
  end.

(** Whether a session sees the scope cancelled: it is, or some message
    arrives after the caller cancelled. *)
Definition session_cancelled (s : session) : bool :=
  match open_err s with
  | Some _ => false
  | None => negb (forallb quiet_arrival (arrivals s))
  end.

(** The payloads a run hands to callbacks, read off the script alone. *)
Fixpoint script_callbacks (h : EventHandlers) (done : bool) (script : list round) :
    list isEvent_Payload :=
  match script with
  | [] => []
  | r :: rest =>
      if done || cancel_top r then []
      else
        match open_err (ses r) with
        | Some _ => []
        | None => expected_callbacks h false (arrivals (ses r))
        end ++
        if session_cancelled (ses r) || cancel_post r || cancel_sleep r then []
        else script_callbacks h false rest
  end.

(** The identifiers a run hands to [queueAck], read off the script alone. *)
Fixpoint script_ids (h : EventHandlers) (done : bool) (script : list round) : list string :=
  match script with
  | [] => []
  | r :: rest =>
      if done || cancel_top r then []
      else
        match open_err (ses r) with
        | Some _ => []
        | None => expected_ids h false (arrivals (ses r))
        end ++
        if session_cancelled (ses r) || cancel_post r || cancel_sleep r then []
        else script_ids h false rest
  end.

End Vocabulary.
End More.

(* ===================================================================== *)
(** * Properties of errors.go *)
(* ===================================================================== *)

Section ErrorsFacts.
Import Errors Samples.

Lemma eqb_neq_false (a b : string) : a <> b -> String.eqb a b = false.
Proof. intros Hne. destruct (String.eqb_spec a b); [contradiction | reflexivity]. Qed.

Lemma IsCategory_in_table e cat r :
  In (cat, r) category_table -> IsCategory e cat = true <-> in_range (Code e) r.
Proof.
  unfold category_table, in_range. intros Hin. simpl in Hin.
  repeat (destruct Hin as [Heq | Hin]; [inversion Heq; subst; clear Heq | ]);
    try contradiction;
    unfold IsCategory; simpl;
    rewrite ?andb_true_iff, ?Z.leb_le, ?Z.ltb_lt; tauto.
Qed.

Lemma IsCategory_undeclared e cat :
  ~ In cat declared_categories -> IsCategory e cat = false.
Proof.
  unfold declared_categories, category_table. simpl. intros Hnot.
  unfold IsCategory, CategoryAuth, CategoryAuthz, CategoryValidation,
    CategoryNotFound, CategoryDomain, CategoryRateLimit, CategoryInternal.
  rewrite !eqb_neq_false; [reflexivity | intros ->; apply Hnot; tauto ..].
Qed.

(** C8. [IsCategory] is true exactly on the range the table gives for a
    declared category; 501 is a domain code and not a validation code; 450
    lies in no declared category; an undeclared name yields false. *)
Theorem IsCategory_ranges :
  (forall e cat r, In (cat, r) category_table ->
     (IsCategory e cat = true <-> in_range (Code e) r)) /\
  (forall e, Code e = 501 ->
     IsCategory e "domain" = true /\ IsCategory e "validation" = false) /\
  (forall e cat, Code e = 450 -> In cat declared_categories ->
     IsCategory e cat = false) /\
  (forall e cat, ~ In cat declared_categories -> IsCategory e cat = false).
Proof.
  split; [exact IsCategory_in_table | ].
  split.
  { intros e Hc. unfold IsCategory. rewrite Hc. split; reflexivity. }
  split; [ | exact IsCategory_undeclared].
  intros e cat Hc Hin. unfold declared_categories, category_table in Hin.
  simpl in Hin.
  repeat (destruct Hin as [<- | Hin]; [unfold IsCategory; rewrite Hc; reflexivity | ]).
  contradiction.
Qed.

Lemma IsCategory_ranges_witness :
  let e := {| Code := ErrCodeDomainNotVerified; Message := "domain not verified";
              Field := ""; Metadata := None; ConnectCode := 9 |} in
  (IsCategory e "domain" = true <-> in_range 501 (500, Some 600)) /\
  (IsCategory e "domain" = true /\ IsCategory e "validation" = false) /\
  IsCategory e "quota" = false.
Proof.
  intros e. destruct IsCategory_ranges as (Htab & H501 & _ & Hun).
  split; [ | split].
  - apply (Htab e "domain" (500, Some 600)). simpl. tauto.
  - apply (H501 e). reflexivity.
  - apply (Hun e "quota"). simpl. intros Hin.
    repeat (destruct Hin as [Heq | Hin]; [discriminate Heq | ]). exact Hin.
Defined.

Lemma scan_details_envelope details e :
  scan_details details e =
  match first_envelope details with
  | Some msg => apply_detail msg e
  | None => e
  end.
Proof.
  induction details as [ | d rest IH]; simpl; [reflexivity | ].
  destruct (String.eqb (detail_Type d) "v1.ErrorDetail"); [ | exact IH].
  destruct (detail_Value d) as [[c m f md | ] | ]; [reflexivity | reflexivity | exact IH].
Qed.

(** C7, as the code has it. [ParseError(nil)] is nil. An error that neither
    is nor wraps a Connect error becomes code 0, the unknown status and
    the raw message. A Connect error without envelope becomes code 0 with
    the Connect error's own message and status and an empty metadata map.
    An enveloped error takes code and field from the envelope, the
    metadata when the envelope has a non-nil one, the envelope message
    only when it is non-empty, and keeps the Connect status. *)
Theorem ParseError_cases :
  ParseError None = None /\
  (forall err, errors_As_connect err = None ->
     ParseError (Some err) =
     Some {| Code := ErrCodeUnspecified; Message := error_Error err; Field := "";
             Metadata := None; ConnectCode := CodeUnknown |}) /\
  (forall err ce, errors_As_connect err = Some ce -> envelope err = None ->
     ParseError (Some err) =
     Some {| Code := ErrCodeUnspecified; Message := ce_Message ce; Field := "";
             Metadata := Some ∅; ConnectCode := ce_Code ce |}) /\
  (forall err ce c m f md, errors_As_connect err = Some ce ->
     envelope err = Some (msg_getters c m f md) ->
     ParseError (Some err) =
     Some {| Code := c;
             Message := if String.eqb m "" then ce_Message ce else m;
             Field := f;
             Metadata := match md with Some _ => md | None => Some ∅ end;
             ConnectCode := ce_Code ce |}).
Proof.
  split; [reflexivity | ].
  split; [intros err Has; unfold ParseError; rewrite Has; reflexivity | ].
  split.
  - intros err ce Has Henv. unfold envelope in Henv. rewrite Has in Henv.
    unfold ParseError. rewrite Has, scan_details_envelope, Henv. reflexivity.
  - intros err ce c m f md Has Henv. unfold envelope in Henv. rewrite Has in Henv.
    unfold ParseError. rewrite Has, scan_details_envelope, Henv. reflexivity.
Qed.


Lemma ParseError_cases_witness :
  ParseError (Some (err_plain "dial tcp: timeout")) =
    Some {| Code := 0; Message := "dial tcp: timeout"; Field := "";
            Metadata := None; ConnectCode := CodeUnknown |} /\
  ParseError (Some (err_connect "unavailable: down"
                      {| ce_Code := CodeUnavailable; ce_Message := "down"; ce_Details := [] |})) =
    Some {| Code := 0; Message := "down"; Field := "";
            Metadata := Some ∅; ConnectCode := CodeUnavailable |} /\
  ParseError (Some enveloped_501) =
    Some {| Code := 501; Message := "verify the domain"; Field := "from";
            Metadata := Some {[ "domain" := "example.com" ]}; ConnectCode := 9 |}.
Proof.
  destruct ParseError_cases as (_ & Hplain & Hbare & Henv).
  split; [ | split].
  - apply (Hplain (err_plain "dial tcp: timeout")). reflexivity.
  - apply (Hbare (err_connect "unavailable: down"
                    {| ce_Code := CodeUnavailable; ce_Message := "down"; ce_Details := [] |})
             {| ce_Code := CodeUnavailable; ce_Message := "down"; ce_Details := [] |});
      reflexivity.
  - apply (Henv enveloped_501 precondition_501 501 "" "from" (Some {[ "domain" := "example.com" ]}));
      reflexivity.
Defined.

(** C7 as stated fails: a Connect error without envelope keeps its own
    status and message instead of the unknown status and the raw text. *)
Lemma ParseError_connect_without_envelope :
  let err := err_connect "unavailable: down"
               {| ce_Code := CodeUnavailable; ce_Message := "down"; ce_Details := [] |} in
  envelope err = None /\
  ~ (exists e, ParseError (Some err) = Some e /\
               Code e = ErrCodeUnspecified /\
               ConnectCode e = CodeUnknown /\
               Message e = error_Error err).
Proof.
  intros err. split; [reflexivity | ].
  intros (e & Hparse & _ & Hcode & _).
  simpl in Hparse. inversion Hparse; subst e. simpl in Hcode. discriminate Hcode.
Qed.

End ErrorsFacts.

(* ===================================================================== *)
(** * Properties of events.go *)
(* ===================================================================== *)

Section EventsFacts.
Import Errors Effects Effects.Notations Events Spec.
Context `{GenV1} {U : Type}.

Local Abbreviation EventHandlers := (@EventHandlers _ U).
Local Abbreviation eventStreamer := (@eventStreamer _ U).
Local Abbreviation world := (@world _ U).
Local Abbreviation M := (@M _ U).
Local Abbreviation ends_cancelled := (@ends_cancelled _ U).

(** ** What each operation computes *)

Lemma bind_eq {A B} (m : M A) (k : A -> M B) (w : world) :
  bind m k w =
  match m w with
  | (Normal a, w1, t1) => prefixed t1 (k a w1)
  | (Panicking v, w1, t1) => (Panicking v, w1, t1)
  end.
Proof. unfold bind, prefixed. destruct (m w) as [[[a | v] w1] t1]; reflexivity. Qed.

Lemma prefixed_nil {A} (x : result A * world * list effect) : prefixed [] x = x.
Proof. destruct x as [[r w] t]. reflexivity. Qed.

Lemma prefixed_prefixed {A} (t1 t2 : list effect) (x : result A * world * list effect) :
  prefixed t1 (prefixed t2 x) = prefixed (t1 ++ t2) x.
Proof. destruct x as [[r w] t]. cbn. rewrite app_assoc. reflexivity. Qed.

Lemma flushAcksLocked_eq (w : world) :
  flushAcksLocked w =
  (Normal tt, {| self := flushed (self w); user := user w |}, flush_trace (self w)).
Proof.
  destruct w as [[h c p t] u]. destruct p as [ | id p]; [reflexivity | ].
  destruct t; reflexivity.
Qed.

Lemma locked_eq {A} (body : M A) (w : world) :
  locked body w =
  match body w with (r, w1, t1) => (r, w1, EvLock :: t1 ++ [EvUnlock]) end.
Proof.
  unfold locked, defer. rewrite bind_eq. cbv [emit].
  destruct (body w) as [[r w1] t1]. reflexivity.
Qed.

Lemma flushAcks_eq (w : world) :
  flushAcks w =
  (Normal tt, {| self := flushed (self w); user := user w |},
   EvLock :: flush_trace (self w) ++ [EvUnlock]).
Proof. unfold flushAcks. rewrite locked_eq, flushAcksLocked_eq. reflexivity. Qed.

Lemma ackTimer_func_eq (w : world) :
  ackTimer_func w =
  (Normal tt, {| self := flushed (self w); user := user w |},
   EvLock :: flush_trace (self w) ++ [EvUnlock]).
Proof. unfold ackTimer_func. rewrite locked_eq, flushAcksLocked_eq. reflexivity. Qed.

Lemma queueAck_eq (eventID : string) (w : world) :
  queueAck eventID w =
  (Normal tt, {| self := queued eventID (self w); user := user w |},
   EvLock :: queue_trace eventID (self w) ++ [EvUnlock]).
Proof.
  destruct w as [[h c p t] u].
  unfold queueAck, queued, queue_trace. rewrite locked_eq, !bind_eq.
  cbn -[flushAcksLocked Nat.leb ackBatchSize].
  destruct (ackBatchSize <=? length (p ++ [eventID]))%nat.
  - rewrite flushAcksLocked_eq. unfold flushed, flush_trace. cbn.
    destruct (p ++ [eventID]) as [ | x l] eqn:E.
    + destruct p; discriminate E.
    + destruct t; reflexivity.
  - destruct t; reflexivity.
Qed.

Lemma dispatchEvent_eq (event : Event) (w : world) :
  dispatchEvent event w =
  match selected (handlers (self w)) (Payload event) with
  | None => (Normal tt, w, [])
  | Some f =>
      match f (user w) with
      | (Returns, u) =>
          (Normal tt, {| self := self w; user := u |}, [EvCallback (Payload event)])
      | (Panics r, u) =>
          match OnError (handlers (self w)) with
          | None =>
              (Normal tt, {| self := self w; user := u |},
               [EvCallback (Payload event); panic_line r])
          | Some g =>
              match g panic_error u with
              | (Returns, u') =>
                  (Normal tt, {| self := self w; user := u' |},
                   [EvCallback (Payload event); EvOnError panic_error; panic_line r])
              | (Panics r', u') =>
                  (Panicking r', {| self := self w; user := u' |},
                   [EvCallback (Payload event); EvOnError panic_error])
              end
          end
      end
  end.
Proof.
  destruct w as [s u]. unfold dispatchEvent, defer_recover. rewrite bind_eq.
  cbv [get_self gets self handlers user prefixed]. cbn [app].
  destruct s as [h c p t].
  destruct (Payload event) as [x | x | x | x | x | x | x | x | ];
    unfold selected, invoke; cbn [fmap option_fmap option_map];
    try reflexivity.
  all: match goal with
       | |- context [match ?o with Some _ => _ | None => _ end] => destruct o as [f | ]
       end; cbn [fmap option_fmap option_map]; [ | reflexivity].
  all: rewrite bind_eq; cbv [emit call user self prefixed];
    destruct (f x u) as [[ | r] u1]; [reflexivity | ].
  all: unfold report; rewrite !bind_eq; cbv [get_self gets self handlers prefixed];
    destruct (OnError h) as [g | ]; [ | reflexivity].
  all: rewrite !bind_eq; cbv [emit call user self prefixed];
    destruct (g panic_error u1) as [[ | r'] u2]; reflexivity.
Qed.

Lemma dispatchEvent_self (event : Event) (w : world) :
  self (dispatchEvent event w).1.2 = self w.
Proof.
  rewrite dispatchEvent_eq.
  destruct (selected (handlers (self w)) (Payload event)) as [f | ]; [ | reflexivity].
  destruct (f (user w)) as [[ | r] u]; [reflexivity | ].
  destruct (OnError (handlers (self w))) as [g | ]; [ | reflexivity].
  destruct (g panic_error u) as [[ | r'] u']; reflexivity.
Qed.

Lemma ctx_Done_eq (cp : checkpoint) (cancel : bool) (w : world) :
  ctx_Done cp cancel w =
  if ctx (self w) || cancel
  then (Normal true, {| self := set_ctx true (self w); user := user w |}, [EvCtxDone cp])
  else (Normal false, w, []).
Proof.
  destruct w as [s u]. unfold ctx_Done. rewrite bind_eq.
  cbv [get_self gets self user]. destruct (ctx s || cancel); reflexivity.
Qed.

Lemma report_eq (err : error) (w : world) :
  report err w =
  match OnError (handlers (self w)) with
  | None => (Normal tt, w, [])
  | Some g =>
      match g err (user w) with
      | (Returns, u) => (Normal tt, {| self := self w; user := u |}, [EvOnError err])
      | (Panics r, u) => (Panicking r, {| self := self w; user := u |}, [EvOnError err])
      end
  end.
Proof.
  destruct w as [s u]. unfold report. rewrite bind_eq.
  cbv [get_self gets self user]. destruct (OnError (handlers s)) as [g | ]; [ | reflexivity].
  rewrite bind_eq. cbv [emit call user self].
  destruct (g err u) as [[ | r] u1]; reflexivity.
Qed.

Lemma stream_body_eq (cancel : bool) (event : Event) (w : world) :
  stream_body cancel event w =
  if ctx (self w) || cancel then
    (Normal (Some (Some ctx_Err)),
     {| self := set_ctx true (self w); user := user w |}, [EvCtxDone InReceive])
  else if is_heartbeat event then (Normal None, w, [])
  else
    match dispatchEvent event w with
    | (Normal _, w1, t1) =>
        if auto_ack (self w) event then
          (Normal None, {| self := queued (Id event) (self w); user := user w1 |},
           t1 ++ EvLock :: queue_trace (Id event) (self w) ++ [EvUnlock])
        else (Normal None, w1, t1)
    | (Panicking v, w1, t1) => (Panicking v, w1, t1)
    end.
Proof.
  unfold stream_body, is_heartbeat. rewrite bind_eq, ctx_Done_eq.
  destruct (ctx (self w) || cancel); [reflexivity | ].
  destruct (Type_ event =? EventType_EVENT_TYPE_HEARTBEAT); [reflexivity | ].
  rewrite bind_eq. pose proof (dispatchEvent_self event w) as Hself.
  destruct (dispatchEvent event w) as [[[[] | v] w1] t1]; [ | reflexivity].
  cbn in Hself. rewrite !bind_eq. cbv [get_self gets].
  rewrite !prefixed_nil, Hself.
  fold (auto_ack (self w) event).
  destruct (auto_ack (self w) event).
  - rewrite bind_eq, queueAck_eq, Hself. cbv [ret prefixed].
    cbn [app]. rewrite !app_nil_r. reflexivity.
  - rewrite bind_eq. cbv [ret prefixed]. cbn [app]. rewrite app_nil_r. reflexivity.
Qed.

Lemma stream_loop_receive (cancel : bool) (event : Event) (rest : list arrival)
    (final : option error) (w : world) :
  stream_loop (Receive cancel event :: rest) final w =
  match stream_body cancel event w with
  | (Normal (Some err), w1, t1) => (Normal err, w1, t1)
  | (Normal None, w1, t1) => prefixed t1 (stream_loop rest final w1)
  | (Panicking v, w1, t1) => (Panicking v, w1, t1)
  end.
Proof.
  cbn [stream_loop]. rewrite bind_eq.
  destruct (stream_body cancel event w) as [[[[err | ] | v] w1] t1]; try reflexivity.
  cbv [ret prefixed]. rewrite app_nil_r. reflexivity.
Qed.

Lemma stream_loop_timer (rest : list arrival) (final : option error) (w : world) :
  stream_loop (TimerFires :: rest) final w =
  prefixed (EvLock :: flush_trace (self w) ++ [EvUnlock])
    (stream_loop rest final {| self := flushed (self w); user := user w |}).
Proof. cbn [stream_loop]. rewrite bind_eq, ackTimer_func_eq. reflexivity. Qed.

Lemma stream_eq (ses : session) (w : world) :
  stream ses w =
  match open_err ses with
  | Some err => (Normal (Some err), w, [EvStreamEvents (BatchSize (handlers (self w)))])
  | None =>
      match stream_loop (arrivals ses) (stream_Err ses) w with
      | (r, w1, t1) =>
          (r, w1, EvStreamEvents (BatchSize (handlers (self w))) :: t1 ++ [EvStreamClose])
      end
  end.
Proof.
  unfold stream. rewrite bind_eq. cbv [get_self gets]. rewrite bind_eq. cbv [emit].
  destruct (open_err ses) as [err | ]; [reflexivity | ].
  unfold defer. cbv [emit].
  destruct (stream_loop (arrivals ses) (stream_Err ses) w) as [[r w1] t1]. reflexivity.
Qed.

(** One iteration of [run]. *)
Lemma run_loop_cons (r : round) (rest : list round) (d : Duration) (w : world) :
  run_loop (r :: rest) d w =
  if ctx (self w) || cancel_top r then
    (Normal Returned, {| self := flushed (set_ctx true (self w)); user := user w |},
     EvCtxDone LoopTop :: EvLock :: flush_trace (set_ctx true (self w)) ++ [EvUnlock])
  else
    match stream (ses r) w with
    | (Panicking v, w1, t1) => (Panicking v, w1, t1)
    | (Normal err, w1, t1) =>
        prefixed t1
          (if ctx (self w1) || cancel_post r then
             (Normal Returned,
              {| self := flushed (set_ctx true (self w1)); user := user w1 |},
              EvCtxDone PostSession :: EvLock ::
                flush_trace (set_ctx true (self w1)) ++ [EvUnlock])
           else
             match (match err with
                    | Some e => report e w1
                    | None => (Normal tt, w1, [])
                    end) with
             | (Panicking v, w2, t2) => (Panicking v, w2, t2)
             | (Normal _, w2, t2) =>
                 let s3 := flushed (self w2) in
                 prefixed
                   (t2 ++ EvLock :: flush_trace (self w2) ++ [EvUnlock; EvTimeAfter d])
                   (if ctx s3 || cancel_sleep r then
                      (Normal Returned, {| self := set_ctx true s3; user := user w2 |},
                       [EvCtxDone BackoffSleep])
                    else run_loop rest (nextDelay d) {| self := s3; user := user w2 |})
             end)
    end.
Proof.
  cbn [run_loop]. rewrite bind_eq, ctx_Done_eq.
  destruct (ctx (self w) || cancel_top r).
  { rewrite bind_eq, flushAcks_eq. cbv [ret prefixed]. cbn [self user app].
    rewrite app_nil_r. reflexivity. }
  rewrite prefixed_nil, bind_eq.
  destruct (stream (ses r) w) as [[[err | v] w1] t1]; [ | reflexivity].
  f_equal. rewrite bind_eq, ctx_Done_eq.
  destruct (ctx (self w1) || cancel_post r).
  { rewrite bind_eq, flushAcks_eq. cbv [ret prefixed]. cbn [self user app].
    rewrite !app_nil_r. reflexivity. }
  rewrite prefixed_nil.
  assert (Htail : forall w2 : world,
    (flushAcks >> emit (EvTimeAfter d) >>
     let* done := ctx_Done BackoffSleep (cancel_sleep r) in
     if done then ret Returned else run_loop rest (nextDelay d)) w2 =
    prefixed (EvLock :: flush_trace (self w2) ++ [EvUnlock; EvTimeAfter d])
      (if ctx (flushed (self w2)) || cancel_sleep r then
         (Normal Returned,
          {| self := set_ctx true (flushed (self w2)); user := user w2 |},
          [EvCtxDone BackoffSleep])
       else run_loop rest (nextDelay d)
              {| self := flushed (self w2); user := user w2 |})).
  { intros w2. rewrite bind_eq, flushAcks_eq, bind_eq. cbv [emit].
    rewrite bind_eq, ctx_Done_eq. cbn [self user].
    destruct (ctx (flushed (self w2)) || cancel_sleep r).
    - cbv [ret prefixed]. cbn [app]. rewrite ?app_nil_r, <- ?app_assoc. reflexivity.
    - rewrite prefixed_nil, !prefixed_prefixed. f_equal.
      cbn [app]. rewrite <- app_assoc. reflexivity. }
  destruct err as [e | ]; rewrite bind_eq; cbv beta iota.
  - destruct (report e w1) as [[[[] | v] w2] t2]; [ | reflexivity].
    rewrite Htail. cbv zeta. rewrite prefixed_prefixed. reflexivity.
  - cbv [ret]. rewrite Htail, prefixed_nil. reflexivity.
Qed.

(** ** The acknowledgment batcher *)

Lemma acked_app (t1 t2 : list effect) : acked (t1 ++ t2) = acked t1 ++ acked t2.
Proof.
  induction t1 as [ | e t1 IH]; [reflexivity | ].
  destruct e; cbn; rewrite ?IH; reflexivity.
Qed.

Lemma acked_flush_trace (s : eventStreamer) :
  acked (flush_trace s) =
  match pendingAcks s with [] => [] | _ :: _ => [pendingAcks s] end.
Proof.
  unfold flush_trace, stop_trace.
  destruct (pendingAcks s); [reflexivity | ]. destruct (ackTimer s); reflexivity.
Qed.

(** ** States and traces of the batcher *)

Lemma handlers_flushed (s : eventStreamer) : handlers (flushed s) = handlers s.
Proof. unfold flushed. destruct (pendingAcks s); reflexivity. Qed.

Lemma ctx_flushed (s : eventStreamer) : ctx (flushed s) = ctx s.
Proof. unfold flushed. destruct (pendingAcks s); reflexivity. Qed.

Lemma pendingAcks_flushed (s : eventStreamer) : pendingAcks (flushed s) = [].
Proof. unfold flushed. destruct (pendingAcks s) eqn:E; [exact E | reflexivity]. Qed.

Lemma handlers_queued (id : string) (s : eventStreamer) :
  handlers (queued id s) = handlers s.
Proof. unfold queued. destruct (ackBatchSize <=? _)%nat; reflexivity. Qed.

Lemma ctx_queued (id : string) (s : eventStreamer) : ctx (queued id s) = ctx s.
Proof. unfold queued. destruct (ackBatchSize <=? _)%nat; reflexivity. Qed.

Lemma pendingAcks_queued (id : string) (s : eventStreamer) :
  pendingAcks (queued id s) =
  if (ackBatchSize <=? length (pendingAcks s ++ [id]))%nat then []
  else pendingAcks s ++ [id].
Proof. unfold queued. destruct (ackBatchSize <=? _)%nat; reflexivity. Qed.

Lemma acked_queue_trace (id : string) (s : eventStreamer) :
  acked (queue_trace id s) =
  if (ackBatchSize <=? length (pendingAcks s ++ [id]))%nat
  then [pendingAcks s ++ [id]] else [].
Proof.
  unfold queue_trace, stop_trace.
  destruct (ackBatchSize <=? _)%nat; destruct (ackTimer s); reflexivity.
Qed.

(** ** Projections of traces *)

Lemma callbacks_app (t1 t2 : list effect) :
  callbacks (t1 ++ t2) = callbacks t1 ++ callbacks t2.
Proof.
  induction t1 as [ | e t1 IH]; [reflexivity | ].
  destruct e; cbn; rewrite ?IH; reflexivity.
Qed.

Lemma schedule_app (t1 t2 : list effect) :
  schedule (t1 ++ t2) = schedule t1 ++ schedule t2.
Proof.
  induction t1 as [ | e t1 IH]; [reflexivity | ].
  destruct e; cbn; rewrite ?IH; reflexivity.
Qed.

Lemma in_session_schedule (tr : list effect) :
  forallb in_session tr = true -> schedule tr = [].
Proof.
  induction tr as [ | e tr IH]; [reflexivity | ]. cbn [forallb].
  rewrite andb_true_iff. intros [He Htr]. destruct e; try discriminate He; cbn; auto.
Qed.

Lemma in_session_flush_trace (s : eventStreamer) :
  forallb in_session (flush_trace s) = true.
Proof.
  unfold flush_trace, stop_trace.
  destruct (pendingAcks s); [reflexivity | ]. destruct (ackTimer s); reflexivity.
Qed.

Lemma in_session_queue_trace (id : string) (s : eventStreamer) :
  forallb in_session (queue_trace id s) = true.
Proof.
  unfold queue_trace, stop_trace.
  destruct (ackBatchSize <=? _)%nat; destruct (ackTimer s); reflexivity.
Qed.

Lemma callbacks_flush_trace (s : eventStreamer) : callbacks (flush_trace s) = [].
Proof.
  unfold flush_trace, stop_trace.
  destruct (pendingAcks s); [reflexivity | ]. destruct (ackTimer s); reflexivity.
Qed.

Lemma callbacks_queue_trace (id : string) (s : eventStreamer) :
  callbacks (queue_trace id s) = [].
Proof.
  unfold queue_trace, stop_trace.
  destruct (ackBatchSize <=? _)%nat; destruct (ackTimer s); reflexivity.
Qed.

(** What a dispatch leaves in the trace, whatever the callbacks do. *)
Lemma dispatchEvent_trace (event : Event) (w : world) :
  let tr := (dispatchEvent event w).2 in
  forallb in_session tr = true /\ acked tr = [] /\
  callbacks tr =
    match selected (handlers (self w)) (Payload event) with
    | Some _ => [Payload event]
    | None => []
    end.
Proof.
  rewrite dispatchEvent_eq.
  destruct (selected (handlers (self w)) (Payload event)) as [f | ]; [ | cbn; auto].
  destruct (f (user w)) as [[ | r] u]; [cbn; auto | ].
  destruct (OnError (handlers (self w))) as [g | ]; [ | cbn; auto].
  destruct (g panic_error u) as [[ | r'] u']; cbn; auto.
Qed.

(** C3. [queueAck] appends between [Lock] and [Unlock]; when the list
    then has [ackBatchSize] entries it is flushed inside the same call and
    left empty, otherwise a timer is armed for [ackFlushIntervalMs] unless
    one is armed already. The timer and the request are only touched while
    the lock is held. Ten calls on an empty list: the first nine issue
    nothing and the tenth issues one request with the ten identifiers in
    order. *)
Theorem queueAck_batch :
  (forall (id : string) (w : world),
     exists (w' : world) (tr : list effect),
       queueAck id w = (Normal tt, w', EvLock :: tr ++ [EvUnlock]) /\
       user w' = user w /\ handlers (self w') = handlers (self w) /\
       ctx (self w') = ctx (self w) /\
       ~ In EvLock tr /\ ~ In EvUnlock tr /\
       if (ackBatchSize <=? length (pendingAcks (self w) ++ [id]))%nat then
         pendingAcks (self w') = [] /\ ackTimer (self w') = None /\
         tr = stop_trace (self w) ++ [EvGoAckEvents (pendingAcks (self w) ++ [id])]
       else
         pendingAcks (self w') = pendingAcks (self w) ++ [id] /\
         match ackTimer (self w) with
         | None => ackTimer (self w') = Some ackFlushIntervalMs /\
                   tr = [EvAfterFunc ackFlushIntervalMs]
         | Some d => ackTimer (self w') = Some d /\ tr = []
         end) /\
  (forall (id : string) (w : world), guarded false (queueAck id w).2 = true) /\
  (forall (w : world) (ids : list string),
     pendingAcks (self w) = [] -> length ids = 10%nat ->
     exists (w9 w' : world) (tr9 : list effect) (id10 : string),
       ids = take 9 ids ++ [id10] /\
       queueAcks (take 9 ids) w = (Normal tt, w9, tr9) /\
       acked tr9 = [] /\ pendingAcks (self w9) = take 9 ids /\
       queueAck id10 w9 =
         (Normal tt, w', [EvLock; EvTimerStop; EvGoAckEvents ids; EvUnlock]) /\
       pendingAcks (self w') = [] /\ ackTimer (self w') = None /\
       exists tr, queueAcks ids w = (Normal tt, w', tr) /\ acked tr = [ids]).
Proof.
  split; [ | split].
  - intros id [[h c p t] u]. rewrite queueAck_eq. eexists. eexists.
    split; [reflexivity | ]. unfold queued, queue_trace, stop_trace.
    cbn [self user handlers ctx pendingAcks ackTimer].
    destruct (ackBatchSize <=? length (p ++ [id]))%nat; destruct t; cbn;
      intuition congruence.
  - intros id w. rewrite queueAck_eq. unfold queue_trace, stop_trace. cbn [snd].
    destruct (ackBatchSize <=? length (pendingAcks (self w) ++ [id]))%nat;
      destruct (ackTimer (self w)); reflexivity.
  - intros [[h c p t] u] ids Hp Hlen. cbn in Hp. subst p.
    do 10 (destruct ids as [ | ? ids]; [discriminate Hlen | ]).
    destruct ids; [ | discriminate Hlen]. clear Hlen.
    cbn [take firstn]. unfold queueAcks. rewrite !bind_eq, !queueAck_eq.
    destruct t; cbn; repeat eexists.
Qed.

(** ** Sessions *)

Lemma prefixed_trace {A} (t : list effect) (x : result A * world * list effect) :
  (prefixed t x).2 = t ++ x.2.
Proof. destruct x as [[r w] t']. reflexivity. Qed.

Lemma prefixed_fst {A} (t : list effect) (x : result A * world * list effect) :
  (prefixed t x).1 = x.1.
Proof. destruct x as [[r w] t']. reflexivity. Qed.

Lemma auto_ack_handlers (s1 s2 : eventStreamer) (event : Event) :
  handlers s1 = handlers s2 -> auto_ack s1 event = auto_ack s2 event.
Proof. unfold auto_ack. intros ->. reflexivity. Qed.

(** An iteration that goes on to the next [Receive] has seen the scope
    alive and leaves it so. *)
Lemma stream_body_continue (cancel : bool) (event : Event) (w w1 : world)
    (t1 : list effect) :
  stream_body cancel event w = (Normal None, w1, t1) ->
  ctx (self w) = false /\ cancel = false /\
  ctx (self w1) = false /\ handlers (self w1) = handlers (self w).
Proof.
  rewrite stream_body_eq.
  destruct (ctx (self w) || cancel) eqn:Hdone; [discriminate | ].
  apply orb_false_elim in Hdone. destruct Hdone as [Hctx Hcancel].
  destruct (is_heartbeat event).
  { intros [= <- <-]. auto. }
  pose proof (dispatchEvent_self event w) as Hself.
  destruct (dispatchEvent event w) as [[[[] | v] w0] t0]; [ | discriminate].
  cbn in Hself. destruct (auto_ack (self w) event).
  - intros [= <- <-]. cbn. rewrite ctx_queued, handlers_queued. auto.
  - intros [= <- <-]. rewrite Hself. auto.
Qed.

Lemma stream_loop_skip (event : Event) (pre post : list arrival) (final : option error) :
  is_heartbeat event = true ->
  forall w : world, ctx (self w) = false ->
    stream_loop (pre ++ Receive false event :: post) final w =
    stream_loop (pre ++ post) final w.
Proof.
  intros Hhb. induction pre as [ | [cancel e | ] pre IH]; intros w Hctx; cbn [app].
  - rewrite stream_loop_receive, stream_body_eq, Hctx, Hhb. cbn [orb].
    apply prefixed_nil.
  - rewrite !stream_loop_receive.
    destruct (stream_body cancel e w) as [[[[err | ] | v] w1] t1] eqn:Hbody;
      try reflexivity.
    apply stream_body_continue in Hbody. destruct Hbody as (_ & _ & Hctx1 & _).
    rewrite (IH w1 Hctx1). reflexivity.
  - rewrite !stream_loop_timer. rewrite IH; [reflexivity | ].
    cbn. rewrite ctx_flushed. exact Hctx.
Qed.

Lemma stream_loop_in_session (l : list arrival) (final : option error) (w : world) :
  forallb in_session (stream_loop l final w).2 = true.
Proof.
  revert w. induction l as [ | [cancel e | ] l IH]; intros w.
  - reflexivity.
  - rewrite stream_loop_receive, stream_body_eq.
    destruct (ctx (self w) || cancel); [reflexivity | ].
    destruct (is_heartbeat e); [rewrite prefixed_nil; apply IH | ].
    pose proof (dispatchEvent_trace e w) as (Hin & _ & _).
    destruct (dispatchEvent e w) as [[[[] | v] w1] t1]; [ | exact Hin].
    cbn in Hin. destruct (auto_ack (self w) e); rewrite prefixed_trace.
    + rewrite !forallb_app. cbn [forallb in_session].
      rewrite Hin, forallb_app, in_session_queue_trace, IH. reflexivity.
    + rewrite forallb_app, Hin, IH. reflexivity.
  - rewrite stream_loop_timer, prefixed_trace. cbn [app forallb in_session].
    rewrite !forallb_app, in_session_flush_trace, IH. reflexivity.
Qed.

Lemma stream_schedule (ses : session) (w : world) : schedule (stream ses w).2 = [None].
Proof.
  rewrite stream_eq. destruct (open_err ses); [reflexivity | ].
  pose proof (stream_loop_in_session (arrivals ses) (stream_Err ses) w) as Hin.
  destruct (stream_loop (arrivals ses) (stream_Err ses) w) as [[r w1] t1].
  cbn in Hin |- *. rewrite schedule_app, (in_session_schedule _ Hin). reflexivity.
Qed.

(** The identifiers that get into the pending list and into requests. *)
Lemma stream_loop_ids (good : string -> Prop) (l : list arrival) (final : option error) :
  forall w : world,
    Forall good (pendingAcks (self w)) ->
    (forall cancel event, In (Receive cancel event) l ->
       is_heartbeat event = false -> auto_ack (self w) event = true ->
       good (Id event)) ->
    Forall good (pendingAcks (self (stream_loop l final w).1.2)) /\
    Forall (Forall good) (acked (stream_loop l final w).2).
Proof.
  induction l as [ | [cancel e | ] l IH]; intros w Hp Hl.
  - cbn. auto.
  - rewrite stream_loop_receive, stream_body_eq.
    destruct (ctx (self w) || cancel); [cbn; auto | ].
    assert (Hrest : forall w1 : world,
              handlers (self w1) = handlers (self w) ->
              forall cancel0 event, In (Receive cancel0 event) l ->
                is_heartbeat event = false -> auto_ack (self w1) event = true ->
                good (Id event)).
    { intros w1 Hh c0 ev Hin Hhb Hauto. apply (Hl c0 ev); [right; exact Hin | exact Hhb | ].
      rewrite <- Hauto. apply auto_ack_handlers. symmetry. exact Hh. }
    destruct (is_heartbeat e) eqn:Hhb.
    { rewrite prefixed_nil. apply IH; [exact Hp | apply Hrest; reflexivity]. }
    pose proof (dispatchEvent_trace e w) as (_ & Hack & _).
    pose proof (dispatchEvent_self e w) as Hself.
    destruct (dispatchEvent e w) as [[[[] | v] w1] t1]; cbn in Hack, Hself.
    2: { cbn. rewrite Hself, Hack. auto. }
    destruct (auto_ack (self w) e) eqn:Hauto; rewrite prefixed_trace, prefixed_fst.
    + assert (Hid : good (Id e)) by (apply (Hl cancel e); auto; left; reflexivity).
      assert (Hq : Forall good (pendingAcks (self w) ++ [Id e])).
      { apply Forall_app. split; [exact Hp | constructor; [exact Hid | constructor]]. }
      destruct (IH {| self := queued (Id e) (self w); user := user w1 |}) as [IH1 IH2].
      { cbn. rewrite pendingAcks_queued. destruct (ackBatchSize <=? _)%nat; auto. }
      { apply Hrest. cbn. apply handlers_queued. }
      split; [exact IH1 | ].
      rewrite !acked_app. cbn [acked]. rewrite acked_app, Hack, acked_queue_trace.
      cbn [acked app]. destruct (ackBatchSize <=? _)%nat; cbn [app]; auto.
    + destruct (IH w1) as [IH1 IH2].
      { rewrite Hself. exact Hp. }
      { apply Hrest. rewrite Hself. reflexivity. }
      split; [exact IH1 | ]. rewrite acked_app, Hack. exact IH2.
  - rewrite stream_loop_timer, prefixed_trace, prefixed_fst.
    destruct (IH {| self := flushed (self w); user := user w |}) as [IH1 IH2].
    { cbn. rewrite pendingAcks_flushed. constructor. }
    { intros c0 ev Hin Hhb Hauto. apply (Hl c0 ev); [right; exact Hin | exact Hhb | ].
      rewrite <- Hauto. apply auto_ack_handlers. cbn. symmetry. apply handlers_flushed. }
    split; [exact IH1 | ].
    cbn [app acked]. rewrite !acked_app, acked_flush_trace. cbn [acked app].
    destruct (pendingAcks (self w)) eqn:E; cbn [app]; [exact IH2 | ].
    constructor; [exact Hp | exact IH2].
Qed.


Lemma dispatchEvent_no_lock (event : Event) (w : world) :
  ~ In EvLock (dispatchEvent event w).2.
Proof.
  rewrite dispatchEvent_eq.
  destruct (selected (handlers (self w)) (Payload event)) as [f | ]; [ | cbn; tauto].
  destruct (f (user w)) as [[ | r] u]; [cbn; intuition discriminate | ].
  destruct (OnError (handlers (self w))) as [g | ];
    [ | unfold panic_line; cbn; intuition discriminate].
  destruct (g panic_error u) as [[ | r'] u'];
    unfold panic_line; cbn; intuition discriminate.
Qed.

(** C5. An iteration of the receive loop on a heartbeat does nothing but
    the cancellation check: no callback, no [OnError], no lock taken,
    nothing appended and no request, whatever the handlers and [AckMode]
    are; taking a heartbeat out of a session changes neither the result
    nor the state nor the trace; and every identifier pending or sent
    after a session was pending before or is the [Id] of an event that is
    not a heartbeat. *)
Theorem heartbeat_skipped :
  (forall event : Event, is_heartbeat event = true ->
     (forall (cancel : bool) (w : world),
        stream_body cancel event w =
        if ctx (self w) || cancel then
          (Normal (Some (Some ctx_Err)),
           {| self := set_ctx true (self w); user := user w |}, [EvCtxDone InReceive])
        else (Normal None, w, [])) /\
     (forall (cancel : bool) (w : world),
        let x := stream_body cancel event w in
        callbacks x.2 = [] /\ reported x.2 = [] /\ acked x.2 = [] /\
        ~ In EvLock x.2 /\
        pendingAcks (self x.1.2) = pendingAcks (self w) /\
        ackTimer (self x.1.2) = ackTimer (self w) /\
        user x.1.2 = user w) /\
     (forall (pre post : list arrival) (final : option error) (w : world),
        ctx (self w) = false ->
        stream_loop (pre ++ Receive false event :: post) final w =
        stream_loop (pre ++ post) final w)) /\
  (forall (l : list arrival) (final : option error) (w : world),
     let x := stream_loop l final w in
     Forall (fun id =>
               In id (pendingAcks (self w)) \/
               exists cancel event,
                 In (Receive cancel event) l /\ is_heartbeat event = false /\
                 Id event = id)
            (pendingAcks (self x.1.2) ++ concat (acked x.2))).
Proof.
  split.
  - intros event Hhb.
    assert (Hbody : forall (cancel : bool) (w : world),
              stream_body cancel event w =
              if ctx (self w) || cancel then
                (Normal (Some (Some ctx_Err)),
                 {| self := set_ctx true (self w); user := user w |},
                 [EvCtxDone InReceive])
              else (Normal None, w, [])).
    { intros cancel w. rewrite stream_body_eq, Hhb. reflexivity. }
    split; [exact Hbody | ]. split.
    + intros cancel w. cbv zeta. rewrite Hbody.
      destruct (ctx (self w) || cancel); cbn; intuition discriminate.
    + intros pre post final w Hctx. apply stream_loop_skip; assumption.
  - intros l final w. cbv zeta.
    destruct (stream_loop_ids
                (fun id =>
                   In id (pendingAcks (self w)) \/
                   exists cancel event,
                     In (Receive cancel event) l /\ is_heartbeat event = false /\
                     Id event = id)
                l final w) as [Hp Ha].
    + apply List.Forall_forall. intros id Hin. left. exact Hin.
    + intros cancel event Hin Hhb _. right. exists cancel, event. auto.
    + apply Forall_app. split; [exact Hp | ].
      apply List.Forall_concat. exact Ha.
Qed.

(** C6. For an event that is no heartbeat and has the empty [Id], the
    iteration of the receive loop is, after the cancellation check that
    precedes every event, the call of the handler of its payload and
    nothing else: the handler is applied to the user state, which becomes
    the one it leaves; if it panics, [OnError] is called with the internal
    error on the state the handler left; an event without handler changes
    nothing. Whatever [AckMode] is, the pending list, the timer and the
    handlers are as before, the lock is not taken and no request goes
    out. Across a session the empty string never gets into the pending
    list or into a request. *)
Theorem empty_id_not_acked :
  (forall (event : Event) (cancel : bool) (w : world),
     is_heartbeat event = false -> Id event = "" ->
     stream_body cancel event w =
     if ctx (self w) || cancel then
       (Normal (Some (Some ctx_Err)),
        {| self := set_ctx true (self w); user := user w |}, [EvCtxDone InReceive])
     else
       match selected (handlers (self w)) (Payload event) with
       | None => (Normal None, w, [])
       | Some f =>
           match f (user w) with
           | (Returns, u) =>
               (Normal None, {| self := self w; user := u |},
                [EvCallback (Payload event)])
           | (Panics r, u) =>
               match OnError (handlers (self w)) with
               | None =>
                   (Normal None, {| self := self w; user := u |},
                    [EvCallback (Payload event); panic_line r])
               | Some g =>
                   match g panic_error u with
                   | (Returns, u') =>
                       (Normal None, {| self := self w; user := u' |},
                        [EvCallback (Payload event); EvOnError panic_error;
                         panic_line r])
                   | (Panics r', u') =>
                       (Panicking r', {| self := self w; user := u' |},
                        [EvCallback (Payload event); EvOnError panic_error])
                   end
               end
           end
       end) /\
  (forall (event : Event) (cancel : bool) (w : world),
     is_heartbeat event = false -> Id event = "" ->
     let x := stream_body cancel event w in
     acked x.2 = [] /\ ~ In EvLock x.2 /\
     pendingAcks (self x.1.2) = pendingAcks (self w) /\
     ackTimer (self x.1.2) = ackTimer (self w) /\
     handlers (self x.1.2) = handlers (self w)) /\
  (forall (l : list arrival) (final : option error) (w : world),
     ~ In "" (pendingAcks (self w)) ->
     let x := stream_loop l final w in
     ~ In "" (pendingAcks (self x.1.2)) /\
     Forall (fun ids => ~ In "" ids) (acked x.2)).
Proof.
  assert (Hauto : forall (event : Event) (w : world),
            Id event = "" -> auto_ack (self w) event = false).
  { intros event w Hid. unfold auto_ack. rewrite Hid. cbn. apply andb_false_r. }
  split; [ | split].
  - intros event cancel w Hhb Hid.
    rewrite stream_body_eq, Hhb, (Hauto event w Hid), dispatchEvent_eq.
    destruct (ctx (self w) || cancel); [reflexivity | ].
    destruct (selected (handlers (self w)) (Payload event)) as [f | ]; [ | reflexivity].
    destruct (f (user w)) as [[ | r] u]; [reflexivity | ].
    destruct (OnError (handlers (self w))) as [g | ]; [ | reflexivity].
    destruct (g panic_error u) as [[ | r'] u']; reflexivity.
  - intros event cancel w Hhb Hid. cbv zeta.
    rewrite stream_body_eq, Hhb, (Hauto event w Hid).
    destruct (ctx (self w) || cancel).
    { cbn. repeat split; try reflexivity. intros [Hin | []]. discriminate Hin. }
    pose proof (dispatchEvent_trace event w) as (_ & Hack & _).
    pose proof (dispatchEvent_self event w) as Hself.
    pose proof (dispatchEvent_no_lock event w) as Hlock.
    destruct (dispatchEvent event w) as [[[[] | v] w1] t1]; cbn in *;
      rewrite Hself; auto 10.
  - intros l final w Hp. cbv zeta.
    destruct (stream_loop_ids (fun id => id <> "") l final w) as [H1 H2].
    + apply List.Forall_forall. intros id Hin ->. exact (Hp Hin).
    + intros cancel event _ _ Hq Hid. rewrite (Hauto event w Hid) in Hq.
      discriminate Hq.
    + split.
      * intros Hin. rewrite List.Forall_forall in H1. exact (H1 "" Hin eq_refl).
      * eapply List.Forall_impl; [ | exact H2]. intros ids Hids Hin.
        rewrite List.Forall_forall in Hids. exact (Hids "" Hin eq_refl).
Qed.


(** ** Panics of callbacks *)

Lemma dispatchEvent_calm (event : Event) (w : world) :
  (forall u : U, OnError_returns (handlers (self w)) panic_error u) ->
  exists (w1 : world) (t1 : list effect), dispatchEvent event w = (Normal tt, w1, t1).
Proof.
  intros Hcalm. rewrite dispatchEvent_eq.
  destruct (selected (handlers (self w)) (Payload event)) as [f | ]; [ | eauto].
  destruct (f (user w)) as [[ | r] u]; [eauto | ].
  specialize (Hcalm u). unfold OnError_returns in Hcalm.
  destruct (OnError (handlers (self w))) as [g | ]; [ | eauto].
  destruct (g panic_error u) as [[ | r'] u']; [eauto | discriminate Hcalm].
Qed.

(** With an [OnError] that does not panic, a session never panics and the
    callbacks it makes are those read off the arrivals. *)
Lemma stream_loop_calm (l : list arrival) (final : option error) :
  forall w : world,
    (forall u : U, OnError_returns (handlers (self w)) panic_error u) ->
    (exists err, (stream_loop l final w).1.1 = Normal err) /\
    callbacks (stream_loop l final w).2 =
      expected_callbacks (handlers (self w)) (ctx (self w)) l.
Proof.
  induction l as [ | [cancel e | ] l IH]; intros w Hcalm.
  - cbn. eauto.
  - rewrite stream_loop_receive, stream_body_eq. cbn [expected_callbacks].
    destruct (ctx (self w) || cancel) eqn:Hdone; [cbn; eauto | ].
    apply orb_false_elim in Hdone. destruct Hdone as [Hctx Hcancel].
    destruct (is_heartbeat e).
    { rewrite prefixed_nil. rewrite <- Hctx. apply IH. exact Hcalm. }
    destruct (dispatchEvent_calm e w Hcalm) as (w1 & t1 & Hd).
    pose proof (dispatchEvent_trace e w) as (_ & _ & Hcb).
    pose proof (dispatchEvent_self e w) as Hself.
    rewrite Hd in Hcb, Hself |- *. cbn in Hcb, Hself.
    destruct (auto_ack (self w) e); rewrite prefixed_trace, prefixed_fst.
    + destruct (IH {| self := queued (Id e) (self w); user := user w1 |}) as [IH1 IH2].
      { cbn. rewrite handlers_queued. exact Hcalm. }
      cbn in IH2. rewrite handlers_queued, ctx_queued, Hctx in IH2.
      split; [exact IH1 | ].
      rewrite !callbacks_app. cbn [callbacks].
      rewrite callbacks_app, callbacks_queue_trace, Hcb, IH2. cbn [callbacks app].
      rewrite app_nil_r. reflexivity.
    + destruct (IH w1) as [IH1 IH2].
      { rewrite Hself. exact Hcalm. }
      rewrite Hself, Hctx in IH2.
      split; [exact IH1 | ]. rewrite callbacks_app, Hcb, IH2. reflexivity.
  - rewrite stream_loop_timer, prefixed_trace, prefixed_fst. cbn [expected_callbacks].
    destruct (IH {| self := flushed (self w); user := user w |}) as [IH1 IH2].
    { cbn. rewrite handlers_flushed. exact Hcalm. }
    cbn in IH2. rewrite handlers_flushed, ctx_flushed in IH2.
    split; [exact IH1 | ].
    cbn [app callbacks]. rewrite !callbacks_app, callbacks_flush_trace.
    cbn [app callbacks]. exact IH2.
Qed.

(** C1, as the code has it. When the callback selected for an event
    panics and [OnError] is nil or returns normally, [dispatchEvent]
    returns normally with the streamer's state untouched, [OnError], if
    set, has been called once, with the internal-error code, and the
    receive loop goes on to the acknowledgment and to the remaining
    arrivals. With such an [OnError] no session ever panics, and the
    callbacks a session makes do not depend on how callbacks end. The
    error handed to [OnError] has code [ErrCodeInternal]. *)
Theorem dispatchEvent_recovers :
  (forall (event : Event) (w : world) (f : U -> returns * U) (r : string) (u1 : U),
     selected (handlers (self w)) (Payload event) = Some f ->
     f (user w) = (Panics r, u1) ->
     OnError_returns (handlers (self w)) panic_error u1 ->
     exists (u2 : U) (t1 : list effect),
       dispatchEvent event w = (Normal tt, {| self := self w; user := u2 |}, t1) /\
       t1 = EvCallback (Payload event) ::
            match OnError (handlers (self w)) with
            | Some _ => [EvOnError panic_error]
            | None => []
            end ++ [panic_line r] /\
       reported t1 =
         match OnError (handlers (self w)) with
         | Some _ => [panic_error]
         | None => []
         end /\
       (is_heartbeat event = false -> ctx (self w) = false ->
        forall (rest : list arrival) (final : option error),
          stream_loop (Receive false event :: rest) final w =
          prefixed
            (t1 ++ if auto_ack (self w) event
                   then EvLock :: queue_trace (Id event) (self w) ++ [EvUnlock]
                   else [])
            (stream_loop rest final
               {| self := if auto_ack (self w) event
                          then queued (Id event) (self w) else self w;
                  user := u2 |}))) /\
  (forall (l : list arrival) (final : option error) (w : world),
     (forall u : U, OnError_returns (handlers (self w)) panic_error u) ->
     (exists err, (stream_loop l final w).1.1 = Normal err) /\
     callbacks (stream_loop l final w).2 =
       expected_callbacks (handlers (self w)) (ctx (self w)) l) /\
  (exists e : Error,
     panic_error = err_api e /\ Is e ErrCodeInternal = true /\
     IsCategory e CategoryInternal = true).
Proof.
  split; [ | split; [intros l final w; apply stream_loop_calm | ]].
  2: { eexists. split; [reflexivity | split; reflexivity]. }
  intros event w f r u1 Hsel Hf Hcalm.
  assert (Hd : exists u2,
             dispatchEvent event w =
             (Normal tt, {| self := self w; user := u2 |},
              EvCallback (Payload event) ::
                match OnError (handlers (self w)) with
                | Some _ => [EvOnError panic_error]
                | None => []
                end ++ [panic_line r])).
  { rewrite dispatchEvent_eq, Hsel, Hf. unfold OnError_returns in Hcalm.
    destruct (OnError (handlers (self w))) as [g | ]; [ | eauto].
    destruct (g panic_error u1) as [[ | r'] u2]; [eauto | discriminate Hcalm]. }
  destruct Hd as [u2 Hd]. exists u2. eexists. split; [exact Hd | ].
  split; [reflexivity | ]. split.
  { unfold panic_line. destruct (OnError (handlers (self w))); reflexivity. }
  intros Hhb Hctx rest final.
  rewrite stream_loop_receive, stream_body_eq, Hctx, Hhb, Hd. cbn [orb].
  destruct (auto_ack (self w) event); [reflexivity | ].
  rewrite app_nil_r. reflexivity.
Qed.


(** ** Backoff *)

Lemma backoff_cap (n : nat) : (6 <= n)%nat -> backoff n = maxDelay.
Proof.
  intros Hn. unfold backoff. apply Z.min_r.
  assert (Hpow : 2 ^ 5 <= 2 ^ (Z.of_nat n - 1)) by (apply Z.pow_le_mono_r; lia).
  unfold initialDelay, maxDelay, backoffMultipler, Second.
  change (2 ^ 5) with 32 in Hpow. lia.
Qed.

Lemma nextDelay_backoff (n : nat) : (1 <= n)%nat -> nextDelay (backoff n) = backoff (S n).
Proof.
  intros Hn. destruct (le_lt_dec 6 n) as [Hbig | Hsmall].
  - rewrite !backoff_cap by lia. vm_compute. reflexivity.
  - do 6 (destruct n as [ | n]; [first [lia | vm_compute; reflexivity] | ]). lia.
Qed.

Lemma plan_from_S (first n : nat) :
  plan_from first (S n) = None :: Some (backoff first) :: plan_from (S first) n.
Proof. reflexivity. Qed.

Lemma schedule_flush_trace (s : eventStreamer) : schedule (flush_trace s) = [].
Proof. apply in_session_schedule, in_session_flush_trace. Qed.

Lemma report_schedule (err : error) (w : world) : schedule (report err w).2 = [].
Proof.
  rewrite report_eq. destruct (OnError (handlers (self w))) as [g | ]; [ | reflexivity].
  destruct (g err (user w)) as [[ | r] u]; reflexivity.
Qed.

Lemma run_loop_schedule (script : list round) :
  forall (n : nat) (w : world), (1 <= n)%nat ->
    exists k : nat,
      schedule (run_loop script (backoff n) w).2 = take k (plan_from n (length script)) /\
      ((run_loop script (backoff n) w).1.1 = Normal Looping ->
       k = (2 * length script)%nat).
Proof.
  induction script as [ | r rest IH]; intros n w Hn.
  { exists 0%nat. cbn. auto. }
  rewrite run_loop_cons. cbn [length]. rewrite plan_from_S.
  destruct (ctx (self w) || cancel_top r).
  { exists 0%nat. cbn [snd fst schedule]. rewrite schedule_app, schedule_flush_trace.
    split; [reflexivity | discriminate]. }
  pose proof (stream_schedule (ses r) w) as Hs.
  destruct (stream (ses r) w) as [[[err | v] w1] t1]; cbn [snd] in Hs.
  2: { exists 1%nat. cbn [snd fst]. rewrite Hs. split; [reflexivity | discriminate]. }
  rewrite prefixed_trace, prefixed_fst, schedule_app, Hs.
  destruct (ctx (self w1) || cancel_post r).
  { exists 1%nat. cbn [snd fst schedule]. rewrite schedule_app, schedule_flush_trace.
    split; [reflexivity | discriminate]. }
  assert (Hrep : schedule
                   (match err with
                    | Some e => report e w1
                    | None => (Normal tt, w1, [])
                    end).2 = []).
  { destruct err; [apply report_schedule | reflexivity]. }
  destruct (match err with Some e => report e w1 | None => (Normal tt, w1, []) end)
    as [[[[] | v] w2] t2]; cbn [snd] in Hrep.
  2: { exists 1%nat. cbn [snd fst]. rewrite Hrep. split; [reflexivity | discriminate]. }
  cbv zeta. rewrite prefixed_trace, prefixed_fst, !schedule_app, Hrep.
  cbn [schedule app]. rewrite schedule_app, schedule_flush_trace. cbn [schedule app].
  destruct (ctx (flushed (self w2)) || cancel_sleep r).
  { exists 2%nat. split; [reflexivity | discriminate]. }
  rewrite nextDelay_backoff by exact Hn.
  destruct (IH (S n) {| self := flushed (self w2); user := user w2 |}) as (k & Hk & Hloop);
    [lia | ].
  exists (S (S k)). rewrite Hk. split; [reflexivity | ].
  intros Hl. rewrite (Hloop Hl). lia.
Qed.

(** ** Scripts without cancellation *)

Lemma stream_loop_quiet (l : list arrival) (final : option error) :
  forall w : world,
    handlers (self (stream_loop l final w).1.2) = handlers (self w) /\
    (forallb quiet_arrival l = true -> ctx (self w) = false ->
     ctx (self (stream_loop l final w).1.2) = false).
Proof.
  induction l as [ | [cancel e | ] l IH]; intros w.
  - cbn. auto.
  - rewrite stream_loop_receive. cbn [forallb quiet_arrival].
    destruct (stream_body cancel e w) as [[[[err | ] | v] w1] t1] eqn:Hbody.
    + rewrite stream_body_eq in Hbody.
      destruct (ctx (self w) || cancel) eqn:Hdone.
      * injection Hbody as _ <- _. cbn. split; [reflexivity | ].
        rewrite andb_true_iff, negb_true_iff. intros [Hc _] Hctx.
        rewrite Hc, Hctx in Hdone. discriminate Hdone.
      * destruct (is_heartbeat e); [discriminate Hbody | ].
        destruct (dispatchEvent e w) as [[[[] | v] w0] t0]; [ | discriminate Hbody].
        destruct (auto_ack (self w) e); discriminate Hbody.
    + apply stream_body_continue in Hbody. destruct Hbody as (_ & _ & Hctx1 & Hh1).
      rewrite prefixed_fst. destruct (IH w1) as [IHh IHc]. split; [congruence | ].
      rewrite andb_true_iff. intros [_ Hq] _. apply IHc; assumption.
    + rewrite stream_body_eq in Hbody.
      destruct (ctx (self w) || cancel); [discriminate Hbody | ].
      destruct (is_heartbeat e); [discriminate Hbody | ].
      pose proof (dispatchEvent_self e w) as Hself.
      destruct (dispatchEvent e w) as [[[[] | v0] w0] t0]; cbn in Hself.
      * destruct (auto_ack (self w) e); discriminate Hbody.
      * injection Hbody as _ <- _. cbn. rewrite Hself. auto.
  - rewrite stream_loop_timer, prefixed_fst. cbn [forallb quiet_arrival].
    destruct (IH {| self := flushed (self w); user := user w |}) as [IHh IHc].
    cbn in IHh, IHc. rewrite handlers_flushed in IHh. rewrite ctx_flushed in IHc.
    auto.
Qed.

Lemma run_loop_quiet (script : list round) :
  forall (d : Duration) (w : world),
    forallb quiet_round script = true -> ctx (self w) = false ->
    OnError (handlers (self w)) = None ->
    (run_loop script d w).1.1 = Normal Looping.
Proof.
  induction script as [ | r rest IH]; intros d w Hq Hctx Hnil; [reflexivity | ].
  cbn [forallb] in Hq. unfold quiet_round in Hq.
  rewrite !andb_true_iff, !negb_true_iff in Hq.
  destruct Hq as [[[[Htop Harr] Hpost] Hsleep] Hrest].
  rewrite run_loop_cons, Hctx, Htop. cbn [orb].
  rewrite stream_eq.
  assert (Hrep : forall (err : option error) (w1 : world),
            OnError (handlers (self w1)) = None ->
            match err with
            | Some e => report e w1
            | None => (Normal tt, w1, [])
            end = (Normal tt, w1, [])).
  { intros [e | ] w1 Hn; [ | reflexivity]. rewrite report_eq, Hn. reflexivity. }
  assert (Hgo : forall (err : option error) (w1 : world) (t1 : list effect),
            handlers (self w1) = handlers (self w) -> ctx (self w1) = false ->
            (prefixed t1
               (if ctx (self w1) || cancel_post r then
                  (Normal Returned,
                   {| self := flushed (set_ctx true (self w1)); user := user w1 |},
                   EvCtxDone PostSession :: EvLock ::
                     flush_trace (set_ctx true (self w1)) ++ [EvUnlock])
                else
                  match (match err with
                         | Some e => report e w1
                         | None => (Normal tt, w1, [])
                         end) with
                  | (Panicking v, w2, t2) => (Panicking v, w2, t2)
                  | (Normal _, w2, t2) =>
                      let s3 := flushed (self w2) in
                      prefixed
                        (t2 ++ EvLock :: flush_trace (self w2) ++
                           [EvUnlock; EvTimeAfter d])
                        (if ctx s3 || cancel_sleep r then
                           (Normal Returned,
                            {| self := set_ctx true s3; user := user w2 |},
                            [EvCtxDone BackoffSleep])
                         else run_loop rest (nextDelay d)
                                {| self := s3; user := user w2 |})
                  end)).1.1 = Normal Looping).
  { intros err w1 t1 Hh1 Hctx1. rewrite prefixed_fst, Hctx1, Hpost. cbn [orb].
    rewrite Hrep by congruence. cbv zeta.
    rewrite prefixed_fst, ctx_flushed, Hctx1, Hsleep. cbn [orb].
    apply IH; [exact Hrest | cbn; rewrite ctx_flushed; exact Hctx1 | ].
    cbn. rewrite handlers_flushed. congruence. }
  destruct (open_err (ses r)) as [e | ]; [apply (Hgo (Some e)); auto | ].
  destruct (stream_loop_quiet (arrivals (ses r)) (stream_Err (ses r)) w) as [Hh Hc].
  destruct (stream_loop_calm (arrivals (ses r)) (stream_Err (ses r)) w) as [[err He] _].
  { intros u. unfold OnError_returns. rewrite Hnil. exact I. }
  destruct (stream_loop (arrivals (ses r)) (stream_Err (ses r)) w) as [[r1 w1] t1].
  cbn in He, Hh, Hc. subst r1. apply (Hgo err); auto.
Qed.



(** ** Cancellation *)

Lemma ends_cancelled_app (t tr : list effect) :
  ends_cancelled tr -> ends_cancelled (t ++ tr).
Proof.
  intros [(pre & cp & s & Hcp & ->) | (pre & s & d & ->)].
  - left. exists (t ++ pre), cp, s. split; [exact Hcp | ]. apply app_assoc.
  - right. exists (t ++ pre), s, d. apply app_assoc.
Qed.

Lemma run_loop_returned (script : list round) :
  forall (d : Duration) (w w' : world) (tr : list effect),
    run_loop script d w = (Normal Returned, w', tr) ->
    ctx (self w') = true /\ pendingAcks (self w') = [] /\ ends_cancelled tr.
Proof.
  induction script as [ | r rest IH]; intros d w w' tr Hrun; [discriminate Hrun | ].
  rewrite run_loop_cons in Hrun.
  destruct (ctx (self w) || cancel_top r).
  { injection Hrun as <- <-. cbn. rewrite ctx_flushed, pendingAcks_flushed.
    repeat split. left. exists [], LoopTop, (set_ctx true (self w)). auto. }
  destruct (stream (ses r) w) as [[[err | v] w1] t1]; [ | discriminate Hrun].
  destruct (ctx (self w1) || cancel_post r).
  { injection Hrun as <- <-. cbn. rewrite ctx_flushed, pendingAcks_flushed.
    repeat split. left. exists t1, PostSession, (set_ctx true (self w1)). auto. }
  destruct (match err with Some e => report e w1 | None => (Normal tt, w1, []) end)
    as [[[[] | v] w2] t2]; [ | discriminate Hrun].
  cbv zeta in Hrun. rewrite prefixed_prefixed in Hrun.
  destruct (ctx (flushed (self w2)) || cancel_sleep r).
  { injection Hrun as <- <-. cbn. rewrite pendingAcks_flushed.
    repeat split. right. exists (t1 ++ t2), (self w2), d.
    rewrite <- !app_assoc. cbn [app]. rewrite <- !app_assoc. reflexivity. }
  destruct (run_loop rest (nextDelay d) {| self := flushed (self w2); user := user w2 |})
    as [[r4 w4] t4] eqn:Hrest.
  injection Hrun as -> <- <-.
  destruct (IH _ _ _ _ Hrest) as (Hc & Hp & He).
  repeat split; [exact Hc | exact Hp | ]. apply ends_cancelled_app. exact He.
Qed.

Lemma run_loop_stops (pre : list round) (r : round) (rest : list round) :
  cancels r = true ->
  forall (d : Duration) (w : world),
    run_loop (pre ++ r :: rest) d w = run_loop (pre ++ [r]) d w /\
    (run_loop (pre ++ r :: rest) d w).1.1 <> Normal Looping.
Proof.
  intros Hr. induction pre as [ | p pre IH]; intros d w; cbn [app].
  - rewrite !run_loop_cons.
    destruct (ctx (self w) || cancel_top r) eqn:Htop; [split; [reflexivity | discriminate] | ].
    destruct (stream (ses r) w) as [[[err | v] w1] t1];
      [ | split; [reflexivity | discriminate]].
    rewrite !prefixed_fst.
    destruct (ctx (self w1) || cancel_post r) eqn:Hpost;
      [split; [reflexivity | discriminate] | ].
    destruct (match err with Some e => report e w1 | None => (Normal tt, w1, []) end)
      as [[[[] | v] w2] t2]; [ | split; [reflexivity | discriminate]].
    cbv zeta. rewrite !prefixed_fst.
    destruct (ctx (flushed (self w2)) || cancel_sleep r) eqn:Hsleep;
      [split; [reflexivity | discriminate] | ].
    apply orb_false_elim in Htop, Hpost, Hsleep.
    unfold cancels in Hr.
    destruct Htop as [_ H1], Hpost as [_ H2], Hsleep as [_ H3].
    rewrite H1, H2, H3 in Hr. discriminate Hr.
  - rewrite !run_loop_cons.
    destruct (ctx (self w) || cancel_top p); [split; [reflexivity | discriminate] | ].
    destruct (stream (ses p) w) as [[[err | v] w1] t1];
      [ | split; [reflexivity | discriminate]].
    rewrite !prefixed_fst.
    destruct (ctx (self w1) || cancel_post p); [split; [reflexivity | discriminate] | ].
    destruct (match err with Some e => report e w1 | None => (Normal tt, w1, []) end)
      as [[[[] | v] w2] t2]; [ | split; [reflexivity | discriminate]].
    cbv zeta. rewrite !prefixed_fst.
    destruct (ctx (flushed (self w2)) || cancel_sleep p);
      [split; [reflexivity | discriminate] | ].
    destruct (IH (nextDelay d) {| self := flushed (self w2); user := user w2 |})
      as [IH1 IH2].
    rewrite IH1. split; [reflexivity | ]. rewrite <- IH1. exact IH2.
Qed.

(** C4, as the code has it. Cancellation seen at the top of the loop or
    after the session: the loop flushes, so that what is pending goes out
    in one request, and returns. Cancellation seen during the backoff
    wait: the loop returns at once, without a flush; the flush before the
    wait has left nothing pending. Whenever [run] returns, the scope is
    cancelled, nothing is pending and the trace ends in one of these two
    ways. A round in which the scope is cancelled at one of the three
    places is the last one: the rounds after it are never looked at. *)
Theorem run_cancelled :
  (forall (r : round) (rest : list round) (d : Duration) (w : world),
     ctx (self w) || cancel_top r = true ->
     run_loop (r :: rest) d w =
     (Normal Returned, {| self := flushed (set_ctx true (self w)); user := user w |},
      EvCtxDone LoopTop :: EvLock :: flush_trace (set_ctx true (self w)) ++ [EvUnlock])) /\
  (forall (r : round) (rest : list round) (d : Duration) (w w1 : world)
          (err : option error) (t1 : list effect),
     ctx (self w) || cancel_top r = false ->
     stream (ses r) w = (Normal err, w1, t1) ->
     ctx (self w1) || cancel_post r = true ->
     run_loop (r :: rest) d w =
     (Normal Returned, {| self := flushed (set_ctx true (self w1)); user := user w1 |},
      t1 ++ EvCtxDone PostSession :: EvLock ::
        flush_trace (set_ctx true (self w1)) ++ [EvUnlock])) /\
  (forall (r : round) (rest : list round) (d : Duration) (w w1 w2 : world)
          (err : option error) (t1 t2 : list effect),
     ctx (self w) || cancel_top r = false ->
     stream (ses r) w = (Normal err, w1, t1) ->
     ctx (self w1) || cancel_post r = false ->
     match err with Some e => report e w1 | None => (Normal tt, w1, []) end =
       (Normal tt, w2, t2) ->
     ctx (self w2) || cancel_sleep r = true ->
     run_loop (r :: rest) d w =
     (Normal Returned, {| self := set_ctx true (flushed (self w2)); user := user w2 |},
      t1 ++ t2 ++ EvLock :: flush_trace (self w2) ++
        [EvUnlock; EvTimeAfter d; EvCtxDone BackoffSleep]) /\
     pendingAcks (flushed (self w2)) = []) /\
  (forall (script : list round) (w w' : world) (tr : list effect),
     run script w = (Normal Returned, w', tr) ->
     ctx (self w') = true /\ pendingAcks (self w') = [] /\ ends_cancelled tr) /\
  (forall (pre : list round) (r : round) (rest : list round) (w : world),
     cancels r = true ->
     run (pre ++ r :: rest) w = run (pre ++ [r]) w /\
     (run (pre ++ r :: rest) w).1.1 <> Normal Looping).
Proof.
  split; [ | split; [ | split; [ | split]]].
  - intros r rest d w Htop. rewrite run_loop_cons, Htop. reflexivity.
  - intros r rest d w w1 err t1 Htop Hs Hpost.
    rewrite run_loop_cons, Htop, Hs, Hpost. reflexivity.
  - intros r rest d w w1 w2 err t1 t2 Htop Hs Hpost Hrep Hsleep.
    rewrite run_loop_cons, Htop, Hs, Hpost, Hrep. cbv zeta.
    rewrite ctx_flushed, Hsleep, pendingAcks_flushed. split; [ | reflexivity].
    cbn [prefixed]. rewrite <- !app_assoc. cbn [app]. rewrite <- !app_assoc.
    reflexivity.
  - intros script w w' tr. apply run_loop_returned.
  - intros pre r rest w Hr. apply run_loop_stops. exact Hr.
Qed.


(** ** [AckMode] *)

Lemma retag_prefixed {A} (m : string) (t : list effect)
    (x : result A * world * list effect) :
  retag_outcome m (prefixed t x) = prefixed t (retag_outcome m x).
Proof. destruct x as [[r w] t']. reflexivity. Qed.

Lemma selected_with_AckMode (m : string) (h : EventHandlers) (p : isEvent_Payload) :
  selected (with_AckMode m h) p = selected h p.
Proof. destruct p; reflexivity. Qed.

Lemma flushed_retag (m : string) (s : eventStreamer) :
  flushed (retag m s) = retag m (flushed s).
Proof. unfold flushed. cbn. destruct (pendingAcks s); reflexivity. Qed.

Lemma set_ctx_retag (m : string) (b : bool) (s : eventStreamer) :
  set_ctx b (retag m s) = retag m (set_ctx b s).
Proof. reflexivity. Qed.

Lemma flush_trace_retag (m : string) (s : eventStreamer) :
  flush_trace (retag m s) = flush_trace s.
Proof. reflexivity. Qed.

Lemma queue_trace_retag (m id : string) (s : eventStreamer) :
  queue_trace id (retag m s) = queue_trace id s.
Proof. reflexivity. Qed.

Lemma queued_retag (m id : string) (s : eventStreamer) :
  queued id (retag m s) = retag m (queued id s).
Proof. unfold queued. cbn [retag pendingAcks]. destruct (ackBatchSize <=? _)%nat; reflexivity. Qed.

Lemma dispatchEvent_retag (m : string) (event : Event) (w : world) :
  dispatchEvent event (retag_world m w) = retag_outcome m (dispatchEvent event w).
Proof.
  rewrite !dispatchEvent_eq. cbn [retag_world retag self user handlers].
  rewrite selected_with_AckMode. cbn [with_AckMode OnError].
  destruct (selected (handlers (self w)) (Payload event)) as [f | ]; [ | reflexivity].
  destruct (f (user w)) as [[ | r] u]; [reflexivity | ].
  destruct (OnError (handlers (self w))) as [g | ]; [ | reflexivity].
  destruct (g panic_error u) as [[ | r'] u']; reflexivity.
Qed.

Lemma report_retag (m : string) (err : error) (w : world) :
  report err (retag_world m w) = retag_outcome m (report err w).
Proof.
  rewrite !report_eq. cbn [retag_world retag self user handlers with_AckMode OnError].
  destruct (OnError (handlers (self w))) as [g | ]; [ | reflexivity].
  destruct (g err (user w)) as [[ | r] u]; reflexivity.
Qed.

Lemma stream_body_retag (m : string) (cancel : bool) (event : Event) (w : world) :
  same_auto m w ->
  stream_body cancel event (retag_world m w) =
  retag_outcome m (stream_body cancel event w).
Proof.
  intros Hm. rewrite !stream_body_eq.
  cbn [retag_world retag self user ctx].
  destruct (ctx (self w) || cancel); [reflexivity | ].
  destruct (is_heartbeat event); [reflexivity | ].
  change {| self := retag m (self w); user := user w |} with (retag_world m w).
  rewrite dispatchEvent_retag.
  destruct (dispatchEvent event w) as [[[[] | v] w1] t1]; [ | reflexivity].
  cbn [retag_outcome].
  assert (Hauto : auto_ack (retag m (self w)) event = auto_ack (self w) event).
  { unfold auto_ack. cbn [retag handlers with_AckMode AckMode]. rewrite Hm. reflexivity. }
  rewrite Hauto. destruct (auto_ack (self w) event); [ | reflexivity].
  rewrite queued_retag. reflexivity.
Qed.

Lemma stream_loop_retag (m : string) (l : list arrival) (final : option error) :
  forall w : world,
    same_auto m w ->
    stream_loop l final (retag_world m w) = retag_outcome m (stream_loop l final w).
Proof.
  induction l as [ | [cancel e | ] l IH]; intros w Hm.
  - reflexivity.
  - rewrite !stream_loop_receive, stream_body_retag by exact Hm.
    destruct (stream_body cancel e w) as [[[[err | ] | v] w1] t1] eqn:Hbody;
      try reflexivity.
    cbn [retag_outcome]. rewrite retag_prefixed. f_equal. apply IH.
    apply stream_body_continue in Hbody. destruct Hbody as (_ & _ & _ & Hh).
    unfold same_auto in *. rewrite Hh. exact Hm.
  - rewrite !stream_loop_timer, retag_prefixed. cbn [retag_world self user].
    rewrite flushed_retag. f_equal.
    apply (IH {| self := flushed (self w); user := user w |}).
    unfold same_auto in *. cbn. rewrite handlers_flushed. exact Hm.
Qed.

Lemma stream_retag (m : string) (ses : session) (w : world) :
  same_auto m w ->
  stream ses (retag_world m w) = retag_outcome m (stream ses w).
Proof.
  intros Hm. rewrite !stream_eq. cbn [retag_world retag self handlers with_AckMode BatchSize].
  destruct (open_err ses); [reflexivity | ].
  change {| self := retag m (self w); user := user w |} with (retag_world m w).
  rewrite stream_loop_retag by exact Hm.
  destruct (stream_loop (arrivals ses) (stream_Err ses) w) as [[r w1] t1]. reflexivity.
Qed.

Lemma stream_handlers (ses : session) (w : world) :
  handlers (self (stream ses w).1.2) = handlers (self w).
Proof.
  rewrite stream_eq. destruct (open_err ses); [reflexivity | ].
  destruct (stream_loop_quiet (arrivals ses) (stream_Err ses) w) as [Hh _].
  destruct (stream_loop (arrivals ses) (stream_Err ses) w) as [[r w1] t1]. exact Hh.
Qed.

Lemma report_self (err : error) (w : world) : self (report err w).1.2 = self w.
Proof.
  rewrite report_eq. destruct (OnError (handlers (self w))) as [g | ]; [ | reflexivity].
  destruct (g err (user w)) as [[ | r] u]; reflexivity.
Qed.

Lemma run_loop_retag (m : string) (script : list round) :
  forall (d : Duration) (w : world),
    same_auto m w ->
    run_loop script d (retag_world m w) = retag_outcome m (run_loop script d w).
Proof.
  induction script as [ | r rest IH]; intros d w Hm; [reflexivity | ].
  rewrite !run_loop_cons. cbn [retag_world self user]. cbn [retag ctx].
  change {| self := retag m (self w); user := user w |} with (retag_world m w).
  destruct (ctx (self w) || cancel_top r).
  { cbn [retag_outcome retag_world self user].
    rewrite set_ctx_retag, flushed_retag, flush_trace_retag. reflexivity. }
  rewrite stream_retag by exact Hm.
  pose proof (stream_handlers (ses r) w) as Hh1.
  destruct (stream (ses r) w) as [[[err | v] w1] t1]; [ | reflexivity].
  cbn in Hh1. cbn [retag_outcome]. rewrite retag_prefixed. f_equal.
  cbn [retag_world self user]. cbn [retag ctx].
  destruct (ctx (self w1) || cancel_post r).
  { cbn [retag_outcome retag_world self user].
    rewrite set_ctx_retag, flushed_retag, flush_trace_retag. reflexivity. }
  change {| self := retag m (self w1); user := user w1 |} with (retag_world m w1).
  assert (Hrep : match err with
                 | Some e => report e (retag_world m w1)
                 | None => (Normal tt, retag_world m w1, [])
                 end =
                 retag_outcome m
                   match err with
                   | Some e => report e w1
                   | None => (Normal tt, w1, [])
                   end)
    by (destruct err; [apply report_retag | reflexivity]).
  rewrite Hrep. clear Hrep.
  assert (Hh2 : handlers (self (match err with
                                | Some e => report e w1
                                | None => (Normal tt, w1, [])
                                end).1.2) = handlers (self w1))
    by (destruct err; [rewrite report_self | ]; reflexivity).
  destruct (match err with Some e => report e w1 | None => (Normal tt, w1, []) end)
    as [[[[] | v] w2] t2]; [ | reflexivity].
  cbn in Hh2. cbn [retag_outcome retag_world self user]. cbv zeta.
  rewrite retag_prefixed, flushed_retag, flush_trace_retag. f_equal.
  cbn [retag ctx].
  destruct (ctx (flushed (self w2)) || cancel_sleep r); [reflexivity | ].
  apply (IH (nextDelay d) {| self := flushed (self w2); user := user w2 |}).
  unfold same_auto in *. cbn. rewrite handlers_flushed, Hh2, Hh1. exact Hm.
Qed.

(** ** Requests are never empty *)

Lemma acked_flush_trace_nonempty (s : eventStreamer) :
  Forall (fun ids => ids <> []) (acked (flush_trace s)).
Proof.
  rewrite acked_flush_trace. destruct (pendingAcks s); constructor;
    [discriminate | constructor].
Qed.

Lemma acked_queue_trace_nonempty (id : string) (s : eventStreamer) :
  Forall (fun ids => ids <> []) (acked (queue_trace id s)).
Proof.
  rewrite acked_queue_trace. destruct (ackBatchSize <=? _)%nat; constructor;
    [ | constructor].
  destruct (pendingAcks s); discriminate.
Qed.

Lemma acked_locked (t : list effect) : acked (EvLock :: t ++ [EvUnlock]) = acked t.
Proof. cbn [acked]. rewrite acked_app. cbn [acked]. apply app_nil_r. Qed.

Lemma stream_loop_acked_nonempty (l : list arrival) (final : option error) :
  forall w : world, Forall (fun ids => ids <> []) (acked (stream_loop l final w).2).
Proof.
  induction l as [ | [cancel e | ] l IH]; intros w.
  - constructor.
  - rewrite stream_loop_receive, stream_body_eq.
    destruct (ctx (self w) || cancel); [constructor | ].
    destruct (is_heartbeat e); [rewrite prefixed_nil; apply IH | ].
    pose proof (dispatchEvent_trace e w) as (_ & Hack & _).
    destruct (dispatchEvent e w) as [[[[] | v] w1] t1]; cbn in Hack;
      [ | cbn; rewrite Hack; constructor].
    destruct (auto_ack (self w) e); rewrite prefixed_trace, !acked_app, Hack.
    + rewrite acked_locked. cbn [app].
      apply Forall_app. split; [apply acked_queue_trace_nonempty | apply IH].
    + apply IH.
  - rewrite stream_loop_timer, prefixed_trace, acked_app, acked_locked.
    apply Forall_app. split; [apply acked_flush_trace_nonempty | apply IH].
Qed.

Lemma run_loop_acked_nonempty (script : list round) :
  forall (d : Duration) (w : world),
    Forall (fun ids => ids <> []) (acked (run_loop script d w).2).
Proof.
  induction script as [ | r rest IH]; intros d w; [constructor | ].
  rewrite run_loop_cons.
  destruct (ctx (self w) || cancel_top r).
  { cbn [snd]. change (acked (EvCtxDone LoopTop :: ?t)) with (acked t).
    rewrite acked_locked. apply acked_flush_trace_nonempty. }
  assert (Hs : Forall (fun ids => ids <> []) (acked (stream (ses r) w).2)).
  { rewrite stream_eq. destruct (open_err (ses r)); [constructor | ].
    pose proof (stream_loop_acked_nonempty (arrivals (ses r)) (stream_Err (ses r)) w) as Hl.
    destruct (stream_loop (arrivals (ses r)) (stream_Err (ses r)) w) as [[r1 w1] t1].
    cbn in Hl |- *. rewrite acked_app. cbn [acked]. rewrite app_nil_r. exact Hl. }
  destruct (stream (ses r) w) as [[[err | v] w1] t1]; cbn [snd] in Hs; [ | exact Hs].
  rewrite prefixed_trace, acked_app. apply Forall_app. split; [exact Hs | ].
  destruct (ctx (self w1) || cancel_post r).
  { cbn [snd]. change (acked (EvCtxDone PostSession :: ?t)) with (acked t).
    rewrite acked_locked. apply acked_flush_trace_nonempty. }
  assert (Hrep : acked (match err with
                        | Some e => report e w1
                        | None => (Normal tt, w1, [])
                        end).2 = []).
  { destruct err as [e | ]; [ | reflexivity]. rewrite report_eq.
    destruct (OnError (handlers (self w1))) as [g | ]; [ | reflexivity].
    destruct (g e (user w1)) as [[ | v] u]; reflexivity. }
  destruct (match err with Some e => report e w1 | None => (Normal tt, w1, []) end)
    as [[[[] | v] w2] t2]; cbn [snd] in Hrep; [ | cbn; rewrite Hrep; constructor].
  cbv zeta. rewrite prefixed_trace, !acked_app, Hrep. cbn [acked app].
  rewrite acked_app. cbn [acked]. rewrite app_nil_r.
  apply Forall_app. split; [apply acked_flush_trace_nonempty | ].
  destruct (ctx (flushed (self w2)) || cancel_sleep r); [constructor | apply IH].
Qed.

(** C10. With nothing pending, [flushAcksLocked] changes nothing and does
    nothing, and [flushAcks] and the timer function only take and release
    the lock: no request, no [Stop] of the timer. Whatever the state, the
    only request a flush issues carries the whole pending list, and only
    when that list is not empty. No run of the streamer ever issues a
    request without identifiers. *)
Theorem flush_empty_noop :
  (forall w : world, pendingAcks (self w) = [] ->
     flushAcksLocked w = (Normal tt, w, []) /\
     flushAcks w = (Normal tt, w, [EvLock; EvUnlock]) /\
     ackTimer_func w = (Normal tt, w, [EvLock; EvUnlock])) /\
  (forall w : world,
     (acked (flushAcksLocked w).2 =
        match pendingAcks (self w) with [] => [] | _ :: _ => [pendingAcks (self w)] end) /\
     (acked (flushAcks w).2 =
        match pendingAcks (self w) with [] => [] | _ :: _ => [pendingAcks (self w)] end)) /\
  (forall (script : list round) (w : world),
     Forall (fun ids => ids <> []) (acked (run script w).2)).
Proof.
  split; [ | split].
  - intros [s u] Hp. cbn in Hp.
    rewrite ackTimer_func_eq, flushAcks_eq, flushAcksLocked_eq.
    unfold flushed, flush_trace. cbn. rewrite Hp. cbn. auto.
  - intros w. rewrite flushAcks_eq, flushAcksLocked_eq. cbn.
    rewrite acked_app, acked_flush_trace. cbn. rewrite app_nil_r. auto.
  - intros script w. apply run_loop_acked_nonempty.
Qed.

End EventsFacts.

(* ===================================================================== *)
(** * The properties on the samples *)
(* ===================================================================== *)

Section OnSamples.
Import Errors Effects Effects.Notations Events Spec Samples.
#[local] Existing Instance sampleGen.

Lemma not_flushes_after_last (cp : checkpoint) (t : list effect) :
  ~ In (EvCtxDone cp) t -> ~ flushes_after cp (t ++ [EvCtxDone cp]).
Proof.
  intros Hnot (pre & post & Heq & Hin).
  destruct (List.exists_last (l := EvCtxDone cp :: post)) as (l' & a & Hlast);
    [discriminate | ].
  rewrite Hlast, app_assoc in Heq.
  apply List.app_inj_tail in Heq. destruct Heq as [Ht Ha]. subst a.
  destruct l' as [ | x l'].
  - cbn in Hlast. injection Hlast as Hpost. subst post. destruct Hin.
  - cbn in Hlast. injection Hlast as Hx Hpost. apply Hnot. subst t x.
    apply in_or_app. right. left. reflexivity.
Qed.

Lemma dispatchEvent_recovers_witness :
  exists (u2 : nat) (t1 : list effect),
    dispatchEvent (sent "e1") (start faulty) =
      (Normal tt, {| self := self (start faulty); user := u2 |}, t1) /\
    reported t1 = [panic_error] /\
    stream_loop [Receive false (sent "e1"); Receive false (sent "e2")] None (start faulty) =
    prefixed (t1 ++ EvLock :: queue_trace "e1" (self (start faulty)) ++ [EvUnlock])
      (stream_loop [Receive false (sent "e2")] None
         {| self := queued "e1" (self (start faulty)); user := u2 |}).
Proof.
  destruct (proj1 (@dispatchEvent_recovers sampleGen nat)
              (sent "e1") (start faulty) (explode "nil map") "nil map" 1%nat)
    as (u2 & t1 & Hd & _ & Hr & Hloop); [reflexivity | reflexivity | reflexivity | ].
  exists u2, t1. split; [exact Hd | ]. split; [exact Hr | ].
  exact (Hloop eq_refl eq_refl [Receive false (sent "e2")] None).
Defined.

(** C1 as stated fails: when [OnError] panics in turn, the panic leaves
    [dispatchEvent]. *)
Lemma dispatchEvent_OnError_panics :
  selected (handlers (self (start hopeless))) (Payload (sent "e1")) =
    Some (explode "nil map") /\
  explode "nil map" (user (start hopeless)) = (Panics "nil map", 1%nat) /\
  (dispatchEvent (sent "e1") (start hopeless)).1.1 = Panicking "index out of range" /\
  ~ exists (w' : World) (t : list effect),
      dispatchEvent (sent "e1") (start hopeless) = (Normal tt, w', t).
Proof.
  split; [reflexivity | ]. split; [reflexivity | ]. split; [reflexivity | ].
  intros (w' & t & Heq). vm_compute in Heq. discriminate Heq.
Qed.


Lemma queueAck_batch_witness :
  exists (w' : World) (tr : list effect),
    queueAcks ten (start modest) = (Normal tt, w', tr) /\
    acked tr = [ten] /\ pendingAcks (self w') = [] /\ ackTimer (self w') = None.
Proof.
  destruct (proj2 (proj2 (@queueAck_batch sampleGen nat)) (start modest) ten)
    as (w9 & w' & tr9 & id10 & _ & _ & _ & _ & _ & Hp & Ht & tr & Hq & Ha);
    [reflexivity | reflexivity | ].
  exists w', tr. auto.
Defined.

Lemma run_cancelled_witness :
  exists (w' : World) (tr : list effect),
    run stop_post (start faulty) = (Normal Returned, w', tr) /\
    ctx (self w') = true /\ pendingAcks (self w') = [] /\
    @ends_cancelled sampleGen nat tr.
Proof.
  destruct (run stop_post (start faulty)) as [[r w'] tr] eqn:Hrun.
  assert (Hr : r = Normal Returned).
  { change r with (r, w', tr).1.1. rewrite <- Hrun. vm_compute. reflexivity. }
  subst r. exists w', tr. split; [reflexivity | ].
  exact (proj1 (proj2 (proj2 (proj2 (@run_cancelled sampleGen nat))))
           stop_post (start faulty) w' tr Hrun).
Defined.

(** C4 as stated fails: when cancellation is seen during the backoff
    wait, [run] returns without taking the lock again; the request for
    what was pending went out before the wait. *)
Lemma run_sleep_cancel_no_flush :
  (run stop_sleep (start faulty)).1.1 = Normal Returned /\
  (run stop_sleep (start faulty)).2 =
    [EvStreamEvents 10; EvCallback (Event_EmailDelivered "a@example.com");
     EvLock; EvAfterFunc 1000000000; EvUnlock; EvStreamClose;
     EvOnError (err_plain "unexpected EOF");
     EvLock; EvTimerStop; EvGoAckEvents ["e2"]; EvUnlock;
     EvTimeAfter 1000000000; EvCtxDone BackoffSleep] /\
  ~ flushes_after BackoffSleep (run stop_sleep (start faulty)).2.
Proof.
  assert (Htr : (run stop_sleep (start faulty)).2 =
                [EvStreamEvents 10; EvCallback (Event_EmailDelivered "a@example.com");
                 EvLock; EvAfterFunc 1000000000; EvUnlock; EvStreamClose;
                 EvOnError (err_plain "unexpected EOF");
                 EvLock; EvTimerStop; EvGoAckEvents ["e2"]; EvUnlock;
                 EvTimeAfter 1000000000] ++ [EvCtxDone BackoffSleep])
    by (vm_compute; reflexivity).
  split; [vm_compute; reflexivity | ]. split; [exact Htr | ].
  rewrite Htr. apply not_flushes_after_last. cbn. intuition discriminate.
Qed.

Lemma heartbeat_skipped_witness :
  stream_loop [Receive false (delivered "e1"); Receive false beat;
               Receive false (delivered "e2")] None (start faulty) =
  stream_loop [Receive false (delivered "e1"); Receive false (delivered "e2")]
    None (start faulty).
Proof.
  destruct (proj1 (@heartbeat_skipped sampleGen nat) beat eq_refl) as (_ & _ & Hskip).
  exact (Hskip [Receive false (delivered "e1")] [Receive false (delivered "e2")]
           None (start faulty) eq_refl).
Defined.

Lemma empty_id_not_acked_witness :
  stream_body false (delivered "") (start faulty) =
    (Normal None, {| self := self (start faulty); user := 1%nat |},
     [EvCallback (Event_EmailDelivered "a@example.com")]) /\
  stream_body false (sent "") (start faulty) =
    (Normal None, {| self := self (start faulty); user := 2%nat |},
     [EvCallback (Event_EmailSent "a@example.com"); EvOnError panic_error;
      panic_line "nil map"]) /\
  pendingAcks (self (stream_body false (sent "") (start faulty)).1.2) = [] /\
  ~ In "" (pendingAcks (self (stream_loop (arrivals clean) None (start faulty)).1.2)).
Proof.
  destruct (@empty_id_not_acked sampleGen nat) as (Hstep & Hkeep & Hall).
  split; [ | split; [ | split]].
  - rewrite (Hstep (delivered "") false (start faulty) eq_refl eq_refl). reflexivity.
  - rewrite (Hstep (sent "") false (start faulty) eq_refl eq_refl). reflexivity.
  - destruct (Hkeep (sent "") false (start faulty) eq_refl eq_refl) as (_ & _ & Hp & _).
    rewrite Hp. reflexivity.
  - destruct (Hall (arrivals clean) None (start faulty)) as [Hp _];
      [intros Hin; exact Hin | exact Hp].
Defined.

Lemma flush_empty_noop_witness :
  flushAcks (start faulty) = (Normal tt, start faulty, [EvLock; EvUnlock]).
Proof.
  destruct (proj1 (@flush_empty_noop sampleGen nat) (start faulty) eq_refl)
    as (_ & Hflush & _).
  exact Hflush.
Defined.

End OnSamples.

(* ===================================================================== *)
(** * Further properties of errors.go *)
(* ===================================================================== *)

Section MoreErrors.
Import Errors.

(** X2. What wrapping does: around a Connect error it changes nothing in the
    result, the text it adds is dropped; around anything else its text is
    the message. *)
Theorem ParseError_wrap (text : string) (inner : error) :
  match errors_As_connect inner with
  | Some _ => ParseError (Some (err_wrap text inner)) = ParseError (Some inner)
  | None =>
      ParseError (Some (err_wrap text inner)) =
      Some {| Code := ErrCodeUnspecified; Message := text; Field := "";
              Metadata := None; ConnectCode := CodeUnknown |}
  end.
Proof.
  unfold ParseError. cbn [errors_As_connect error_Error].
  destruct (errors_As_connect inner); reflexivity.
Qed.

(** X3. The scan of the details stops at the first detail of type
    [v1.ErrorDetail] whose value can be extracted: what comes after it is
    not looked at, also when that value lacks the getters and nothing is
    taken from it. Details of another type and details whose value cannot
    be extracted are passed over. *)
Theorem scan_details_first (pre post : list connect_ErrorDetail)
    (d : connect_ErrorDetail) (msg : proto_Message) (e : Error) :
  Forall (fun x => String.eqb (detail_Type x) "v1.ErrorDetail" = false \/
                   detail_Value x = None) pre ->
  detail_Type d = "v1.ErrorDetail" -> detail_Value d = Some msg ->
  scan_details (pre ++ d :: post) e = apply_detail msg e /\
  (msg = msg_other -> scan_details (pre ++ d :: post) e = e).
Proof.
  intros Hpre Ht Hv.
  assert (Hscan : scan_details (pre ++ d :: post) e = apply_detail msg e).
  { induction Hpre as [ | x pre Hx Hpre IH]; cbn [app scan_details].
    - rewrite Ht, Hv. reflexivity.
    - destruct Hx as [Hx | Hx]; rewrite Hx; [exact IH | ].
      destruct (String.eqb (detail_Type x) "v1.ErrorDetail"); exact IH. }
  split; [exact Hscan | ]. intros ->. exact Hscan.
Qed.

Lemma IsCategory_declared (e : Error) (category : string) :
  IsCategory e category = true -> In category declared_categories.
Proof.
  intros Hc. destruct (in_dec String.string_dec category declared_categories) as [Hin | Hnot];
    [exact Hin | ].
  rewrite (IsCategory_undeclared e category Hnot) in Hc. discriminate Hc.
Qed.

(** X4. An error is in at most one category. *)
Theorem IsCategory_exclusive (e : Error) (c1 c2 : string) :
  IsCategory e c1 = true -> IsCategory e c2 = true -> c1 = c2.
Proof.
  intros H1 H2.
  pose proof (IsCategory_declared e c1 H1) as D1.
  pose proof (IsCategory_declared e c2 H2) as D2.
  unfold declared_categories, category_table in D1, D2. cbn in D1, D2.
  repeat (destruct D1 as [<- | D1]); try contradiction;
    repeat (destruct D2 as [<- | D2]); try contradiction;
    try reflexivity;
    unfold IsCategory in H1, H2; cbn in H1, H2;
    rewrite ?andb_true_iff, ?Z.leb_le, ?Z.ltb_lt in H1, H2; lia.
Qed.

(** X5. An error without envelope, Connect error or not, is parsed to the
    unspecified code, which [Is] recognises and which is in no category. *)
Theorem ParseError_unclassified (err : error) (e : Error) (category : string) :
  ParseError (Some err) = Some e -> envelope err = None ->
  Is e ErrCodeUnspecified = true /\ IsCategory e category = false /\ Field e = "".
Proof.
  intros Hparse Henv. unfold ParseError, envelope in *.
  destruct (errors_As_connect err) as [ce | ].
  - rewrite scan_details_envelope, Henv in Hparse. injection Hparse as <-.
    unfold IsCategory. cbn. repeat split.
    repeat (destruct (String.eqb category _); [reflexivity | ]). reflexivity.
  - injection Hparse as <-. unfold IsCategory. cbn. repeat split.
    repeat (destruct (String.eqb category _); [reflexivity | ]). reflexivity.
Qed.

(** X6. The metadata map of the result is non-nil exactly for Connect errors,
    with or without envelope, and the transport status is the Connect
    error's own. *)
Theorem ParseError_metadata (err : error) (e : Error) :
  ParseError (Some err) = Some e ->
  match errors_As_connect err with
  | Some ce => Metadata e <> None /\ ConnectCode e = ce_Code ce
  | None => Metadata e = None /\ ConnectCode e = CodeUnknown
  end.
Proof.
  unfold ParseError. destruct (errors_As_connect err) as [ce | ].
  - rewrite scan_details_envelope. intros [= <-].
    destruct (first_envelope (ce_Details ce)) as [[c m f [md | ] | ] | ]; cbn;
      split; (discriminate || reflexivity).
  - intros [= <-]. split; reflexivity.
Qed.

Lemma IsCategory_range (e : Error) (category : string) :
  IsCategory e category = true ->
  100 <= Code e < 410 \/ 500 <= Code e < 700 \/ 900 <= Code e.
Proof.
  intros Hc. pose proof (IsCategory_declared e category Hc) as D.
  unfold declared_categories, category_table in D. cbn in D.
  repeat (destruct D as [<- | D]); try contradiction;
    unfold IsCategory in Hc; cbn in Hc;
    rewrite ?andb_true_iff, ?Z.leb_le, ?Z.ltb_lt in Hc; lia.
Qed.

(** X7. The categories leave gaps: an error is in some category exactly when
    its code is in 100..409, 500..699 or from 900 up. Codes below 100,
    from 410 to 499 and from 700 to 899 are in none, among them the
    declared codes for the unspecified error, for what exists already,
    for attachments and for tokens. *)
Theorem IsCategory_covered (e : Error) :
  ((exists category, IsCategory e category = true) <->
   (100 <= Code e < 410 \/ 500 <= Code e < 700 \/ 900 <= Code e)) /\
  (In (Code e) [ErrCodeUnspecified; ErrCodeAlreadyExists;
                ErrCodeAttachmentTooLarge; ErrCodeInvalidToken] ->
   forall category, IsCategory e category = false).
Proof.
  split.
  - split; [intros [category Hc]; exact (IsCategory_range e category Hc) | ].
    assert (Hin : forall lo hi category,
              IsCategory e category = ((lo <=? Code e) && (Code e <? hi)) ->
              lo <= Code e < hi -> exists c, IsCategory e c = true).
    { intros lo hi category Heq Hr. exists category. rewrite Heq.
      apply andb_true_iff. rewrite Z.leb_le, Z.ltb_lt. exact Hr. }
    intros [Hr | [Hr | Hr]].
    + destruct (Z_lt_dec (Code e) 200);
        [apply (Hin 100 200 CategoryAuth); [reflexivity | lia] | ].
      destruct (Z_lt_dec (Code e) 300);
        [apply (Hin 200 300 CategoryAuthz); [reflexivity | lia] | ].
      destruct (Z_lt_dec (Code e) 400);
        [apply (Hin 300 400 CategoryValidation); [reflexivity | lia] | ].
      apply (Hin 400 410 CategoryNotFound); [reflexivity | lia].
    + destruct (Z_lt_dec (Code e) 600);
        [apply (Hin 500 600 CategoryDomain); [reflexivity | lia] | ].
      apply (Hin 600 700 CategoryRateLimit); [reflexivity | lia].
    + exists CategoryInternal. unfold IsCategory. cbn. apply Z.leb_le. exact Hr.
  - intros Hcode category. destruct (IsCategory e category) eqn:Hc; [ | reflexivity].
    pose proof (IsCategory_range e category Hc) as Hr.
    unfold ErrCodeUnspecified, ErrCodeAlreadyExists, ErrCodeAttachmentTooLarge,
      ErrCodeInvalidToken in Hcode.
    cbn in Hcode. lia.
Qed.

End MoreErrors.

(* ===================================================================== *)
(** * Further properties of events.go *)
(* ===================================================================== *)

Section MoreEvents.
Import Errors Effects Effects.Notations Events Spec More.
Context `{GenV1} {U : Type}.

Local Abbreviation EventHandlers := (@EventHandlers _ U).
Local Abbreviation eventStreamer := (@eventStreamer _ U).
Local Abbreviation world := (@world _ U).
Local Abbreviation M := (@M _ U).

(** ** What a run keeps and what it emits, in general *)

Lemma dispatchEvent_effects (event : Event) (w : world) :
  Forall (fun e => plain e = true \/ e = EvOnError panic_error)
         (dispatchEvent event w).2.
Proof.
  rewrite dispatchEvent_eq.
  destruct (selected (handlers (self w)) (Payload event)) as [f | ]; [ | constructor].
  destruct (f (user w)) as [[ | r] u]; [repeat constructor | ].
  destruct (OnError (handlers (self w))) as [g | ];
    [ | unfold panic_line; repeat constructor].
  destruct (g panic_error u) as [[ | r'] u']; unfold panic_line; cbn [snd].
  - constructor; [left; reflexivity | ].
    constructor; [right; reflexivity | ].
    constructor; [left; reflexivity | constructor].
  - constructor; [left; reflexivity | ].
    constructor; [right; reflexivity | constructor].
Qed.

(** A session that returns an error returns the one the transport ended
    with, unless it has seen the scope cancelled. *)
Lemma stream_loop_result (l : list arrival) (final : option error) :
  forall (w w1 : world) (e : error) (t1 : list effect),
    stream_loop l final w = (Normal (Some e), w1, t1) ->
    final = Some e \/ ctx (self w1) = true.
Proof.
  induction l as [ | [cancel ev | ] l IH]; intros w w1 e t1 Hrun.
  - cbn in Hrun. injection Hrun as -> _ _. left. reflexivity.
  - rewrite stream_loop_receive in Hrun.
    destruct (stream_body cancel ev w) as [[[[err | ] | v] w0] t0] eqn:Hbody;
      [ | | discriminate Hrun].
    + injection Hrun as -> <- _. right.
      rewrite stream_body_eq in Hbody.
      destruct (ctx (self w) || cancel).
      * injection Hbody as _ <- _. reflexivity.
      * destruct (is_heartbeat ev); [discriminate Hbody | ].
        destruct (dispatchEvent ev w) as [[[[] | v] w2] t2]; [ | discriminate Hbody].
        destruct (auto_ack (self w) ev); discriminate Hbody.
    + destruct (stream_loop l final w0) as [[r2 w2] t2] eqn:Hrest.
      cbn in Hrun. injection Hrun as -> <- _. exact (IH _ _ _ _ Hrest).
  - rewrite stream_loop_timer in Hrun.
    destruct (stream_loop l final {| self := flushed (self w); user := user w |})
      as [[r2 w2] t2] eqn:Hrest.
    cbn in Hrun. injection Hrun as -> <- _. exact (IH _ _ _ _ Hrest).
Qed.

Lemma stream_result (ses : session) (w w1 : world) (e : error) (t1 : list effect) :
  stream ses w = (Normal (Some e), w1, t1) ->
  In e (session_errors ses) \/ ctx (self w1) = true.
Proof.
  rewrite stream_eq. unfold session_errors.
  destruct (open_err ses) as [e0 | ].
  - intros [= -> _ _]. left. left. reflexivity.
  - destruct (stream_loop (arrivals ses) (stream_Err ses) w) as [[r w2] t2] eqn:Hloop.
    intros [= -> <- _].
    destruct (stream_loop_result _ _ _ _ _ _ Hloop) as [Hfin | Hctx]; [ | right; exact Hctx].
    left. rewrite Hfin. left. reflexivity.
Qed.

Section Ensures.

(** [I] is kept by what the streamer does to its state; [Q] holds of what
    it emits; [E] holds of the errors the transport returns. *)
Variable I : eventStreamer -> Prop.
Variable Q : effect -> Prop.
Variable E : error -> Prop.
Hypothesis I_ctx : forall s, I s -> I (set_ctx true s).
Hypothesis I_flush : forall s, I s -> I (flushed s) /\ Forall Q (flush_trace s).
Hypothesis I_queue : forall id s,
  I s -> String.eqb (AckMode (handlers s)) AckModeAuto = true -> id <> "" ->
  I (queued id s) /\ Forall Q (queue_trace id s).
Hypothesis Q_open : forall s, I s -> Q (EvStreamEvents (BatchSize (handlers s))).
Hypothesis Q_plain : forall e, plain e = true -> Q e.
Hypothesis Q_panic : Q (EvOnError panic_error).
Hypothesis Q_report : forall e, E e -> Q (EvOnError e).

Lemma locked_ensures (t : list effect) : Forall Q t -> Forall Q (EvLock :: t ++ [EvUnlock]).
Proof.
  intros Ht. constructor; [apply Q_plain; reflexivity | ].
  apply Forall_app. split; [exact Ht | ].
  constructor; [apply Q_plain; reflexivity | constructor].
Qed.

Lemma dispatchEvent_ensures (event : Event) (w : world) :
  Forall Q (dispatchEvent event w).2.
Proof.
  eapply List.Forall_impl; [ | apply dispatchEvent_effects].
  intros e [He | ->]; [apply Q_plain; exact He | exact Q_panic].
Qed.

Lemma stream_loop_ensures (l : list arrival) (final : option error) :
  forall w : world,
    I (self w) ->
    I (self (stream_loop l final w).1.2) /\ Forall Q (stream_loop l final w).2.
Proof.
  induction l as [ | [cancel e | ] l IH]; intros w Hw.
  - cbn. split; [exact Hw | constructor].
  - rewrite stream_loop_receive, stream_body_eq.
    destruct (ctx (self w) || cancel).
    { cbn. split; [apply I_ctx; exact Hw | ].
      constructor; [apply Q_plain; reflexivity | constructor]. }
    destruct (is_heartbeat e); [rewrite prefixed_nil; apply IH; exact Hw | ].
    pose proof (dispatchEvent_ensures e w) as Hd.
    pose proof (dispatchEvent_self e w) as Hself.
    destruct (dispatchEvent e w) as [[[[] | v] w1] t1]; cbn in Hd, Hself;
      [ | cbn; rewrite Hself; auto].
    destruct (auto_ack (self w) e) eqn:Hauto; rewrite prefixed_trace, prefixed_fst.
    + unfold auto_ack in Hauto. apply andb_true_iff in Hauto.
      destruct Hauto as [Hmode Hid]. apply negb_true_iff in Hid.
      destruct (I_queue (Id e) (self w) Hw Hmode) as [Hq Hqt].
      { intros Heq. rewrite Heq in Hid. discriminate Hid. }
      destruct (IH {| self := queued (Id e) (self w); user := user w1 |} Hq) as [IH1 IH2].
      split; [exact IH1 | ].
      apply Forall_app. split; [ | exact IH2].
      apply Forall_app. split; [exact Hd | apply locked_ensures; exact Hqt].
    + destruct (IH w1) as [IH1 IH2]; [rewrite Hself; exact Hw | ].
      split; [exact IH1 | ]. apply Forall_app. split; [exact Hd | exact IH2].
  - rewrite stream_loop_timer, prefixed_trace, prefixed_fst.
    destruct (I_flush (self w) Hw) as [Hf Hft].
    destruct (IH {| self := flushed (self w); user := user w |} Hf) as [IH1 IH2].
    split; [exact IH1 | ].
    apply Forall_app. split; [apply locked_ensures; exact Hft | exact IH2].
Qed.

Lemma stream_ensures (ses : session) (w : world) :
  I (self w) ->
  I (self (stream ses w).1.2) /\ Forall Q (stream ses w).2.
Proof.
  intros Hw. rewrite stream_eq. destruct (open_err ses).
  { cbn. split; [exact Hw | ]. constructor; [apply Q_open; exact Hw | constructor]. }
  destruct (stream_loop_ensures (arrivals ses) (stream_Err ses) w Hw) as [H1 H2].
  destruct (stream_loop (arrivals ses) (stream_Err ses) w) as [[r w1] t1].
  cbn in H1, H2 |- *. split; [exact H1 | ].
  constructor; [apply Q_open; exact Hw | ].
  apply Forall_app. split; [exact H2 | ].
  constructor; [apply Q_plain; reflexivity | constructor].
Qed.

Lemma flush_ensures (s : eventStreamer) (cp : checkpoint) :
  I s -> Forall Q (EvCtxDone cp :: EvLock :: flush_trace s ++ [EvUnlock]).
Proof.
  intros Hs. constructor; [apply Q_plain; reflexivity | ].
  apply locked_ensures. apply I_flush. exact Hs.
Qed.

Lemma run_loop_ensures (script : list round) :
  (forall e, In e (script_errors script) -> E e) ->
  forall (d : Duration) (w : world),
    I (self w) ->
    I (self (run_loop script d w).1.2) /\ Forall Q (run_loop script d w).2.
Proof.
  induction script as [ | r rest IH]; intros HE d w Hw.
  { cbn. split; [exact Hw | constructor]. }
  assert (HEr : forall e, In e (session_errors (ses r)) -> E e).
  { intros e He. apply HE. unfold script_errors. cbn [map concat].
    apply in_or_app. left. exact He. }
  assert (HErest : forall e, In e (script_errors rest) -> E e).
  { intros e He. apply HE. unfold script_errors. cbn [map concat].
    apply in_or_app. right. exact He. }
  rewrite run_loop_cons.
  destruct (ctx (self w) || cancel_top r).
  { cbn [fst snd self]. split; [apply I_flush, I_ctx, Hw | ].
    apply flush_ensures, I_ctx, Hw. }
  destruct (stream_ensures (ses r) w Hw) as [Hs1 Hs2].
  pose proof (stream_result (ses r) w) as Hres.
  destruct (stream (ses r) w) as [[[err | v] w1] t1]; cbn in Hs1, Hs2;
    [ | cbn; auto].
  rewrite prefixed_trace, prefixed_fst.
  destruct (ctx (self w1) || cancel_post r) eqn:Hpost.
  { cbn [fst snd self]. split; [apply I_flush, I_ctx, Hs1 | ].
    apply Forall_app. split; [exact Hs2 | apply flush_ensures, I_ctx, Hs1]. }
  apply orb_false_elim in Hpost. destruct Hpost as [Hctx1 _].
  assert (Hrep : let x := match err with
                          | Some e => report e w1
                          | None => (Normal tt, w1, [])
                          end in
                 self x.1.2 = self w1 /\ Forall Q x.2).
  { destruct err as [e | ]; cbv zeta; [ | split; [reflexivity | constructor]].
    split; [apply report_self | ].
    assert (He : E e).
    { destruct (Hres w1 e t1 eq_refl) as [Hin | Hc]; [exact (HEr e Hin) | ].
      rewrite Hc in Hctx1. discriminate Hctx1. }
    rewrite report_eq. destruct (OnError (handlers (self w1))) as [g | ]; [ | constructor].
    destruct (g e (user w1)) as [[ | v] u]; cbn;
      (constructor; [apply Q_report; exact He | constructor]). }
  cbv zeta in Hrep.
  destruct (match err with Some e => report e w1 | None => (Normal tt, w1, []) end)
    as [[[[] | v] w2] t2]; cbn in Hrep; destruct Hrep as [Hself2 Hq2].
  2: { cbn. rewrite Hself2. split; [exact Hs1 | ].
       apply Forall_app. split; [exact Hs2 | exact Hq2]. }
  assert (Hw2 : I (self w2)) by (rewrite Hself2; exact Hs1).
  destruct (I_flush (self w2) Hw2) as [Hf Hft].
  cbv zeta. rewrite prefixed_trace, prefixed_fst.
  assert (Hpre : Forall Q (t2 ++ EvLock :: flush_trace (self w2) ++
                             [EvUnlock; EvTimeAfter d])).
  { apply Forall_app. split; [exact Hq2 | ].
    constructor; [apply Q_plain; reflexivity | ].
    apply Forall_app. split; [exact Hft | ].
    repeat (constructor; [apply Q_plain; reflexivity | ]). constructor. }
  destruct (ctx (flushed (self w2)) || cancel_sleep r).
  { cbn [fst snd self]. split; [apply I_ctx; exact Hf | ].
    apply Forall_app. split; [exact Hs2 | ].
    apply Forall_app. split; [exact Hpre | ].
    constructor; [apply Q_plain; reflexivity | constructor]. }
  destruct (IH HErest (nextDelay d) {| self := flushed (self w2); user := user w2 |} Hf)
    as [IH1 IH2].
  split; [exact IH1 | ].
  apply Forall_app. split; [exact Hs2 | ].
  apply Forall_app. split; [exact Hpre | exact IH2].
Qed.

End Ensures.

(** ** The batcher's invariant *)

Lemma batcher_ok_flushed (s : eventStreamer) :
  batcher_ok s -> batcher_ok (flushed s) /\ Forall sized_request (flush_trace s).
Proof.
  unfold batcher_ok, flushed, flush_trace, stop_trace. intros [Hlen Ht].
  destruct (pendingAcks s) as [ | id p] eqn:Hp.
  - rewrite Hp. split; [split; [exact Hlen | exact Ht] | constructor].
  - split; [split; [cbn; unfold ackBatchSize; lia | reflexivity] | ].
    apply Forall_app. split.
    + destruct (ackTimer s); repeat constructor.
    + constructor; [ | constructor]. cbn in Hlen |- *. lia.
Qed.

Lemma batcher_ok_queued (id : string) (s : eventStreamer) :
  batcher_ok s -> batcher_ok (queued id s) /\ Forall sized_request (queue_trace id s).
Proof.
  unfold batcher_ok, queued, queue_trace, stop_trace. intros [Hlen Ht].
  assert (Hl : length (pendingAcks s ++ [id]) = S (length (pendingAcks s)))
    by (rewrite length_app; cbn; lia).
  destruct (ackBatchSize <=? length (pendingAcks s ++ [id]))%nat eqn:Hfull.
  - split; [split; [cbn; unfold ackBatchSize; lia | reflexivity] | ].
    apply Forall_app. split.
    + destruct (ackTimer s); repeat constructor.
    + constructor; [ | constructor]. cbn. rewrite Hl. lia.
  - apply Nat.leb_gt in Hfull. cbn [pendingAcks ackTimer]. split.
    + split; [exact Hfull | ].
      destruct (ackTimer s) as [d | ].
      * split; [apply Ht | ]. destruct (pendingAcks s); discriminate.
      * split; [reflexivity | ]. destruct (pendingAcks s); discriminate.
    + destruct (ackTimer s); repeat constructor.
Qed.

Lemma sized_plain (e : effect) : plain e = true -> sized_request e.
Proof. destruct e; cbn; intros He; (exact I || discriminate He). Qed.

Lemma batcher_run (script : list round) (d : Duration) (w : world) :
  batcher_ok (self w) ->
  batcher_ok (self (run_loop script d w).1.2) /\
  Forall sized_request (run_loop script d w).2.
Proof.
  apply (run_loop_ensures batcher_ok sized_request (fun _ => True)).
  - intros s Hs. exact Hs.
  - exact batcher_ok_flushed.
  - intros id s Hs _ _. apply batcher_ok_queued. exact Hs.
  - intros s _. exact I.
  - exact sized_plain.
  - exact I.
  - intros e _. exact I.
  - intros e _. exact I.
Qed.

(** X8. The batcher's state as [OnReceive] creates it and as every operation
    leaves it: fewer than [ackBatchSize] identifiers pending, and the
    timer armed, for [ackFlushIntervalMs], exactly when some are. *)
Theorem batcher_kept :
  (forall (c : bool) (h : EventHandlers), batcher_ok (OnReceive c h)) /\
  (forall (id : string) (w : world),
     batcher_ok (self w) -> batcher_ok (self (queueAck id w).1.2)) /\
  (forall w : world,
     batcher_ok (self w) ->
     batcher_ok (self (flushAcks w).1.2) /\ batcher_ok (self (ackTimer_func w).1.2)) /\
  (forall (ses : session) (w : world),
     batcher_ok (self w) -> batcher_ok (self (stream ses w).1.2)) /\
  (forall (script : list round) (w : world),
     batcher_ok (self w) -> batcher_ok (self (run script w).1.2)).
Proof.
  split; [ | split; [ | split; [ | split]]].
  - intros c h. unfold batcher_ok, OnReceive. cbn. unfold ackBatchSize. split; [lia | reflexivity].
  - intros id w Hw. rewrite queueAck_eq. cbn. apply batcher_ok_queued. exact Hw.
  - intros w Hw. rewrite flushAcks_eq, ackTimer_func_eq. cbn.
    split; apply batcher_ok_flushed; exact Hw.
  - intros ses w Hw.
    apply (stream_ensures batcher_ok sized_request).
    + intros s Hs. exact Hs.
    + exact batcher_ok_flushed.
    + intros id s Hs _ _. apply batcher_ok_queued. exact Hs.
    + intros s _. exact I.
    + exact sized_plain.
    + exact I.
    + exact Hw.
  - intros script w Hw. apply batcher_run. exact Hw.
Qed.

(** X9. Every acknowledgment request of a streamer started by [OnReceive]
    carries at least one and at most [ackBatchSize] identifiers. *)
Theorem requests_sized (script : list round) (c : bool) (h : EventHandlers) (u : U) :
  Forall (fun ids => (1 <= length ids <= ackBatchSize)%nat)
         (acked (run script {| self := OnReceive c h; user := u |}).2).
Proof.
  destruct (batcher_run script initialDelay {| self := OnReceive c h; user := u |})
    as [_ Hq].
  { unfold batcher_ok, OnReceive. cbn. unfold ackBatchSize. split; [lia | reflexivity]. }
  fold (run script {| self := OnReceive c h; user := u |}) in Hq.
  induction Hq as [ | e t He Ht IH]; [constructor | ].
  destruct e; cbn [acked]; try exact IH. constructor; [exact He | exact IH].
Qed.

(** ** What the transport is asked for *)

(** X10. Every [StreamEvents] request of a streamer started by [OnReceive]
    carries the batch size given, or 10 if that was zero or less: never a
    batch size below one, whatever happens in between. *)
Theorem stream_batch_size (script : list round) (c : bool) (h : EventHandlers) (u : U) :
  Forall (fun e =>
            match e with
            | EvStreamEvents bs =>
                bs = (if BatchSize h <=? 0 then 10 else BatchSize h) /\ 0 < bs
            | _ => True
            end)
         (run script {| self := OnReceive c h; user := u |}).2.
Proof.
  assert (Hb : BatchSize (handlers (OnReceive c h)) =
               (if BatchSize h <=? 0 then 10 else BatchSize h)).
  { unfold OnReceive. destruct (String.eqb (AckMode h) ""); cbn;
      destruct (BatchSize h <=? 0); reflexivity. }
  apply (run_loop_ensures
           (fun s => handlers s = handlers (OnReceive c h)) _ (fun _ => True)).
  - intros s Hs. exact Hs.
  - intros s Hs. split; [rewrite handlers_flushed; exact Hs | ].
    unfold flush_trace, stop_trace. destruct (pendingAcks s); [constructor | ].
    destruct (ackTimer s); repeat constructor.
  - intros id s Hs _ _. split; [rewrite handlers_queued; exact Hs | ].
    unfold queue_trace, stop_trace.
    destruct (ackBatchSize <=? _)%nat; destruct (ackTimer s); repeat constructor.
  - intros s Hs. rewrite Hs, Hb. split; [reflexivity | ].
    destruct (BatchSize h <=? 0) eqn:Hle; [lia | apply Z.leb_gt in Hle; exact Hle].
  - intros e He. destruct e; (exact I || discriminate He).
  - exact I.
  - intros e _. exact I.
  - intros e _. exact I.
  - reflexivity.
Qed.

(** ** Manual mode *)

(** X11. With a mode other than the empty one and [auto], a streamer started
    by [OnReceive] never arms the timer and never issues an
    acknowledgment request, and nothing is ever pending. *)
Theorem manual_never_acks (script : list round) (c : bool) (h : EventHandlers) (u : U) :
  AckMode h <> "" -> AckMode h <> AckModeAuto ->
  let x := run script {| self := OnReceive c h; user := u |} in
  Forall (fun e =>
            match e with
            | EvGoAckEvents _ | EvAfterFunc _ | EvTimerStop => False
            | _ => True
            end) x.2 /\
  pendingAcks (self x.1.2) = [] /\ ackTimer (self x.1.2) = None.
Proof.
  intros Hne Hna. cbv zeta.
  destruct (run_loop_ensures
              (fun s => String.eqb (AckMode (handlers s)) AckModeAuto = false /\
                        pendingAcks s = [] /\ ackTimer s = None)
              (fun e => match e with
                        | EvGoAckEvents _ | EvAfterFunc _ | EvTimerStop => False
                        | _ => True
                        end)
              (fun _ => True)) with
    (script := script) (d := initialDelay)
    (w := {| self := OnReceive c h; user := u |}) as [Hi Hq].
  - intros s Hs. exact Hs.
  - intros s (Hm & Hp & Ht). unfold flushed, flush_trace. rewrite Hp.
    split; [auto | constructor].
  - intros id s (Hm & _) Hauto _. rewrite Hauto in Hm. discriminate Hm.
  - intros s _. exact I.
  - intros e He. destruct e; (exact I || discriminate He).
  - exact I.
  - intros e _. exact I.
  - intros e _. exact I.
  - unfold OnReceive. rewrite (eqb_neq_false _ _ Hne).
    destruct (BatchSize h <=? 0); cbn; rewrite (eqb_neq_false _ _ Hna); auto.
  - split; [exact Hq | ]. destruct Hi as (_ & Hp & Ht). auto.
Qed.

(** ** What [OnError] is given *)

(** X12. Whatever [OnError] is called with during a run is the internal error
    of a recovered panic or an error the transport returned, from
    [StreamEvents] or at the end of a stream; the error the receive loop
    returns on cancellation is not passed on. *)
Theorem reported_errors (script : list round) (w : world) :
  Forall (fun err => err = panic_error \/ In err (script_errors script))
         (reported (run script w).2).
Proof.
  destruct (run_loop_ensures
              (fun _ => True)
              (fun e => match e with
                        | EvOnError err => err = panic_error \/ In err (script_errors script)
                        | _ => True
                        end)
              (fun err => In err (script_errors script))) with
    (script := script) (d := initialDelay) (w := w) as [_ Hq]; auto.
  - intros s _. split; [exact I | ].
    unfold flush_trace, stop_trace. destruct (pendingAcks s); [constructor | ].
    destruct (ackTimer s); repeat constructor.
  - intros id s _ _ _. split; [exact I | ].
    unfold queue_trace, stop_trace.
    destruct (ackBatchSize <=? _)%nat; destruct (ackTimer s); repeat constructor.
  - intros e He. destruct e; (exact I || discriminate He).
  - fold (run script w) in Hq.
    induction Hq as [ | e t He Ht IH]; [constructor | ].
    destruct e; cbn [reported]; try exact IH. constructor; [exact He | exact IH].
Qed.

(** ** The lock *)

Lemma lock_scoped_app (t1 t2 : list effect) :
  forall held : bool,
    lock_scoped held t1 = true -> lock_scoped held (t1 ++ t2) = lock_scoped false t2.
Proof.
  induction t1 as [ | e t1 IH]; intros held Ht.
  - cbn in Ht |- *. destruct held; [discriminate Ht | reflexivity].
  - destruct e; cbn [app lock_scoped] in Ht |- *;
      apply andb_true_iff in Ht; destruct Ht as [Hh Ht];
      rewrite (IH _ Ht), Hh; reflexivity.
Qed.

Lemma scoped_app (t1 t2 : list effect) :
  lock_scoped false t1 = true -> lock_scoped false t2 = true ->
  lock_scoped false (t1 ++ t2) = true.
Proof. intros H1 H2. rewrite (lock_scoped_app t1 t2 false H1). exact H2. Qed.

Lemma scoped_outside (t : list effect) :
  Forall (fun e => outside e = true) t -> lock_scoped false t = true.
Proof.
  induction 1 as [ | e t He Ht IH]; [reflexivity | ].
  destruct e; cbn in He |- *; (discriminate He || exact IH).
Qed.

Lemma scoped_flush (s : eventStreamer) :
  lock_scoped false (EvLock :: flush_trace s ++ [EvUnlock]) = true.
Proof.
  unfold flush_trace, stop_trace.
  destruct (pendingAcks s); [reflexivity | ]. destruct (ackTimer s); reflexivity.
Qed.

Lemma scoped_queue (id : string) (s : eventStreamer) :
  lock_scoped false (EvLock :: queue_trace id s ++ [EvUnlock]) = true.
Proof.
  unfold queue_trace, stop_trace.
  destruct (ackBatchSize <=? _)%nat; destruct (ackTimer s); reflexivity.
Qed.

Lemma dispatchEvent_outside (event : Event) (w : world) :
  Forall (fun e => outside e = true) (dispatchEvent event w).2.
Proof.
  rewrite dispatchEvent_eq.
  destruct (selected (handlers (self w)) (Payload event)) as [f | ]; [ | constructor].
  destruct (f (user w)) as [[ | r] u]; [repeat constructor | ].
  destruct (OnError (handlers (self w))) as [g | ];
    [ | unfold panic_line; repeat constructor].
  destruct (g panic_error u) as [[ | r'] u']; unfold panic_line; repeat constructor.
Qed.

Lemma report_outside (err : error) (w : world) :
  Forall (fun e => outside e = true) (report err w).2.
Proof.
  rewrite report_eq. destruct (OnError (handlers (self w))) as [g | ]; [ | constructor].
  destruct (g err (user w)) as [[ | v] u]; repeat constructor.
Qed.

Lemma stream_loop_scoped (l : list arrival) (final : option error) :
  forall w : world, lock_scoped false (stream_loop l final w).2 = true.
Proof.
  induction l as [ | [cancel e | ] l IH]; intros w.
  - reflexivity.
  - rewrite stream_loop_receive, stream_body_eq.
    destruct (ctx (self w) || cancel); [reflexivity | ].
    destruct (is_heartbeat e); [rewrite prefixed_nil; apply IH | ].
    pose proof (dispatchEvent_outside e w) as Hd.
    destruct (dispatchEvent e w) as [[[[] | v] w1] t1]; cbn [snd] in Hd;
      [ | apply scoped_outside; exact Hd].
    destruct (auto_ack (self w) e); rewrite prefixed_trace.
    + apply scoped_app; [ | apply IH].
      apply scoped_app; [apply scoped_outside; exact Hd | apply scoped_queue].
    + apply scoped_app; [apply scoped_outside; exact Hd | apply IH].
  - rewrite stream_loop_timer, prefixed_trace.
    apply scoped_app; [apply scoped_flush | apply IH].
Qed.

Lemma stream_scoped (ses : session) (w : world) :
  lock_scoped false (stream ses w).2 = true.
Proof.
  rewrite stream_eq. destruct (open_err ses); [reflexivity | ].
  pose proof (stream_loop_scoped (arrivals ses) (stream_Err ses) w) as Hl.
  destruct (stream_loop (arrivals ses) (stream_Err ses) w) as [[r w1] t1].
  cbn [snd] in Hl |- *.
  apply (scoped_app [EvStreamEvents _]); [reflexivity | ].
  apply scoped_app; [exact Hl | reflexivity].
Qed.

Lemma run_loop_scoped (script : list round) :
  forall (d : Duration) (w : world), lock_scoped false (run_loop script d w).2 = true.
Proof.
  induction script as [ | r rest IH]; intros d w; [reflexivity | ].
  rewrite run_loop_cons.
  destruct (ctx (self w) || cancel_top r).
  { cbn [snd]. apply (scoped_app [EvCtxDone LoopTop]); [reflexivity | apply scoped_flush]. }
  pose proof (stream_scoped (ses r) w) as Hs.
  destruct (stream (ses r) w) as [[[err | v] w1] t1]; cbn [snd] in Hs; [ | exact Hs].
  rewrite prefixed_trace. apply scoped_app; [exact Hs | ].
  destruct (ctx (self w1) || cancel_post r).
  { cbn [snd]. apply (scoped_app [EvCtxDone PostSession]); [reflexivity | apply scoped_flush]. }
  assert (Hrep : Forall (fun e => outside e = true)
                   (match err with
                    | Some e => report e w1
                    | None => (Normal tt, w1, [])
                    end).2).
  { destruct err as [e | ]; [apply report_outside | constructor]. }
  destruct (match err with Some e => report e w1 | None => (Normal tt, w1, []) end)
    as [[[[] | v] w2] t2]; cbn [snd] in Hrep; [ | apply scoped_outside; exact Hrep].
  cbv zeta. rewrite prefixed_trace.
  apply scoped_app.
  - apply scoped_app; [apply scoped_outside; exact Hrep | ].
    change (EvLock :: flush_trace (self w2) ++ [EvUnlock; EvTimeAfter d])
      with (EvLock :: flush_trace (self w2) ++ [EvUnlock] ++ [EvTimeAfter d]).
    rewrite app_assoc.
    apply (scoped_app (EvLock :: _ ++ [EvUnlock])); [apply scoped_flush | reflexivity].
  - destruct (ctx (flushed (self w2)) || cancel_sleep r); [reflexivity | apply IH].
Qed.

Lemma lock_scoped_guarded (tr : list effect) :
  forall held : bool, lock_scoped held tr = true -> guarded held tr = true.
Proof.
  induction tr as [ | e tr IH]; intros held Ht; [exact Ht | ].
  destruct e; cbn [lock_scoped guarded] in Ht |- *;
    apply andb_true_iff in Ht; destruct Ht as [Hh Ht];
    rewrite (IH _ Ht), ?Hh; reflexivity.
Qed.

(** X13. In every run, every session and every call of the batcher the lock is
    taken only when free and released only when held, the timer and the
    requests are touched only while it is held, and nothing else happens
    while it is held: callbacks, [OnError], the log, the stream and the
    waits all run with the lock free. It is free at the end, also when a
    panic ends the run. *)
Theorem run_lock_scoped :
  (forall (script : list round) (w : world),
     lock_scoped false (run script w).2 = true /\ guarded false (run script w).2 = true) /\
  (forall (ses : session) (w : world), lock_scoped false (stream ses w).2 = true) /\
  (forall (id : string) (w : world), lock_scoped false (queueAck id w).2 = true) /\
  (forall w : world,
     lock_scoped false (flushAcks w).2 = true /\
     lock_scoped false (ackTimer_func w).2 = true).
Proof.
  split; [ | split; [ | split]].
  - intros script w.
    pose proof (run_loop_scoped script initialDelay w) as Hs.
    split; [exact Hs | apply lock_scoped_guarded; exact Hs].
  - exact stream_scoped.
  - intros id w. rewrite queueAck_eq. apply scoped_queue.
  - intros w. rewrite flushAcks_eq, ackTimer_func_eq. split; apply scoped_flush.
Qed.

(** ** Opening and closing the stream *)

(** X14. [stream] asks for the stream once, first; if that fails it returns the
    error with the state untouched and closes nothing; otherwise it closes
    the stream once, last, on every way out: the stream ending, the scope
    cancelled, or a panic out of [OnError]. *)
Theorem stream_closes (ses : session) (w : world) :
  match open_err ses with
  | Some err =>
      stream ses w =
      (Normal (Some err), w, [EvStreamEvents (BatchSize (handlers (self w)))])
  | None =>
      exists t : list effect,
        (stream ses w).2 =
          EvStreamEvents (BatchSize (handlers (self w))) :: t ++ [EvStreamClose] /\
        forallb in_session t = true /\
        (stream ses w).1 = (stream_loop (arrivals ses) (stream_Err ses) w).1
  end.
Proof.
  rewrite stream_eq. destruct (open_err ses); [reflexivity | ].
  pose proof (stream_loop_in_session (arrivals ses) (stream_Err ses) w) as Hin.
  destruct (stream_loop (arrivals ses) (stream_Err ses) w) as [[r w1] t1].
  exists t1. cbn [fst snd] in Hin |- *. auto.
Qed.


(** ** Nothing lost, nothing sent twice *)

Lemma flush_conserved (s : eventStreamer) :
  concat (acked (flush_trace s)) ++ pendingAcks (flushed s) = pendingAcks s.
Proof.
  rewrite acked_flush_trace, pendingAcks_flushed.
  destruct (pendingAcks s); cbn; rewrite ?app_nil_r; reflexivity.
Qed.

Lemma queue_conserved (id : string) (s : eventStreamer) :
  concat (acked (queue_trace id s)) ++ pendingAcks (queued id s) = pendingAcks s ++ [id].
Proof.
  rewrite acked_queue_trace, pendingAcks_queued.
  destruct (ackBatchSize <=? _)%nat; cbn; rewrite ?app_nil_r; reflexivity.
Qed.

Lemma stream_loop_conserved (l : list arrival) (final : option error) :
  forall w : world,
    exists lost : list string,
      pendingAcks (self w) ++ expected_ids (handlers (self w)) (ctx (self w)) l =
        concat (acked (stream_loop l final w).2) ++
        pendingAcks (self (stream_loop l final w).1.2) ++ lost /\
      (forall err, (stream_loop l final w).1.1 = Normal err -> lost = []).
Proof.
  induction l as [ | [cancel e | ] l IH]; intros w.
  - exists []. cbn. rewrite !app_nil_r. auto.
  - rewrite stream_loop_receive, stream_body_eq. cbn [expected_ids].
    destruct (ctx (self w) || cancel) eqn:Hc.
    { exists []. cbn. rewrite !app_nil_r. auto. }
    apply orb_false_elim in Hc. destruct Hc as [Hctx _].
    destruct (is_heartbeat e).
    { rewrite prefixed_nil, <- Hctx. apply IH. }
    pose proof (dispatchEvent_trace e w) as (_ & Hack & _).
    pose proof (dispatchEvent_self e w) as Hself.
    destruct (dispatchEvent e w) as [[[[] | v] w1] t1]; cbn in Hack, Hself.
    2: { eexists. cbn [fst snd]. rewrite Hack, Hself. cbn [concat app].
         split; [reflexivity | discriminate]. }
    unfold auto_ack.
    destruct (String.eqb (AckMode (handlers (self w))) AckModeAuto &&
              negb (String.eqb (Id e) "")); rewrite prefixed_trace, prefixed_fst.
    + destruct (IH {| self := queued (Id e) (self w); user := user w1 |})
        as (lost & Heq & Hn).
      cbn [self] in Heq, Hn. rewrite handlers_queued, ctx_queued, Hctx in Heq.
      exists lost. split; [ | exact Hn].
      rewrite !acked_app, Hack, acked_locked. cbn [app].
      rewrite concat_app, <- (app_assoc (concat _)), <- Heq.
      rewrite !app_assoc, queue_conserved, <- app_assoc. reflexivity.
    + destruct (IH w1) as (lost & Heq & Hn).
      rewrite Hself, Hctx in Heq.
      exists lost. split; [ | exact Hn].
      rewrite acked_app, Hack. exact Heq.
  - rewrite stream_loop_timer, prefixed_trace, prefixed_fst. cbn [expected_ids].
    destruct (IH {| self := flushed (self w); user := user w |}) as (lost & Heq & Hn).
    cbn [self] in Heq, Hn. rewrite handlers_flushed, ctx_flushed in Heq.
    exists lost. split; [ | exact Hn].
    rewrite acked_app, acked_locked, concat_app, <- (app_assoc (concat _)), <- Heq.
    rewrite app_assoc, flush_conserved. reflexivity.
Qed.

(** X15. Of the identifiers pending at the start of a session and those of
    the events it is to acknowledge, in order of arrival, each is in
    exactly one request or still pending at the end, in the same order;
    only a panic out of [OnError] leaves some of them unqueued. The same
    for one call of [queueAck] and for a flush. *)
Theorem session_acks_conserved :
  (forall (id : string) (w : world),
     concat (acked (queueAck id w).2) ++ pendingAcks (self (queueAck id w).1.2) =
     pendingAcks (self w) ++ [id]) /\
  (forall w : world,
     concat (acked (flushAcks w).2) ++ pendingAcks (self (flushAcks w).1.2) =
     pendingAcks (self w)) /\
  (forall (l : list arrival) (final : option error) (w : world),
     let x := stream_loop l final w in
     exists lost : list string,
       pendingAcks (self w) ++ expected_ids (handlers (self w)) (ctx (self w)) l =
         concat (acked x.2) ++ pendingAcks (self x.1.2) ++ lost /\
       (forall err, x.1.1 = Normal err -> lost = [])).
Proof.
  split; [ | split].
  - intros id w. rewrite queueAck_eq. cbn [fst snd self].
    rewrite acked_locked. apply queue_conserved.
  - intros w. rewrite flushAcks_eq. cbn [fst snd self].
    rewrite acked_locked. apply flush_conserved.
  - intros l final w. apply stream_loop_conserved.
Qed.

Lemma stream_loop_ctx (l : list arrival) (final : option error) :
  forall (w w1 : world) (r : option error) (t1 : list effect),
    stream_loop l final w = (Normal r, w1, t1) ->
    ctx (self w1) = ctx (self w) || negb (forallb quiet_arrival l).
Proof.
  induction l as [ | [cancel e | ] l IH]; intros w w1 r t1 Hrun.
  - cbn in Hrun. injection Hrun as _ <- _. cbn. rewrite orb_false_r. reflexivity.
  - rewrite stream_loop_receive in Hrun.
    destruct (stream_body cancel e w) as [[[[err | ] | v] w0] t0] eqn:Hbody;
      [ | | discriminate Hrun].
    + injection Hrun as _ <- _. rewrite stream_body_eq in Hbody.
      destruct (ctx (self w) || cancel) eqn:Hc.
      * injection Hbody as _ <- _. cbn [self ctx set_ctx forallb quiet_arrival].
        apply orb_true_iff in Hc. destruct Hc as [-> | ->]; [reflexivity | ].
        cbn. rewrite orb_true_r. reflexivity.
      * destruct (is_heartbeat e); [discriminate Hbody | ].
        destruct (dispatchEvent e w) as [[[[] | v] w2] t2]; [ | discriminate Hbody].
        destruct (auto_ack (self w) e); discriminate Hbody.
    + destruct (stream_body_continue _ _ _ _ _ Hbody) as (Hw & Hcancel & Hw0 & _).
      destruct (stream_loop l final w0) as [[r2 w2] t2] eqn:Hrest.
      cbn in Hrun. injection Hrun as -> <- _.
      rewrite (IH _ _ _ _ Hrest), Hw0, Hw, Hcancel. reflexivity.
  - rewrite stream_loop_timer in Hrun.
    destruct (stream_loop l final {| self := flushed (self w); user := user w |})
      as [[r2 w2] t2] eqn:Hrest.
    cbn in Hrun. injection Hrun as -> <- _.
    rewrite (IH _ _ _ _ Hrest). cbn [self]. rewrite ctx_flushed. reflexivity.
Qed.

Lemma stream_ctx (ses : session) (w w1 : world) (r : option error) (t1 : list effect) :
  ctx (self w) = false -> stream ses w = (Normal r, w1, t1) ->
  ctx (self w1) = session_cancelled ses.
Proof.
  intros Hw. rewrite stream_eq. unfold session_cancelled.
  destruct (open_err ses).
  - intros [= _ <- _]. exact Hw.
  - destruct (stream_loop (arrivals ses) (stream_Err ses) w) as [[r2 w2] t2] eqn:Hloop.
    intros [= -> <- _]. rewrite (stream_loop_ctx _ _ _ _ _ _ Hloop), Hw. reflexivity.
Qed.

Lemma stream_conserved (ses : session) (w : world) :
  exists lost : list string,
    pendingAcks (self w) ++
      match open_err ses with
      | Some _ => []
      | None => expected_ids (handlers (self w)) (ctx (self w)) (arrivals ses)
      end =
      concat (acked (stream ses w).2) ++ pendingAcks (self (stream ses w).1.2) ++ lost /\
    (forall err, (stream ses w).1.1 = Normal err -> lost = []).
Proof.
  rewrite stream_eq. destruct (open_err ses).
  { exists []. cbn. rewrite !app_nil_r. auto. }
  destruct (stream_loop_conserved (arrivals ses) (stream_Err ses) w) as (lost & Heq & Hn).
  destruct (stream_loop (arrivals ses) (stream_Err ses) w) as [[r w1] t1].
  cbn [fst snd] in Heq, Hn |- *. exists lost. split; [ | exact Hn].
  change (acked (EvStreamEvents ?b :: ?t)) with (acked t).
  rewrite acked_app. cbn [acked]. rewrite app_nil_r. exact Heq.
Qed.

Lemma run_loop_conserved (script : list round) :
  forall (d : Duration) (w : world),
    exists lost : list string,
      pendingAcks (self w) ++ script_ids (handlers (self w)) (ctx (self w)) script =
        concat (acked (run_loop script d w).2) ++
        pendingAcks (self (run_loop script d w).1.2) ++ lost /\
      (forall st, (run_loop script d w).1.1 = Normal st -> lost = []).
Proof.
  induction script as [ | r rest IH]; intros d w.
  { exists []. cbn. rewrite !app_nil_r. auto. }
  rewrite run_loop_cons. cbn [script_ids].
  destruct (ctx (self w) || cancel_top r) eqn:Htop.
  { exists []. cbn [fst snd self].
    change (acked (EvCtxDone LoopTop :: ?t)) with (acked t).
    rewrite acked_locked, !app_nil_r, flush_conserved. auto. }
  apply orb_false_elim in Htop. destruct Htop as [Hctx _].
  destruct (stream_conserved (ses r) w) as (lost1 & Heq1 & Hn1).
  pose proof (stream_ctx (ses r) w) as Hsc.
  pose proof (stream_handlers (ses r) w) as Hsh.
  rewrite Hctx in Heq1.
  destruct (stream (ses r) w) as [[[err | v] w1] t1]; cbn [fst snd] in Heq1, Hn1, Hsh.
  2: { match goal with
       | |- exists lost, _ ++ _ ++ ?tl = _ /\ _ => exists (lost1 ++ tl)
       end.
       cbn [fst snd]. split; [ | discriminate].
       rewrite !app_assoc, Heq1, <- !app_assoc. reflexivity. }
  rewrite (Hn1 err eq_refl), app_nil_r in Heq1.
  pose proof (Hsc w1 err t1 Hctx eq_refl) as Hc1. clear Hsc Hn1.
  rewrite <- Hc1. rewrite prefixed_trace, prefixed_fst.
  destruct (ctx (self w1) || cancel_post r) eqn:Hpost.
  { exists []. cbn [fst snd self orb].
    rewrite acked_app. change (acked (EvCtxDone PostSession :: ?t)) with (acked t).
    rewrite acked_locked, concat_app, !app_nil_r.
    rewrite Heq1, <- app_assoc, flush_conserved. auto. }
  apply orb_false_elim in Hpost. destruct Hpost as [Hctx1 Hpost].
  cbn [orb].
  assert (Hrep : let x := match err with
                          | Some e => report e w1
                          | None => (Normal tt, w1, [])
                          end in
                 self x.1.2 = self w1 /\ acked x.2 = []).
  { destruct err as [e | ]; cbv zeta; [ | split; reflexivity].
    split; [apply report_self | ].
    rewrite report_eq. destruct (OnError (handlers (self w1))) as [g | ]; [ | reflexivity].
    destruct (g e (user w1)) as [[ | v] u]; reflexivity. }
  cbv zeta in Hrep.
  destruct (match err with Some e => report e w1 | None => (Normal tt, w1, []) end)
    as [[[[] | v] w2] t2]; cbn [fst snd] in Hrep; destruct Hrep as [Hself2 Hack2].
  2: { match goal with
       | |- exists lost, _ ++ _ ++ ?tl = _ /\ _ => exists tl
       end.
       cbn [fst snd]. split; [ | discriminate].
       rewrite acked_app, Hack2, app_nil_r, Hself2, !app_assoc, Heq1, <- !app_assoc.
       reflexivity. }
  cbv zeta. rewrite prefixed_trace, prefixed_fst.
  assert (Hpre : acked (t2 ++ EvLock :: flush_trace (self w1) ++ [EvUnlock; EvTimeAfter d]) =
                 acked (flush_trace (self w1))).
  { rewrite acked_app, Hack2. cbn [app acked]. rewrite acked_app. cbn [acked].
    apply app_nil_r. }
  rewrite ctx_flushed, Hself2, Hctx1. cbn [orb].
  destruct (cancel_sleep r).
  { exists []. cbn [fst snd self set_ctx pendingAcks].
    rewrite acked_app, acked_app, Hpre. cbn [acked]. rewrite !app_nil_r, concat_app.
    rewrite Heq1, <- app_assoc, flush_conserved. auto. }
  destruct (IH (nextDelay d) {| self := flushed (self w1); user := user w2 |})
    as (lost & Heq & Hn).
  cbn [self] in Heq, Hn. rewrite handlers_flushed, ctx_flushed, Hctx1, Hsh in Heq.
  rewrite pendingAcks_flushed in Heq. cbn [app] in Heq.
  exists lost. split; [ | exact Hn].
  rewrite acked_app, acked_app, Hpre, !concat_app, <- !app_assoc, <- Heq.
  rewrite !app_assoc. f_equal. rewrite Heq1. f_equal.
  pose proof (flush_conserved (self w1)) as Hf.
  rewrite pendingAcks_flushed, app_nil_r in Hf. symmetry. exact Hf.
Qed.

(** X16. Over a whole run, reconnections included: the identifiers pending at
    the start and those of the events the script has the loop acknowledge
    are each in exactly one request or still pending at the end, in order
    of arrival; only a panic out of [OnError] leaves some unqueued. When
    the run has returned, all of them have been sent. *)
Theorem run_acks_conserved (script : list round) (w : world) :
  let x := run script w in
  (exists lost : list string,
     pendingAcks (self w) ++ script_ids (handlers (self w)) (ctx (self w)) script =
       concat (acked x.2) ++ pendingAcks (self x.1.2) ++ lost /\
     (forall st, x.1.1 = Normal st -> lost = [])) /\
  (x.1.1 = Normal Returned ->
   concat (acked x.2) =
   pendingAcks (self w) ++ script_ids (handlers (self w)) (ctx (self w)) script).
Proof.
  cbv zeta. destruct (run_loop_conserved script initialDelay w) as (lost & Heq & Hn).
  fold (run script w) in Heq, Hn.
  split; [exists lost; auto | ].
  intros Hret. rewrite Heq, (Hn _ Hret).
  destruct (run script w) as [[res w'] tr] eqn:Hrun. cbn [fst snd] in Hret |- *.
  subst res. unfold run in Hrun.
  destruct (run_loop_returned script _ _ _ _ Hrun) as (_ & Hp & _).
  rewrite Hp. rewrite !app_nil_r. reflexivity.
Qed.

(** ** Every event to its callback, once *)

Lemma callbacks_locked (t : list effect) :
  callbacks (EvLock :: t ++ [EvUnlock]) = callbacks t.
Proof. cbn [callbacks]. rewrite callbacks_app. cbn [callbacks]. apply app_nil_r. Qed.

Lemma stream_loop_callbacks (l : list arrival) (final : option error) :
  forall w : world,
    exists missed : list isEvent_Payload,
      expected_callbacks (handlers (self w)) (ctx (self w)) l =
        callbacks (stream_loop l final w).2 ++ missed /\
      (forall err, (stream_loop l final w).1.1 = Normal err -> missed = []).
Proof.
  induction l as [ | [cancel e | ] l IH]; intros w.
  - exists []. cbn. auto.
  - rewrite stream_loop_receive, stream_body_eq. cbn [expected_callbacks].
    destruct (ctx (self w) || cancel) eqn:Hc.
    { exists []. cbn. auto. }
    apply orb_false_elim in Hc. destruct Hc as [Hctx _].
    destruct (is_heartbeat e).
    { rewrite prefixed_nil, <- Hctx. apply IH. }
    pose proof (dispatchEvent_trace e w) as (_ & _ & Hcb).
    pose proof (dispatchEvent_self e w) as Hself.
    destruct (dispatchEvent e w) as [[[[] | v] w1] t1]; cbn [fst snd] in Hcb, Hself.
    2: { exists (expected_callbacks (handlers (self w)) false l).
         cbn [fst snd]. rewrite Hcb. split; [reflexivity | discriminate]. }
    destruct (auto_ack (self w) e); rewrite prefixed_trace, prefixed_fst.
    + destruct (IH {| self := queued (Id e) (self w); user := user w1 |})
        as (missed & Heq & Hn).
      cbn [self] in Heq, Hn. rewrite handlers_queued, ctx_queued, Hctx in Heq.
      exists missed. split; [ | exact Hn].
      rewrite !callbacks_app, callbacks_locked, callbacks_queue_trace, Hcb, Heq.
      cbn [app]. rewrite <- !app_assoc. reflexivity.
    + destruct (IH w1) as (missed & Heq & Hn).
      rewrite Hself, Hctx in Heq.
      exists missed. split; [ | exact Hn].
      rewrite callbacks_app, Hcb, Heq, <- app_assoc. reflexivity.
  - rewrite stream_loop_timer, prefixed_trace, prefixed_fst. cbn [expected_callbacks].
    destruct (IH {| self := flushed (self w); user := user w |}) as (missed & Heq & Hn).
    cbn [self] in Heq, Hn. rewrite handlers_flushed, ctx_flushed in Heq.
    exists missed. split; [ | exact Hn].
    rewrite callbacks_app, callbacks_locked, callbacks_flush_trace. exact Heq.
Qed.

Lemma stream_callbacks (ses : session) (w : world) :
  exists missed : list isEvent_Payload,
    match open_err ses with
    | Some _ => []
    | None => expected_callbacks (handlers (self w)) (ctx (self w)) (arrivals ses)
    end = callbacks (stream ses w).2 ++ missed /\
    (forall err, (stream ses w).1.1 = Normal err -> missed = []).
Proof.
  rewrite stream_eq. destruct (open_err ses).
  { exists []. cbn. auto. }
  destruct (stream_loop_callbacks (arrivals ses) (stream_Err ses) w) as (missed & Heq & Hn).
  destruct (stream_loop (arrivals ses) (stream_Err ses) w) as [[r w1] t1].
  cbn [fst snd] in Heq, Hn |- *. exists missed. split; [ | exact Hn].
  change (callbacks (EvStreamEvents ?b :: ?t)) with (callbacks t).
  rewrite callbacks_app. cbn [callbacks]. rewrite app_nil_r. exact Heq.
Qed.

Lemma run_loop_callbacks (script : list round) :
  forall (d : Duration) (w : world),
    exists missed : list isEvent_Payload,
      script_callbacks (handlers (self w)) (ctx (self w)) script =
        callbacks (run_loop script d w).2 ++ missed /\
      (forall st, (run_loop script d w).1.1 = Normal st -> missed = []).
Proof.
  induction script as [ | r rest IH]; intros d w.
  { exists []. cbn. auto. }
  rewrite run_loop_cons. cbn [script_callbacks].
  destruct (ctx (self w) || cancel_top r) eqn:Htop.
  { exists []. cbn [fst snd].
    change (callbacks (EvCtxDone LoopTop :: ?t)) with (callbacks t).
    rewrite callbacks_locked, callbacks_flush_trace. auto. }
  apply orb_false_elim in Htop. destruct Htop as [Hctx _].
  destruct (stream_callbacks (ses r) w) as (missed1 & Heq1 & Hn1).
  pose proof (stream_ctx (ses r) w) as Hsc.
  pose proof (stream_handlers (ses r) w) as Hsh.
  rewrite Hctx in Heq1. rewrite Heq1.
  destruct (stream (ses r) w) as [[[err | v] w1] t1]; cbn [fst snd] in Hn1, Hsh |- *.
  2: { match goal with
       | |- exists missed, (_ ++ _) ++ ?tl = _ /\ _ => exists (missed1 ++ tl)
       end.
       split; [ | discriminate]. rewrite <- app_assoc. reflexivity. }
  rewrite (Hn1 err eq_refl), app_nil_r.
  pose proof (Hsc w1 err t1 Hctx eq_refl) as Hc1. clear Hsc Hn1 Heq1.
  rewrite <- Hc1. rewrite prefixed_trace, prefixed_fst.
  destruct (ctx (self w1) || cancel_post r) eqn:Hpost.
  { exists []. cbn [fst snd orb].
    rewrite callbacks_app. change (callbacks (EvCtxDone PostSession :: ?t)) with (callbacks t).
    rewrite callbacks_locked, callbacks_flush_trace, !app_nil_r. auto. }
  apply orb_false_elim in Hpost. destruct Hpost as [Hctx1 Hpost].
  cbn [orb].
  assert (Hrep : let x := match err with
                          | Some e => report e w1
                          | None => (Normal tt, w1, [])
                          end in
                 self x.1.2 = self w1 /\ callbacks x.2 = []).
  { destruct err as [e | ]; cbv zeta; [ | split; reflexivity].
    split; [apply report_self | ].
    rewrite report_eq. destruct (OnError (handlers (self w1))) as [g | ]; [ | reflexivity].
    destruct (g e (user w1)) as [[ | v] u]; reflexivity. }
  cbv zeta in Hrep.
  destruct (match err with Some e => report e w1 | None => (Normal tt, w1, []) end)
    as [[[[] | v] w2] t2]; cbn [fst snd] in Hrep; destruct Hrep as [Hself2 Hcb2].
  2: { match goal with
       | |- exists missed, _ ++ ?tl = _ /\ _ => exists tl
       end.
       cbn [fst snd]. split; [ | discriminate].
       rewrite callbacks_app, Hcb2, app_nil_r. reflexivity. }
  cbv zeta. rewrite prefixed_trace, prefixed_fst.
  assert (Hpre : callbacks (t2 ++ EvLock :: flush_trace (self w1) ++
                              [EvUnlock; EvTimeAfter d]) = []).
  { rewrite callbacks_app, Hcb2. cbn [app callbacks]. rewrite callbacks_app.
    rewrite callbacks_flush_trace. reflexivity. }
  rewrite ctx_flushed, Hself2, Hctx1. cbn [orb].
  destruct (cancel_sleep r).
  { exists []. cbn [fst snd].
    rewrite callbacks_app, callbacks_app, Hpre. cbn [callbacks]. rewrite !app_nil_r. auto. }
  destruct (IH (nextDelay d) {| self := flushed (self w1); user := user w2 |})
    as (missed & Heq & Hn).
  cbn [self] in Heq, Hn. rewrite handlers_flushed, ctx_flushed, Hctx1, Hsh in Heq.
  exists missed. split; [ | exact Hn].
  rewrite callbacks_app, callbacks_app, Hpre, Heq. cbn [app].
  rewrite <- app_assoc. reflexivity.
Qed.

(** X17. Over a whole run, reconnections included, the payloads handed to
    typed callbacks are those of the events the script has the loop
    receive that have a callback, each once and in order of arrival,
    whether callbacks return or panic; heartbeats, events without a
    callback and whatever arrives after cancellation are not among them.
    Only a panic out of [OnError] cuts the list short. *)
Theorem run_callbacks (script : list round) (w : world) :
  let x := run script w in
  (exists missed : list isEvent_Payload,
     script_callbacks (handlers (self w)) (ctx (self w)) script =
       callbacks x.2 ++ missed) /\
  (forall st, x.1.1 = Normal st ->
     callbacks x.2 = script_callbacks (handlers (self w)) (ctx (self w)) script).
Proof.
  cbv zeta. destruct (run_loop_callbacks script initialDelay w) as (missed & Heq & Hn).
  fold (run script w) in Heq, Hn.
  split; [exists missed; exact Heq | ].
  intros st Hst. rewrite Heq, (Hn st Hst), app_nil_r. reflexivity.
Qed.


(** ** Panics *)

Lemma dispatchEvent_panics (event : Event) (w w1 : world) (v : string) (t1 : list effect) :
  dispatchEvent event w = (Panicking v, w1, t1) ->
  t1 = [EvCallback (Payload event); EvOnError panic_error] /\
  exists (g : error -> U -> returns * U) (u u' : U),
    OnError (handlers (self w)) = Some g /\ g panic_error u = (Panics v, u').
Proof.
  rewrite dispatchEvent_eq.
  destruct (selected (handlers (self w)) (Payload event)) as [f | ]; [ | discriminate].
  destruct (f (user w)) as [[ | r] u]; [discriminate | ].
  destruct (OnError (handlers (self w))) as [g | ]; [ | discriminate].
  destruct (g panic_error u) as [[ | r'] u'] eqn:Hg; [discriminate | ].
  intros [= <- _ <-]. split; [reflexivity | ].
  exists g, u, u'. split; [reflexivity | exact Hg].
Qed.

Lemma stream_loop_panics (l : list arrival) (final : option error) :
  forall (w w1 : world) (v : string) (t1 : list effect),
    stream_loop l final w = (Panicking v, w1, t1) ->
    (exists pre, t1 = pre ++ [EvOnError panic_error]) /\
    exists (g : error -> U -> returns * U) (u u' : U),
      OnError (handlers (self w)) = Some g /\ g panic_error u = (Panics v, u').
Proof.
  induction l as [ | [cancel e | ] l IH]; intros w w1 v t1 Hrun.
  - discriminate Hrun.
  - rewrite stream_loop_receive in Hrun.
    destruct (stream_body cancel e w) as [[[[err | ] | v0] w0] t0] eqn:Hbody;
      [discriminate Hrun | | ].
    + destruct (stream_body_continue _ _ _ _ _ Hbody) as (_ & _ & _ & Hh).
      destruct (stream_loop l final w0) as [[r2 w2] t2] eqn:Hrest.
      cbn in Hrun. injection Hrun as -> _ <-.
      destruct (IH _ _ _ _ Hrest) as [[pre Hpre] Hg].
      rewrite Hh in Hg. split; [ | exact Hg].
      exists (t0 ++ pre). rewrite Hpre, app_assoc. reflexivity.
    + injection Hrun as <- _ <-. rewrite stream_body_eq in Hbody.
      destruct (ctx (self w) || cancel); [discriminate Hbody | ].
      destruct (is_heartbeat e); [discriminate Hbody | ].
      destruct (dispatchEvent e w) as [[[[] | v1] w2] t2] eqn:Hd.
      * destruct (auto_ack (self w) e); discriminate Hbody.
      * injection Hbody as <- _ <-.
        destruct (dispatchEvent_panics _ _ _ _ _ Hd) as [-> Hg].
        split; [ | exact Hg]. exists [EvCallback (Payload e)]. reflexivity.
  - rewrite stream_loop_timer in Hrun.
    destruct (stream_loop l final {| self := flushed (self w); user := user w |})
      as [[r2 w2] t2] eqn:Hrest.
    cbn in Hrun. injection Hrun as -> _ <-.
    destruct (IH _ _ _ _ Hrest) as [[pre Hpre] Hg].
    cbn [self] in Hg. rewrite handlers_flushed in Hg. split; [ | exact Hg].
    exists ((EvLock :: flush_trace (self w) ++ [EvUnlock]) ++ pre).
    rewrite Hpre, app_assoc. reflexivity.
Qed.

Lemma run_loop_panics (script : list round) :
  forall (d : Duration) (w w' : world) (v : string) (tr : list effect),
    run_loop script d w = (Panicking v, w', tr) ->
    (exists (g : error -> U -> returns * U) (err : error) (u u' : U),
       OnError (handlers (self w)) = Some g /\ g err u = (Panics v, u')) /\
    exists pre,
      tr = pre ++ [EvOnError panic_error; EvStreamClose] \/
      exists e, In e (script_errors script) /\ tr = pre ++ [EvOnError e].
Proof.
  induction script as [ | r rest IH]; intros d w w' v tr Hrun; [discriminate Hrun | ].
  rewrite run_loop_cons in Hrun.
  destruct (ctx (self w) || cancel_top r); [discriminate Hrun | ].
  pose proof (stream_handlers (ses r) w) as Hsh.
  pose proof (stream_result (ses r) w) as Hres.
  destruct (stream (ses r) w) as [[[err | v1] w1] t1] eqn:Hs; cbn [fst snd] in Hsh.
  2: { injection Hrun as <- _ <-. rewrite stream_eq in Hs.
       destruct (open_err (ses r)); [discriminate Hs | ].
       destruct (stream_loop (arrivals (ses r)) (stream_Err (ses r)) w)
         as [[r2 w2] t2] eqn:Hloop.
       injection Hs as -> _ <-.
       destruct (stream_loop_panics _ _ _ _ _ _ Hloop) as [[pre Hpre] (g & u & u' & Hg & Hp)].
       split; [exists g, panic_error, u, u'; auto | ].
       exists (EvStreamEvents (BatchSize (handlers (self w))) :: pre). left.
       rewrite Hpre. cbn [app]. rewrite <- app_assoc. reflexivity. }
  destruct (ctx (self w1) || cancel_post r) eqn:Hpost.
  { cbn in Hrun. discriminate Hrun. }
  apply orb_false_elim in Hpost. destruct Hpost as [Hctx1 _].
  assert (Hrep : forall w2 t2 v2,
            match err with Some e => report e w1 | None => (Normal tt, w1, []) end =
              (Panicking v2, w2, t2) ->
            exists e g u', err = Some e /\ t2 = [EvOnError e] /\
                           OnError (handlers (self w1)) = Some g /\
                           g e (user w1) = (Panics v2, u')).
  { intros w2 t2 v2 Hr. destruct err as [e | ]; [ | discriminate Hr].
    rewrite report_eq in Hr.
    destruct (OnError (handlers (self w1))) as [g | ]; [ | discriminate Hr].
    destruct (g e (user w1)) as [[ | v3] u3] eqn:Hg; [discriminate Hr | ].
    injection Hr as <- _ <-. exists e, g, u3. auto. }
  pose proof (fun e => report_self e w1) as Hrs.
  destruct (match err with Some e => report e w1 | None => (Normal tt, w1, []) end)
    as [[[[] | v2] w2] t2] eqn:Hr.
  2: { cbn in Hrun. injection Hrun as <- _ <-.
       destruct (Hrep _ _ _ eq_refl) as (e & g & u' & -> & -> & Hg & Hp).
       rewrite Hsh in Hg. split; [exists g, e, (user w1), u'; auto | ].
       exists t1. right. exists e. split; [ | reflexivity].
       unfold script_errors. cbn [map concat]. apply in_or_app. left.
       destruct (Hres w1 e t1 eq_refl) as [Hin | Hc]; [exact Hin | ].
       rewrite Hc in Hctx1. discriminate Hctx1. }
  assert (Hself2 : self w2 = self w1).
  { destruct err as [e | ]; [ | injection Hr as <- _; reflexivity].
    rewrite <- (Hrs e), Hr. reflexivity. }
  cbv zeta in Hrun. rewrite !prefixed_prefixed in Hrun.
  destruct (ctx (flushed (self w2)) || cancel_sleep r); [discriminate Hrun | ].
  destruct (run_loop rest (nextDelay d) {| self := flushed (self w2); user := user w2 |})
    as [[r3 w3] t3] eqn:Hrest.
  cbn in Hrun. injection Hrun as -> _ <-.
  destruct (IH _ _ _ _ _ Hrest) as [(g & e & u & u' & Hg & Hp) [pre Hpre]].
  cbn [self] in Hg. rewrite handlers_flushed, Hself2, Hsh in Hg.
  split; [exists g, e, u, u'; auto | ].
  match goal with |- context [?a ++ t3] => exists (a ++ pre) end.
  destruct Hpre as [-> | (e0 & Hin & ->)].
  - left. rewrite <- !app_assoc. reflexivity.
  - right. exists e0. split.
    + unfold script_errors. cbn [map concat]. apply in_or_app. right. exact Hin.
    + rewrite <- !app_assoc. reflexivity.
Qed.

(** X18. The only panic that leaves [run] is one out of [OnError]: the call of
    [OnError] is the last thing the loop did, for an error the transport
    returned, or for the panic of a callback, and then the deferred
    [Close] of the stream follows it; nothing is flushed after it. *)
Theorem run_panics (script : list round) (w : world) (v : string) :
  (run script w).1.1 = Panicking v ->
  (exists (g : error -> U -> returns * U) (err : error) (u u' : U),
     OnError (handlers (self w)) = Some g /\ g err u = (Panics v, u')) /\
  exists pre,
    (run script w).2 = pre ++ [EvOnError panic_error; EvStreamClose] \/
    exists e, In e (script_errors script) /\ (run script w).2 = pre ++ [EvOnError e].
Proof.
  intros Hp. destruct (run script w) as [[res w'] tr] eqn:Hrun. cbn [fst snd] in Hp |- *.
  subst res. exact (run_loop_panics script _ _ _ _ _ Hrun).
Qed.

(** ** The timer *)

Lemma timer_run_app (t1 t2 : list effect) :
  forall a b : bool, timer_run a t1 = Some b -> timer_run a (t1 ++ t2) = timer_run b t2.
Proof.
  induction t1 as [ | e t1 IH]; intros a b Ht.
  - cbn in Ht |- *. injection Ht as ->. reflexivity.
  - destruct e; cbn [app timer_run] in Ht |- *; try exact (IH _ _ Ht);
      destruct a; try discriminate Ht; exact (IH _ _ Ht).
Qed.

Lemma timer_run_quiet (t : list effect) (a : bool) :
  Forall (fun e => plain e = true \/ outside e = true) t -> timer_run a t = Some a.
Proof.
  induction 1 as [ | e t He Ht IH]; [reflexivity | ].
  destruct e; cbn in He |- *; try exact IH; destruct He; discriminate.
Qed.

Lemma timer_run_flush (s : eventStreamer) :
  timer_run (armed s) (EvLock :: flush_trace s ++ [EvUnlock]) = Some (armed (flushed s)).
Proof.
  unfold flush_trace, stop_trace, flushed, armed.
  destruct (pendingAcks s); [reflexivity | ]. destruct (ackTimer s); reflexivity.
Qed.

Lemma timer_run_queue (id : string) (s : eventStreamer) :
  timer_run (armed s) (EvLock :: queue_trace id s ++ [EvUnlock]) =
  Some (armed (queued id s)).
Proof.
  unfold queue_trace, stop_trace, queued, armed.
  destruct (ackBatchSize <=? _)%nat; destruct (ackTimer s); reflexivity.
Qed.

Lemma stream_loop_timer_run (l : list arrival) (final : option error) :
  forall w : world,
    timer_run (armed (self w)) (stream_loop l final w).2 =
    Some (armed (self (stream_loop l final w).1.2)).
Proof.
  induction l as [ | [cancel e | ] l IH]; intros w.
  - reflexivity.
  - rewrite stream_loop_receive, stream_body_eq.
    destruct (ctx (self w) || cancel); [reflexivity | ].
    destruct (is_heartbeat e); [rewrite prefixed_nil; apply IH | ].
    pose proof (dispatchEvent_outside e w) as Hd.
    pose proof (dispatchEvent_self e w) as Hself.
    assert (Hq : timer_run (armed (self w)) (dispatchEvent e w).2 = Some (armed (self w))).
    { apply timer_run_quiet. eapply List.Forall_impl; [ | exact Hd]. intros a Ha. right. exact Ha. }
    destruct (dispatchEvent e w) as [[[[] | v] w1] t1]; cbn [fst snd] in Hq, Hself;
      [ | cbn [fst snd]; rewrite Hself; exact Hq].
    destruct (auto_ack (self w) e); rewrite prefixed_trace, prefixed_fst.
    + rewrite (timer_run_app _ _ _ (armed (queued (Id e) (self w))));
        [apply (IH {| self := queued (Id e) (self w); user := user w1 |}) | ].
      rewrite (timer_run_app _ _ _ _ Hq). apply timer_run_queue.
    + rewrite (timer_run_app _ _ _ _ Hq), <- Hself. apply IH.
  - rewrite stream_loop_timer, prefixed_trace, prefixed_fst.
    rewrite (timer_run_app _ _ _ _ (timer_run_flush (self w))).
    apply (IH {| self := flushed (self w); user := user w |}).
Qed.

Lemma stream_timer_run (ses : session) (w : world) :
  timer_run (armed (self w)) (stream ses w).2 = Some (armed (self (stream ses w).1.2)).
Proof.
  rewrite stream_eq. destruct (open_err ses); [reflexivity | ].
  pose proof (stream_loop_timer_run (arrivals ses) (stream_Err ses) w) as Hl.
  destruct (stream_loop (arrivals ses) (stream_Err ses) w) as [[r w1] t1].
  cbn [fst snd] in Hl |- *.
  change (timer_run ?a (EvStreamEvents ?b :: ?t)) with (timer_run a t).
  rewrite (timer_run_app _ _ _ _ Hl). reflexivity.
Qed.

Lemma run_loop_timer_run (script : list round) :
  forall (d : Duration) (w : world),
    timer_run (armed (self w)) (run_loop script d w).2 =
    Some (armed (self (run_loop script d w).1.2)).
Proof.
  induction script as [ | r rest IH]; intros d w; [reflexivity | ].
  rewrite run_loop_cons.
  destruct (ctx (self w) || cancel_top r).
  { cbn [fst snd self]. change (timer_run ?a (EvCtxDone ?c :: ?t)) with (timer_run a t).
    apply (timer_run_flush (set_ctx true (self w))). }
  pose proof (stream_timer_run (ses r) w) as Hs.
  destruct (stream (ses r) w) as [[[err | v] w1] t1]; cbn [fst snd] in Hs; [ | exact Hs].
  rewrite prefixed_trace, prefixed_fst, (timer_run_app _ _ _ _ Hs).
  destruct (ctx (self w1) || cancel_post r).
  { cbn [fst snd self]. change (timer_run ?a (EvCtxDone ?c :: ?t)) with (timer_run a t).
    apply (timer_run_flush (set_ctx true (self w1))). }
  assert (Hrep : let x := match err with
                          | Some e => report e w1
                          | None => (Normal tt, w1, [])
                          end in
                 self x.1.2 = self w1 /\ timer_run (armed (self w1)) x.2 = Some (armed (self w1))).
  { destruct err as [e | ]; cbv zeta; [ | split; reflexivity].
    split; [apply report_self | ]. apply timer_run_quiet.
    eapply List.Forall_impl; [ | apply report_outside]. intros a Ha. right. exact Ha. }
  cbv zeta in Hrep.
  destruct (match err with Some e => report e w1 | None => (Normal tt, w1, []) end)
    as [[[[] | v] w2] t2]; cbn [fst snd] in Hrep; destruct Hrep as [Hself2 Hq2].
  2: { cbn [fst snd]. rewrite Hself2. exact Hq2. }
  cbv zeta. rewrite prefixed_trace, prefixed_fst.
  assert (Hpre : timer_run (armed (self w1))
                   (t2 ++ EvLock :: flush_trace (self w2) ++ [EvUnlock; EvTimeAfter d]) =
                 Some (armed (flushed (self w2)))).
  { rewrite (timer_run_app _ _ _ _ Hq2), <- Hself2.
    change (EvLock :: flush_trace (self w2) ++ [EvUnlock; EvTimeAfter d])
      with (EvLock :: flush_trace (self w2) ++ [EvUnlock] ++ [EvTimeAfter d]).
    rewrite app_assoc, app_comm_cons.
    rewrite (timer_run_app (EvLock :: _ ++ [EvUnlock]) _ _ _ (timer_run_flush (self w2))).
    reflexivity. }
  rewrite (timer_run_app _ _ _ _ Hpre).
  destruct (ctx (flushed (self w2)) || cancel_sleep r); [reflexivity | ].
  apply (IH (nextDelay d) {| self := flushed (self w2); user := user w2 |}).
Qed.

(** X19. A timer is armed only when none is armed and stopped only when one
    is, over every run and whatever the state at the start: the streamer
    never has two timers, and the timer field tells at every moment
    whether one is armed. *)
Theorem timer_alternates (script : list round) (w : world) :
  timer_run (armed (self w)) (run script w).2 = Some (armed (self (run script w).1.2)) /\
  (forall (l : list arrival) (final : option error),
     timer_run (armed (self w)) (stream_loop l final w).2 =
     Some (armed (self (stream_loop l final w).1.2))).
Proof.
  split; [apply run_loop_timer_run | ].
  intros l final. apply stream_loop_timer_run.
Qed.


(** ** What the mode does *)

Lemma expected_ids_mode (h1 h2 : EventHandlers) (l : list arrival) :
  AckMode h1 = AckMode h2 ->
  forall done : bool, expected_ids h1 done l = expected_ids h2 done l.
Proof.
  intros Hm. induction l as [ | [cancel e | ] l IH]; intros done; cbn [expected_ids].
  - reflexivity.
  - rewrite Hm, !IH. reflexivity.
  - apply IH.
Qed.

Lemma script_ids_mode (h1 h2 : EventHandlers) (script : list round) :
  AckMode h1 = AckMode h2 ->
  forall done : bool, script_ids h1 done script = script_ids h2 done script.
Proof.
  intros Hm. induction script as [ | r rest IH]; intros done; cbn [script_ids].
  - reflexivity.
  - rewrite (expected_ids_mode h1 h2 _ Hm), !IH. reflexivity.
Qed.

Lemma OnReceive_mode (c : bool) (h : EventHandlers) :
  AckMode (handlers (OnReceive c h)) =
  if String.eqb (AckMode h) "" then AckModeAuto else AckMode h.
Proof.
  unfold OnReceive.
  destruct (String.eqb (AckMode h) ""); destruct (BatchSize h <=? 0) eqn:Hb;
    cbn; rewrite ?Hb; reflexivity.
Qed.

Lemma OnReceive_auto (c : bool) (h : EventHandlers) :
  String.eqb (AckMode (handlers (OnReceive c h))) AckModeAuto =
  String.eqb (AckMode h) "" || String.eqb (AckMode h) AckModeAuto.
Proof.
  rewrite OnReceive_mode. destruct (String.eqb (AckMode h) ""); reflexivity.
Qed.

Lemma quiet_acked (tr : list effect) :
  Forall (fun e => match e with
                   | EvGoAckEvents _ | EvAfterFunc _ | EvTimerStop => False
                   | _ => True
                   end) tr ->
  acked tr = [].
Proof.
  induction 1 as [ | e t He Ht IH]; [reflexivity | ].
  destruct e; cbn [acked]; (exact IH || destruct He).
Qed.

Lemma other_mode_quiet (script : list round) (d : Duration) (w : world) :
  String.eqb (AckMode (handlers (self w))) AckModeAuto = false ->
  pendingAcks (self w) = [] -> ackTimer (self w) = None ->
  Forall (fun e => match e with
                   | EvGoAckEvents _ | EvAfterFunc _ | EvTimerStop => False
                   | _ => True
                   end) (run_loop script d w).2 /\
  pendingAcks (self (run_loop script d w).1.2) = [] /\
  ackTimer (self (run_loop script d w).1.2) = None.
Proof.
  intros Hm Hp Ht.
  destruct (run_loop_ensures
              (fun s => String.eqb (AckMode (handlers s)) AckModeAuto = false /\
                        pendingAcks s = [] /\ ackTimer s = None)
              (fun e => match e with
                        | EvGoAckEvents _ | EvAfterFunc _ | EvTimerStop => False
                        | _ => True
                        end)
              (fun _ => True)) with (script := script) (d := d) (w := w) as [Hi Hq].
  - intros s Hs. exact Hs.
  - intros s (Hm' & Hp' & Ht'). unfold flushed, flush_trace. rewrite Hp'.
    split; [auto | constructor].
  - intros id s (Hm' & _) Hauto _. rewrite Hauto in Hm'. discriminate Hm'.
  - intros s _. exact I.
  - intros e He. destruct e; (exact I || discriminate He).
  - exact I.
  - intros e _. exact I.
  - intros e _. exact I.
  - auto.
  - split; [exact Hq | ]. destruct Hi as (_ & Hp' & Ht'). auto.
Qed.

(** C9. [OnReceive] turns the empty [AckMode] into [auto] and a
    [BatchSize] of zero or less into 10, and leaves the rest alone. What
    the receive loop then does with an event that is to be acknowledged
    depends on the mode given: if it is empty or [auto], the identifier
    is queued after the dispatch (on the new streamer: it is the one
    pending identifier and the timer is armed), and when a run has
    returned the requests carry, in order, the non-empty identifiers of
    all events received that are no heartbeats; with any other mode the
    iteration is the dispatch alone, and no run ever arms the timer or
    issues a request. With any other mode the streamer does what it
    does with [manual]: same result, same trace with the same calls of
    [OnError], same state. *)
Theorem OnReceive_defaults :
  (forall (c : bool) (h : EventHandlers),
     let s := OnReceive c h in
     AckMode (handlers s) = (if String.eqb (AckMode h) "" then AckModeAuto else AckMode h) /\
     BatchSize (handlers s) = (if BatchSize h <=? 0 then 10 else BatchSize h) /\
     (forall p, selected (handlers s) p = selected h p) /\
     OnError (handlers s) = OnError h /\
     ctx s = c /\ pendingAcks s = [] /\ ackTimer s = None) /\
  (forall (h : EventHandlers) (u : U) (event : Event),
     is_heartbeat event = false -> Id event <> "" ->
     let w := {| self := OnReceive false h; user := u |} in
     stream_body false event w =
     match dispatchEvent event w with
     | (Normal _, w1, t1) =>
         if String.eqb (AckMode h) "" || String.eqb (AckMode h) AckModeAuto then
           (Normal None,
            {| self := {| handlers := handlers (OnReceive false h); ctx := false;
                          pendingAcks := [Id event];
                          ackTimer := Some ackFlushIntervalMs |};
               user := user w1 |},
            t1 ++ [EvLock; EvAfterFunc ackFlushIntervalMs; EvUnlock])
         else (Normal None, w1, t1)
     | (Panicking v, w1, t1) => (Panicking v, w1, t1)
     end) /\
  (forall (c : bool) (h : EventHandlers) (script : list round) (u : U),
     String.eqb (AckMode h) "" || String.eqb (AckMode h) AckModeAuto = true ->
     let x := run script {| self := OnReceive c h; user := u |} in
     x.1.1 = Normal Returned ->
     concat (acked x.2) = script_ids (with_AckMode AckModeAuto h) c script) /\
  (forall (c : bool) (h : EventHandlers) (script : list round) (u : U),
     String.eqb (AckMode h) "" || String.eqb (AckMode h) AckModeAuto = false ->
     let x := run script {| self := OnReceive c h; user := u |} in
     acked x.2 = [] /\
     Forall (fun e => match e with
                      | EvGoAckEvents _ | EvAfterFunc _ | EvTimerStop => False
                      | _ => True
                      end) x.2 /\
     pendingAcks (self x.1.2) = [] /\ ackTimer (self x.1.2) = None) /\
  (forall (c : bool) (h : EventHandlers) (m : string) (script : list round) (u : U),
     m <> "" -> m <> AckModeAuto ->
     run script {| self := OnReceive c (with_AckMode m h); user := u |} =
     retag_outcome m
       (run script {| self := OnReceive c (with_AckMode AckModeManual h); user := u |})).
Proof.
  assert (Hstart : forall (c : bool) (h : EventHandlers),
            ctx (OnReceive c h) = c /\ pendingAcks (OnReceive c h) = [] /\
            ackTimer (OnReceive c h) = None).
  { intros c h. unfold OnReceive. cbn. auto. }
  split; [ | split; [ | split; [ | split]]].
  - intros c h. unfold OnReceive. cbv zeta.
    destruct (String.eqb (AckMode h) ""); destruct (BatchSize h <=? 0) eqn:Hb;
      cbn; rewrite ?Hb; cbn; repeat split; intros p; destruct p; reflexivity.
  - intros h u event Hhb Hid. cbv zeta.
    destruct (Hstart false h) as (Hc & Hp & Ht).
    rewrite stream_body_eq. cbn [self]. rewrite Hc, Hhb. cbn [orb].
    pose proof (dispatchEvent_self event {| self := OnReceive false h; user := u |}) as Hself.
    destruct (dispatchEvent event {| self := OnReceive false h; user := u |})
      as [[[[] | v] w1] t1]; [ | reflexivity].
    cbn [fst snd self] in Hself.
    unfold auto_ack. rewrite OnReceive_auto.
    destruct (String.eqb (Id event) "") eqn:Hide.
    { apply String.eqb_eq in Hide. contradiction. }
    cbn [negb]. rewrite andb_true_r.
    destruct (String.eqb (AckMode h) "" || String.eqb (AckMode h) AckModeAuto);
      [ | reflexivity].
    unfold queued, queue_trace. rewrite Hp, Ht, Hc. reflexivity.
  - intros c h script u Hm. cbv zeta. intros Hret.
    destruct (Hstart c h) as (Hc & Hp & _).
    destruct (run_loop_conserved script initialDelay {| self := OnReceive c h; user := u |})
      as (lost & Heq & Hn).
    fold (run script {| self := OnReceive c h; user := u |}) in Heq, Hn.
    cbn [self] in Heq. rewrite Hp, Hc, (Hn _ Hret) in Heq. cbn [app] in Heq.
    rewrite (script_ids_mode (with_AckMode AckModeAuto h) (handlers (OnReceive c h))).
    2: { rewrite OnReceive_mode. apply orb_true_iff in Hm.
         destruct (String.eqb (AckMode h) "") eqn:He; [reflexivity | ].
         destruct Hm as [Hm | Hm]; [discriminate Hm | ].
         apply String.eqb_eq in Hm. rewrite Hm. reflexivity. }
    rewrite Heq.
    destruct (run script {| self := OnReceive c h; user := u |}) as [[res w'] tr] eqn:Hrun.
    cbn [fst snd] in Hret |- *. subst res. unfold run in Hrun.
    destruct (run_loop_returned script _ _ _ _ Hrun) as (_ & Hp' & _).
    rewrite Hp', !app_nil_r. reflexivity.
  - intros c h script u Hm. cbv zeta.
    destruct (Hstart c h) as (_ & Hp & Ht).
    destruct (other_mode_quiet script initialDelay {| self := OnReceive c h; user := u |})
      as (Hq & Hp' & Ht'); try assumption.
    { cbn [self]. rewrite OnReceive_auto. exact Hm. }
    fold (run script {| self := OnReceive c h; user := u |}) in Hq, Hp', Ht'.
    split; [apply quiet_acked; exact Hq | auto].
  - intros c h m script u Hne Hna.
    assert (Hs : OnReceive c (with_AckMode m h) =
                 retag m (OnReceive c (with_AckMode AckModeManual h))).
    { unfold OnReceive, retag. cbn [with_AckMode AckMode BatchSize].
      rewrite (eqb_neq_false m "" Hne). cbn.
      destruct (BatchSize h <=? 0); reflexivity. }
    rewrite Hs. unfold run.
    apply (run_loop_retag m script initialDelay
             {| self := OnReceive c (with_AckMode AckModeManual h); user := u |}).
    unfold same_auto. rewrite (eqb_neq_false m AckModeAuto Hna).
    unfold OnReceive. cbn. destruct (BatchSize h <=? 0); reflexivity.
Qed.

End MoreEvents.

(* ===================================================================== *)
(** * Properties of client.go *)

Section ClientFacts.
Import ClientGo.
Context {HTTPClient Context_ Body Response EmailServiceClient DomainServiceClient : Type}.
Variable http_DefaultClient : HTTPClient.

Local Abbreviation AnyRequest := (@AnyRequest Body).
Local Abbreviation UnaryFunc := (@UnaryFunc Context_ Body Response).
Local Abbreviation connect_ClientOption := (@connect_ClientOption Context_ Body Response).
Local Abbreviation Client := (@Client HTTPClient EmailServiceClient DomainServiceClient).
Local Abbreviation exported := (@exported HTTPClient).
Local Abbreviation option_of :=
  (@option_of HTTPClient EmailServiceClient DomainServiceClient).

Variable NewEmailServiceClient :
  HTTPClient -> string -> list connect_ClientOption -> EmailServiceClient.
Variable NewDomainServiceClient :
  HTTPClient -> string -> list connect_ClientOption -> DomainServiceClient.

Local Abbreviation NewClient :=
  (NewClient http_DefaultClient NewEmailServiceClient NewDomainServiceClient).

Lemma apply_opts_exported (os : list exported) :
  forall c : Client,
    let c' := apply_opts (map option_of os) c in
    apiKey c' = apiKey c /\ baseURL c' = last_url os (baseURL c) /\
    http c' = last_http os (http c) /\
    Emails c' = Emails c /\ Domains c' = Domains c.
Proof.
  induction os as [ | o os IH]; intros c; [cbn; auto | ].
  cbv zeta. unfold apply_opts. cbn [map fold_left].
  destruct (IH (option_of o c)) as (Hk & Hu & Hh & He & Hd).
  cbv zeta in Hk, Hu, Hh, He, Hd. unfold apply_opts in Hk, Hu, Hh, He, Hd.
  rewrite Hk, Hu, Hh, He, Hd. destruct o; cbn; auto.
Qed.

Lemma last_url_app (os : list exported) (url : string) :
  forall default, last_url (os ++ [BaseURL url]) default = url.
Proof. induction os as [ | [u | h] os IH]; intros default; cbn; auto. Qed.

Lemma last_http_app (os : list exported) (client : HTTPClient) :
  forall default, last_http (os ++ [HTTP client]) default = client.
Proof. induction os as [ | [u | h] os IH]; intros default; cbn; auto. Qed.

(** X20. [NewClient] with exported options: the key is the one given; the base
    URL and the HTTP client are those of the last option that sets them,
    the defaults if none does; both service clients are built after the
    options have run, from these same final settings and with the one
    interceptor, which reads that key. Whatever options do, both service
    clients are set in the result. *)
Theorem NewClient_settings (key : string) :
  (forall os : list exported,
     let c := NewClient key (map option_of os) in
     apiKey c = key /\
     baseURL c = last_url os DefaultBaseURL /\
     http c = last_http os http_DefaultClient /\
     exists c0 : Client,
       apiKey c0 = key /\
       Emails c =
         Some (NewEmailServiceClient (http c) (baseURL c)
                 [WithInterceptors [authInterceptor c0]]) /\
       Domains c =
         Some (NewDomainServiceClient (http c) (baseURL c)
                 [WithInterceptors [authInterceptor c0]])) /\
  (forall (os : list exported) (url : string) (client : HTTPClient),
     baseURL (NewClient key (map option_of (os ++ [BaseURL url]))) = url /\
     http (NewClient key (map option_of (os ++ [HTTP client]))) = client) /\
  (forall opts : list (Client -> Client),
     Emails (NewClient key opts) <> None /\ Domains (NewClient key opts) <> None).
Proof.
  split; [ | split].
  - intros os. cbv zeta. unfold ClientGo.NewClient. cbn [apiKey baseURL http Emails Domains].
    destruct (apply_opts_exported os
                {| Emails := None; Domains := None; apiKey := key;
                   baseURL := DefaultBaseURL; http := http_DefaultClient |})
      as (Hk & Hu & Hh & _ & _).
    cbv zeta in Hk, Hu, Hh. cbn [apiKey baseURL http] in Hk, Hu, Hh.
    split; [exact Hk | ]. split; [exact Hu | ]. split; [exact Hh | ].
    eexists. split; [exact Hk | ]. split; reflexivity.
  - intros os url client. unfold ClientGo.NewClient. cbn [baseURL http].
    split.
    + destruct (apply_opts_exported (os ++ [BaseURL url])
                  {| Emails := None; Domains := None; apiKey := key;
                     baseURL := DefaultBaseURL; http := http_DefaultClient |})
        as (_ & Hu & _).
      cbv zeta in Hu. rewrite Hu. apply last_url_app.
    + destruct (apply_opts_exported (os ++ [HTTP client])
                  {| Emails := None; Domains := None; apiKey := key;
                     baseURL := DefaultBaseURL; http := http_DefaultClient |})
        as (_ & _ & Hh & _).
      cbv zeta in Hh. rewrite Hh. apply last_http_app.
  - intros opts. split; discriminate.
Qed.

(** X21. The interceptor hands [next] the same request with the header
    [Authorization] set to the single value ["Bearer " ++ apiKey],
    whatever the request carried under that name; every other header and
    the rest of the request are untouched, and the result is that of
    [next]. Applied twice, the interceptor run last, nearest the
    transport, decides. *)
Theorem authInterceptor_sets (c : Client) (next : UnaryFunc) (ctx : Context_)
    (req : AnyRequest) :
  (exists req' : AnyRequest,
     authInterceptor c next ctx req = next ctx req' /\
     req_Header req' !! "Authorization" = Some ["Bearer " ++ apiKey c]%string /\
     (forall k : string, k <> "Authorization" ->
        req_Header req' !! k = req_Header req !! k) /\
     req_rest req' = req_rest req) /\
  (forall c' : Client,
     authInterceptor c (authInterceptor c' next) ctx req = authInterceptor c' next ctx req).
Proof.
  split.
  - eexists. split; [reflexivity | ]. cbn [req_Header req_rest]. unfold Header_Set.
    split; [apply lookup_insert_eq | ].
    split; [ | reflexivity].
    intros k Hk. apply lookup_insert_ne. congruence.
  - intros c'. unfold authInterceptor. cbn [req_Header req_rest]. unfold Header_Set.
    do 2 f_equal. apply (insert_insert_eq (M := gmap string)).
Qed.

End ClientFacts.

(* ===================================================================== *)
(** * The further properties on sample data *)

Section OnMoreSamples.
Import Errors Effects Effects.Notations Events Spec More Samples.
#[local] Existing Instance sampleGen.

Lemma scan_details_first_witness :
  scan_details (ce_Details precondition_501)
    {| Code := 0; Message := "verify the domain"; Field := "";
       Metadata := Some ∅; ConnectCode := 9 |} =
  {| Code := 501; Message := "verify the domain"; Field := "from";
     Metadata := Some {[ "domain" := "example.com" ]}; ConnectCode := 9 |}.
Proof.
  destruct (scan_details_first
              [ {| detail_Type := "google.rpc.RetryInfo"; detail_Value := Some msg_other |};
                {| detail_Type := "v1.ErrorDetail"; detail_Value := None |} ]
              []
              {| detail_Type := "v1.ErrorDetail";
                 detail_Value :=
                   Some (msg_getters 501 "" "from" (Some {[ "domain" := "example.com" ]})) |}
              (msg_getters 501 "" "from" (Some {[ "domain" := "example.com" ]}))
              {| Code := 0; Message := "verify the domain"; Field := "";
                 Metadata := Some ∅; ConnectCode := 9 |})
    as [Hscan _].
  - constructor; [left; reflexivity | ]. constructor; [right; reflexivity | constructor].
  - reflexivity.
  - reflexivity.
  - exact Hscan.
Defined.

Lemma IsCategory_exclusive_witness :
  IsCategory denied CategoryAuthz = true /\ CategoryAuthz = CategoryAuthz.
Proof.
  split; [reflexivity | ].
  apply (IsCategory_exclusive denied CategoryAuthz CategoryAuthz); reflexivity.
Defined.

Lemma ParseError_unclassified_witness :
  ParseError (Some (err_connect "unavailable: down" unavailable)) =
    Some {| Code := 0; Message := "down"; Field := "";
            Metadata := Some ∅; ConnectCode := CodeUnavailable |} /\
  IsCategory {| Code := 0; Message := "down"; Field := "";
                Metadata := Some ∅; ConnectCode := CodeUnavailable |} CategoryInternal = false.
Proof.
  split; [reflexivity | ].
  apply (ParseError_unclassified (err_connect "unavailable: down" unavailable)
           {| Code := 0; Message := "down"; Field := "";
              Metadata := Some ∅; ConnectCode := CodeUnavailable |} CategoryInternal);
    reflexivity.
Defined.

Lemma ParseError_metadata_witness :
  ParseError (Some enveloped_501) = Some parsed_501 /\
  Metadata parsed_501 <> None /\ ConnectCode parsed_501 = 9.
Proof.
  split; [reflexivity | ].
  exact (ParseError_metadata enveloped_501 parsed_501 eq_refl).
Defined.

Lemma manual_never_acks_witness :
  acked (run eight {| self := OnReceive false manual; user := 0%nat |}).2 = [] /\
  pendingAcks (self (run eight {| self := OnReceive false manual; user := 0%nat |}).1.2) = [].
Proof.
  destruct (@manual_never_acks sampleGen nat eight false manual 0%nat) as (Hq & Hp & _).
  - discriminate.
  - discriminate.
  - split; [ | exact Hp].
    induction Hq as [ | e t He Ht IH]; [reflexivity | ].
    destruct e; cbn [acked]; (exact IH || destruct He).
Defined.

Lemma run_panics_witness :
  (run panicky (start hopeless)).1.1 = Panicking "index out of range" /\
  exists pre : list effect,
    (run panicky (start hopeless)).2 = pre ++ [EvOnError panic_error; EvStreamClose] \/
    exists e, In e (script_errors panicky) /\
              (run panicky (start hopeless)).2 = pre ++ [EvOnError e].
Proof.
  split; [vm_compute; reflexivity | ].
  apply (@run_panics sampleGen nat panicky (start hopeless) "index out of range").
  vm_compute. reflexivity.
Defined.

Lemma run_callbacks_witness :
  callbacks (run stop_post (start faulty)).2 =
  [Event_EmailDelivered "a@example.com"; Event_EmailDelivered "a@example.com";
   Event_EmailDelivered "a@example.com"].
Proof.
  rewrite (proj2 (@run_callbacks sampleGen nat stop_post (start faulty)) Returned);
    [reflexivity | vm_compute; reflexivity].
Defined.

Lemma OnReceive_defaults_witness :
  stream_body false (delivered "e1") (start faulty) =
    (Normal None,
     {| self := {| handlers := handlers (OnReceive false faulty); ctx := false;
                   pendingAcks := ["e1"]; ackTimer := Some ackFlushIntervalMs |};
        user := 1%nat |},
     [EvCallback (Event_EmailDelivered "a@example.com");
      EvLock; EvAfterFunc ackFlushIntervalMs; EvUnlock]) /\
  stream_body false (delivered "e1")
      {| self := OnReceive false (with_AckMode "Auto" faulty); user := 0%nat |} =
    (Normal None,
     {| self := OnReceive false (with_AckMode "Auto" faulty); user := 1%nat |},
     [EvCallback (Event_EmailDelivered "a@example.com")]) /\
  concat (acked (run stop_post (start faulty)).2) = ["e2"; "e1"] /\
  acked (run stop_post
           {| self := OnReceive false (with_AckMode "Auto" faulty); user := 0%nat |}).2 = [].
Proof.
  destruct (@OnReceive_defaults sampleGen nat) as (_ & Hstep & Hauto & Hother & _).
  unfold start.
  split; [ | split; [ | split]].
  - rewrite (Hstep faulty 0%nat (delivered "e1") eq_refl); [reflexivity | discriminate].
  - rewrite (Hstep (with_AckMode "Auto" faulty) 0%nat (delivered "e1") eq_refl);
      [reflexivity | discriminate].
  - rewrite (Hauto false faulty stop_post 0%nat eq_refl); [reflexivity | ].
    vm_compute. reflexivity.
  - exact (proj1 (Hother false (with_AckMode "Auto" faulty) stop_post 0%nat eq_refl)).
Defined.

Lemma batcher_kept_witness :
  batcher_ok (self (run eight (start modest)).1.2).
Proof.
  destruct (@batcher_kept sampleGen nat) as (Hstart & _ & _ & _ & Hrun).
  apply Hrun. apply Hstart.
Defined.

Lemma run_acks_conserved_witness :
  concat (acked (run stop_post (start faulty)).2) = ["e2"; "e1"].
Proof.
  rewrite (proj2 (@run_acks_conserved sampleGen nat stop_post (start faulty)));
    [reflexivity | vm_compute; reflexivity].
Defined.

End OnMoreSamples.
